(** * MinesweeperCLI: the board model of [minesweeper.py] and its properties

    The Python program keeps one [MinesweeperBoard] whose [board] field is a
    list of rows of mutable [Tile] objects.  Every tile object sits in exactly
    one cell of that grid for its whole life, so a reference to a tile is
    modelled as the cell that holds it ([Ref]), and a mutation through a
    reference as an in-place update of that cell.  Exceptions are modelled by
    [option]: [None] stands for an uncaught Python exception (or, for the
    recursive [evaluate_tile], for a call stack deeper than the given bound).

    Console output is modelled by pure functions returning the printed lines;
    the random generator by the sequence of values it returns. *)

From Stdlib Require Import ZArith Lia Bool Ascii.
From Stdlib Require Import SpecFloat PrimFloat FloatOps.
From Stdlib Require Import DecimalString.
From stdpp Require Import base list strings.

Local Open Scope string_scope.
Local Open Scope Z_scope.

(** ** Python primitives used by the program *)

Module Py.

(** [range(n)] for an integer [n]: empty when [n <= 0]. *)
Definition range (n : Z) : list Z := Z.of_nat <$> seq 0 (Z.to_nat n).

(** The cell a subscript [l[i]] reads in a list of length [len]: negative
    subscripts count from the end; [None] is [IndexError]. *)
Definition slot (len : nat) (i : Z) : option nat :=
  if i <? 0 then
    if - i <=? Z.of_nat len then Some (Z.to_nat (Z.of_nat len + i)) else None
  else
    if i <? Z.of_nat len then Some (Z.to_nat i) else None.

(** [l[i]]. *)
Definition index {A} (l : list A) (i : Z) : option A :=
  k ← slot (length l) i; l !! k.

(** [d[k]] for a dictionary with string keys; [None] is [KeyError]. *)
Fixpoint dict_get {V} (d : list (string * V)) (k : string) : option V :=
  match d with
  | [] => None
  | (k', v) :: d' => if String.eqb k' k then Some v else dict_get d' k
  end.

(** [str(n)] for an integer. *)
Definition str (n : Z) : string := NilZero.string_of_int (Z.to_int n).

(** [len(s)] for a string. *)
Definition len (s : string) : Z := Z.of_nat (String.length s).

(** [s.ljust(w)]. *)
Fixpoint spaces (n : nat) : string :=
  match n with O => EmptyString | S n' => String " "%char (spaces n') end.

Definition ljust (s : string) (w : nat) : string :=
  s +:+ spaces (w - String.length s).

(** [c * n] for a one-character string [c]. *)
Fixpoint repeat_char (c : ascii) (n : nat) : string :=
  match n with O => EmptyString | S n' => String c (repeat_char c n') end.

(** [sep.join(l)]. *)
Fixpoint join (sep : string) (l : list string) : string :=
  match l with
  | [] => EmptyString
  | [s] => s
  | s :: l' => s +:+ sep +:+ join sep l'
  end.

Definition tab : string := String (ascii_of_nat 9) EmptyString.

(** Python floats are IEEE 754 binary64 numbers; their arithmetic is the
    one [SpecFloat] specifies.  [float(n)] for an integer rounds to the
    nearest double, ties to even; [None] is [OverflowError]. *)
Definition float_of_int (n : Z) : option spec_float :=
  match binary_normalize prec emax n 0 false with
  | S754_infinity _ | S754_nan => None
  | f => Some f
  end.

(** [a * b] on floats. *)
Definition float_mul (a b : spec_float) : spec_float := SFmul prec emax a b.

(** [int(f)] for a float: truncation toward zero; [None] is the
    exception raised on infinities and NaN. *)
Definition int_of_float (f : spec_float) : option Z :=
  match f with
  | S754_zero _ => Some 0
  | S754_finite s m e =>
      let a := if 0 <=? e then Z.pos m * 2 ^ e else Z.pos m / 2 ^ (- e) in
      Some (if s then - a else a)
  | S754_infinity _ | S754_nan => None
  end.

(** [random.randint(lo, hi)] returning [draw]; [None] is the [ValueError]
    raised on an empty range. *)
Definition randint (lo hi : Z) (draw : Z) : option Z :=
  if hi <? lo then None else Some draw.

(** A [for] loop over a list whose body may raise. *)
Fixpoint for_each {S A} (body : S → A → option S) (l : list A) (s : S)
  : option S :=
  match l with
  | [] => Some s
  | a :: l' => s' ← body s a; for_each body l' s'
  end.

End Py.

(** ** Module-level tables *)

Definition TILE_TYPES : list (string * string) :=
  [("unknown", "?"); ("empty", " "); ("mine", "!")].

(** The doubles written [0.1], [0.2], [0.3] and [0.5] in the source, that is
    [0x1.999999999999ap-4], [0x1.999999999999ap-3], [0x1.3333333333333p-2]
    and [0x1p-1] (see [DIFFICULTY_MAPPING_doubles]). *)
Definition DIFFICULTY_MAPPING : list (string * spec_float) :=
  [("easy", S754_finite false 7205759403792794 (-56));
   ("medium", S754_finite false 7205759403792794 (-55));
   ("hard", S754_finite false 5404319552844595 (-54));
   ("insane", S754_finite false 4503599627370496 (-53))].

(** ** Tile *)

Record Tile := mkTile {
  tile_type : string;
  revealed : bool;
  x : Z;
  y : Z;
  n_adjacent_mines : Z
}.

Definition set_tile_type (v : string) (t : Tile) : Tile :=
  mkTile v (revealed t) (x t) (y t) (n_adjacent_mines t).
Definition set_revealed (v : bool) (t : Tile) : Tile :=
  mkTile (tile_type t) v (x t) (y t) (n_adjacent_mines t).
Definition set_n_adjacent_mines (v : Z) (t : Tile) : Tile :=
  mkTile (tile_type t) (revealed t) (x t) (y t) v.

(** [Tile.__repr__] *)
Definition Tile_repr (t : Tile) : option string :=
  if 0 <? n_adjacent_mines t then Some (Py.str (n_adjacent_mines t))
  else if revealed t then Py.dict_get TILE_TYPES (tile_type t)
  else Py.dict_get TILE_TYPES "unknown".

(** ** MinesweeperBoard *)

Record MinesweeperBoard := mkBoard {
  size : Z;
  difficulty : string;
  board : list (list Tile);
  n_total_mines : Z
}.

(** A reference to a tile object: the cell of the grid that holds it. *)
Abbreviation Ref := (nat * nat)%type.

Definition deref (g : list (list Tile)) (r : Ref) : option Tile :=
  row ← g !! r.1; row !! r.2.

(** Mutation of the tile object behind [r]. *)
Definition mutate (f : Tile → Tile) (r : Ref) (g : list (list Tile))
  : list (list Tile) :=
  alter (alter f r.2) r.1 g.

Definition with_board (g : list (list Tile)) (b : MinesweeperBoard) :=
  mkBoard (size b) (difficulty b) g (n_total_mines b).
Definition with_n_total_mines (n : Z) (b : MinesweeperBoard) :=
  mkBoard (size b) (difficulty b) (board b) n.

Definition mutate_tile (f : Tile → Tile) (r : Ref) (b : MinesweeperBoard) :=
  with_board (mutate f r (board b)) b.

(** [board_init] *)
Definition board_init (size : Z) : list (list Tile) :=
  (λ i, (λ y, mkTile "empty" false i y 0) <$> Py.range size) <$> Py.range size.

(** [set_number_of_mines] *)
Definition set_number_of_mines (size : Z) (difficulty : string) : option Z :=
  d ← Py.dict_get DIFFICULTY_MAPPING difficulty;
  n ← Py.float_of_int (size * size);
  Py.int_of_float (Py.float_mul n d).

(** The dataclass constructor followed by [__post_init__]. *)
Definition new_board (size : Z) (difficulty : string) : option MinesweeperBoard :=
  n ← set_number_of_mines size difficulty;
  Some (mkBoard size difficulty (board_init size) n).

(** [get_tile]: the explicit guard lets [x = size] through, and the
    [IndexError] of the subscript is caught. *)
Definition get_tile (b : MinesweeperBoard) (x y : Z) : option Ref :=
  if (x <? 0) || (x >? size b) then None
  else if (y <? 0) || (y >? size b) then None
  else
    match
      (i ← Py.slot (length (board b)) x;
       row ← board b !! i;
       j ← Py.slot (length row) y;
       _ ← row !! j;
       Some (i, j))
    with
    | Some r => Some r
    | None => None
    end.

(** [populate_board_with_mines]; [rng k] is the value returned by the
    [k]-th call of [random.randint].  The order in which Python lists the
    elements of the set is not determined; the result does not depend on it
    (see [plant_mines_Permutation]). *)
Definition plant (b : MinesweeperBoard) (c : Z * Z) : option MinesweeperBoard :=
  tile ← get_tile b c.1 c.2;
  Some (mutate_tile (set_tile_type "mine") tile b).

Definition populate_board_with_mines (rng : nat → Z) (b : MinesweeperBoard)
  : option MinesweeperBoard :=
  let n := Z.to_nat (n_total_mines b) in
  mine_x_coords ← mapM (λ k, Py.randint 0 (size b - 1) (rng k)) (seq 0 n);
  mine_y_coords ← mapM (λ k, Py.randint 0 (size b - 1) (rng k)) (seq n n);
  let coords := remove_dups (zip mine_x_coords mine_y_coords) in
  let b := with_n_total_mines (Z.of_nat (length coords)) b in
  Py.for_each plant coords b.

(** [display_board]: the lines printed. *)
Definition display_board (b : MinesweeperBoard) : option (list string) :=
  let col_labels := (λ x, Py.ljust (Py.str x) 2) <$> Py.range (size b) in
  let col_labels := Py.join " " col_labels in
  let header := Py.tab +:+ " " +:+ col_labels in
  rows ← mapM (λ '(i, row),
                 row ← mapM (λ t, s ← Tile_repr t; Some (s +:+ " ")) row;
                 let row := (Py.str (Z.of_nat i) +:+ "|" +:+ Py.tab) :: row in
                 Some (Py.join " " row))
              (imap (λ i row, (i, row)) (board b));
  Some (header
        :: (Py.tab +:+ " " +:+ Py.repeat_char "-" (Z.to_nat (Py.len header - 2)))
        :: rows).

(** [check_if_mine]: the new board, the lines printed and the returned
    flag. *)
Definition reveal_all (g : list (list Tile)) : list (list Tile) :=
  (λ row : list Tile, set_revealed true <$> row) <$> g.

Definition check_if_mine (b : MinesweeperBoard) (tile : Ref)
  : option (MinesweeperBoard * list string * bool) :=
  t ← deref (board b) tile;
  if String.eqb (tile_type t) "mine" then
    let b := mutate_tile (set_revealed true) tile b in
    let msg := Py.str (x t) +:+ "," +:+ Py.str (y t) +:+ " is a mine! You lose!" in
    let b := with_board (reveal_all (board b)) b in
    out ← display_board b;
    Some (b, msg :: out, false)
  else Some (b, [], true).

(** [evaluate_tile].  The eight cells around [(x, y)], in the order of the
    source. *)
Definition neighbour_coords (x y : Z) : list (Z * Z) :=
  [(x - 1, y - 1); (x - 1, y); (x - 1, y + 1);
   (x, y - 1); (x, y + 1);
   (x + 1, y - 1); (x + 1, y); (x + 1, y + 1)].

Definition is_revealed (b : MinesweeperBoard) (r : Ref) : bool :=
  match deref (board b) r with Some t => revealed t | None => false end.

Definition is_mine (b : MinesweeperBoard) (r : Ref) : bool :=
  match deref (board b) r with
  | Some t => String.eqb (tile_type t) "mine"
  | None => false
  end.

(** The list [adjacent_tiles] after the comprehension that drops [None] and
    the tiles already revealed. *)
Definition adjacent_tiles (b : MinesweeperBoard) (x y : Z) : list Ref :=
  let adjacent_tiles := (λ c, get_tile b c.1 c.2) <$> neighbour_coords x y in
  filter (λ r, is_revealed b r = false) (omap id adjacent_tiles).

(** The loop that counts the mines of [adjacent_tiles]. *)
Definition count_mines (b : MinesweeperBoard) (adjacent_tiles : list Ref) : Z :=
  foldl (λ mine_counter t, if is_mine b t then mine_counter + 1 else mine_counter)
        0 adjacent_tiles.

(** The three assignments made to the evaluated tile. *)
Definition mark (mine_counter : Z) (t : Tile) : Tile :=
  set_n_adjacent_mines mine_counter (set_tile_type "empty" (set_revealed true t)).

(** The body of the final loop [for t in adjacent_tiles:
    self.evaluate_tile(t)], on the board and the invocations made so far. *)
Definition visit
    (evaluate_tile : MinesweeperBoard → Ref → option (MinesweeperBoard * list Ref))
    (s : MinesweeperBoard * list Ref) (t : Ref)
  : option (MinesweeperBoard * list Ref) :=
  '(b, calls) ← evaluate_tile s.1 t;
  Some (b, (s.2 ++ calls)%list).

(** [evaluate_tile depth b tile] runs the method with a call stack of at most
    [depth] frames and returns the board together with the tiles the method
    was invoked on, in the order of the invocations (the first is [tile]).
    The value the method returns ([False] or [None]) is never used. *)
Fixpoint evaluate_tile (depth : nat) (b : MinesweeperBoard) (tile : Ref)
  : option (MinesweeperBoard * list Ref) :=
  match depth with
  | O => None
  | S depth =>
      t ← deref (board b) tile;
      let adjacent_tiles := adjacent_tiles b (x t) (y t) in
      let mine_counter := count_mines b adjacent_tiles in
      if 0 <? mine_counter then
        Some (mutate_tile (mark mine_counter) tile b, [tile])
      else
        let b := mutate_tile (mark mine_counter) tile b in
        Py.for_each (visit (evaluate_tile depth)) adjacent_tiles (b, [tile])
  end.

(** One iteration of the [while] loop of [minesweeper] on the input
    [(x, y)]: the board, the new value of [keep_playing] and the tiles
    [evaluate_tile] was invoked on. *)
Definition turn (depth : nat) (b : MinesweeperBoard) (x y : Z)
  : option (MinesweeperBoard * bool * list Ref) :=
  _ ← display_board b;
  match get_tile b x y with
  | None => None
  | Some tile =>
      if is_revealed b tile then Some (b, true, [])
      else
        let b := mutate_tile (set_revealed true) tile b in
        '(b, _, keep_playing) ← check_if_mine b tile;
        '(b, calls) ← evaluate_tile depth b tile;
        Some (b, keep_playing, calls)
  end.

(** The [while keep_playing] loop, run on the inputs typed so far. *)
Fixpoint game_loop (depth : nat) (b : MinesweeperBoard) (inputs : list (Z * Z))
  : option (MinesweeperBoard * bool * list Ref) :=
  match inputs with
  | [] => Some (b, true, [])
  | (x, y) :: inputs =>
      '(b, keep_playing, calls) ← turn depth b x y;
      if keep_playing : bool then
        '(b, keep_playing, calls') ← game_loop depth b inputs;
        Some (b, keep_playing, (calls ++ calls')%list)
      else Some (b, false, calls)
  end.

(** [minesweeper] *)
Definition minesweeper (depth : nat) (size : Z) (difficulty : string)
    (rng : nat → Z) (inputs : list (Z * Z))
  : option (MinesweeperBoard * bool * list Ref) :=
  board ← new_board size difficulty;
  board ← populate_board_with_mines rng board;
  game_loop depth board inputs.

(** ** Well-formed boards

    The boards the program builds are square, every tile records the cell it
    sits in, and every [tile_type] is ['empty'] or ['mine']. *)

Definition shaped (b : MinesweeperBoard) : Prop :=
  0 ≤ size b ∧
  length (board b) = Z.to_nat (size b) ∧
  ∀ i row, board b !! i = Some row → length row = Z.to_nat (size b).

Definition coords_ok (b : MinesweeperBoard) : Prop :=
  ∀ r t, deref (board b) r = Some t → x t = Z.of_nat r.1 ∧ y t = Z.of_nat r.2.

Definition kinds_ok (b : MinesweeperBoard) : Prop :=
  ∀ r t, deref (board b) r = Some t →
         tile_type t = "empty" ∨ tile_type t = "mine".

Definition wf (b : MinesweeperBoard) : Prop :=
  shaped b ∧ coords_ok b ∧ kinds_ok b.

(** The cells of the grid. *)
Definition on_board (b : MinesweeperBoard) (r : Ref) : Prop :=
  (r.1 < Z.to_nat (size b))%nat ∧ (r.2 < Z.to_nat (size b))%nat.

(** The Python expression [self.board[x][y]]. *)
Definition tile_at (b : MinesweeperBoard) (x y : Z) : option Tile :=
  row ← Py.index (board b) x; Py.index row y.

(** The fields of the board other than the grid are the same. *)
Definition same_frame (b b' : MinesweeperBoard) : Prop :=
  size b' = size b ∧ difficulty b' = difficulty b
  ∧ n_total_mines b' = n_total_mines b.

(** ** The operations of the program, run in any order *)

Inductive operation : Type :=
| Populate (rng : nat → Z)
| GetTile (x y : Z)
| CheckMine (tile : Ref)
| Evaluate (tile : Ref)
| Display
| Turn (x y : Z).

(** The board an operation leaves when it returns. *)
Definition perform (depth : nat) (b : MinesweeperBoard) (op : operation)
  : option MinesweeperBoard :=
  match op with
  | Populate rng => populate_board_with_mines rng b
  | GetTile x y => let _ := get_tile b x y in Some b
  | CheckMine tile => '(b', _, _) ← check_if_mine b tile; Some b'
  | Evaluate tile => '(b', _) ← evaluate_tile depth b tile; Some b'
  | Display => _ ← display_board b; Some b
  | Turn x y => '(b', _, _) ← turn depth b x y; Some b'
  end.

(** What may happen to a tile: a revealed tile stays revealed, and the
    counter of a tile that is still hidden is untouched. *)
Definition tile_advances (t t' : Tile) : Prop :=
  (revealed t = true → revealed t' = true)
  ∧ (revealed t' = false → n_adjacent_mines t' = n_adjacent_mines t).

Definition advances (b b' : MinesweeperBoard) : Prop :=
  ∀ r, match deref (board b) r, deref (board b') r with
       | Some t, Some t' => tile_advances t t'
       | None, None => True
       | _, _ => False
       end.

(** Hidden tiles carry no number. *)
Definition hidden_unnumbered (b : MinesweeperBoard) : Prop :=
  ∀ r t, deref (board b) r = Some t → revealed t = false →
         n_adjacent_mines t = 0.

(** ** The evaluation of a tile as a derivation

    [Evaluates b tile b' calls]: a call [evaluate_tile(tile)] on the board
    [b] returns with the board [b'] after the invocations [calls];
    [EvaluatesAll] is the final loop over the collected neighbours. *)

Inductive Evaluates
  : MinesweeperBoard → Ref → MinesweeperBoard → list Ref → Prop :=
| Ev_stop b tile t :
    deref (board b) tile = Some t →
    let c := count_mines b (adjacent_tiles b (x t) (y t)) in
    0 < c →
    Evaluates b tile (mutate_tile (mark c) tile b) [tile]
| Ev_spread b tile t b' calls :
    deref (board b) tile = Some t →
    let c := count_mines b (adjacent_tiles b (x t) (y t)) in
    ¬ 0 < c →
    EvaluatesAll (mutate_tile (mark c) tile b)
                 (adjacent_tiles b (x t) (y t)) b' calls →
    Evaluates b tile b' (tile :: calls)
with EvaluatesAll
  : MinesweeperBoard → list Ref → MinesweeperBoard → list Ref → Prop :=
| EvAll_nil b : EvaluatesAll b [] b []
| EvAll_cons b t l b1 calls1 b2 calls2 :
    Evaluates b t b1 calls1 →
    EvaluatesAll b1 l b2 calls2 →
    EvaluatesAll b (t :: l) b2 (calls1 ++ calls2).

Scheme Evaluates_mut := Induction for Evaluates Sort Prop
  with EvaluatesAll_mut := Induction for EvaluatesAll Sort Prop.
Combined Scheme Evaluates_mutind from Evaluates_mut, EvaluatesAll_mut.

(** [recurses depth l (b, calls) (b', calls')]: the final loop of
    [evaluate_tile] over the tiles [l]: the method is invoked on each tile of
    [l] in turn, with [depth] frames left, on the board the invocation
    before it has left; [calls'] extends [calls] by the invocations made. *)
Inductive recurses (depth : nat)
  : list Ref → MinesweeperBoard * list Ref → MinesweeperBoard * list Ref → Prop :=
| recurses_nil s : recurses depth [] s s
| recurses_cons r l b calls b1 calls1 s' :
    evaluate_tile depth b r = Some (b1, calls1) →
    recurses depth l (b1, (calls ++ calls1)%list) s' →
    recurses depth (r :: l) (b, calls) s'.

(** ** The notions of the flood fill *)

(** Two distinct cells that touch by a side or by a corner. *)
Definition neighbour (r r' : Ref) : Prop :=
  r ≠ r'
  ∧ (r.1 ≤ r'.1 + 1 ∧ r'.1 ≤ r.1 + 1 ∧ r.2 ≤ r'.2 + 1 ∧ r'.2 ≤ r.2 + 1)%nat.

(** A tile with zero adjacent mines. *)
Definition no_mine_around (b : MinesweeperBoard) (r : Ref) : Prop :=
  ∀ r', neighbour r r' → is_mine b r' = false.

(** The connected zero-adjacency region of [r]. *)
Inductive region (b : MinesweeperBoard) (r : Ref) : Ref → Prop :=
| region_start : no_mine_around b r → region b r r
| region_step z q :
    region b r z → neighbour z q → on_board b q → no_mine_around b q →
    region b r q.

(** The ring of numbered tiles around the region. *)
Definition ring (b : MinesweeperBoard) (r q : Ref) : Prop :=
  ¬ no_mine_around b q ∧ on_board b q ∧ ∃ z, region b r z ∧ neighbour z q.

(** No mine has been revealed: the state of a game that is not lost. *)
Definition no_revealed_mine (b : MinesweeperBoard) : Prop :=
  ∀ r, is_mine b r = true → is_revealed b r = false.

(** Every revealed tile with zero adjacent mines, other than [r], has all
    its neighbours revealed: what earlier flood fills leave behind. *)
Definition zeros_closed (b : MinesweeperBoard) (r : Ref) : Prop :=
  ∀ z q, z ≠ r → is_revealed b z = true → no_mine_around b z →
         neighbour z q → on_board b q → is_revealed b q = true.

(** Between [b] and [b'] only the tiles of [calls] were written, each by
    the three assignments of [evaluate_tile]. *)
Definition marked_only (calls : list Ref) (b b' : MinesweeperBoard) : Prop :=
  same_frame b b' ∧ (shaped b → shaped b')
  ∧ ∀ r, if decide (r ∈ calls)
         then ∃ c, deref (board b') r = mark c <$> deref (board b) r
         else deref (board b') r = deref (board b) r.

(** The states of a game that is not lost: the board is well formed, no
    mine is revealed and every revealed tile with zero adjacent mines has all
    its neighbours revealed. *)
Definition in_play (b : MinesweeperBoard) : Prop :=
  wf b ∧ no_revealed_mine b
  ∧ ∀ z q, is_revealed b z = true → no_mine_around b z →
           neighbour z q → on_board b q → is_revealed b q = true.

(** [spreads b r q]: the fill started at [r] reaches [q], by steps that
    leave tiles with zero adjacent mines. *)
Inductive spreads (b : MinesweeperBoard) : Ref → Ref → Prop :=
| spreads_here r : spreads b r r
| spreads_step r t q :
    no_mine_around b r → neighbour r t → on_board b t → spreads b t q →
    spreads b r q.

(** The cells that can be neighbours of [r]. *)
Definition around (r : Ref) : list Ref :=
  cprod [pred r.1; r.1; S r.1] [pred r.2; r.2; S r.2].

(** The state in which a tile that is not a mine is evaluated. *)
Definition playable (b : MinesweeperBoard) (tile : Ref) : Prop :=
  wf b ∧ no_revealed_mine b ∧ on_board b tile ∧ is_mine b tile = false.

Definition playable_all (b : MinesweeperBoard) (l : list Ref) : Prop :=
  wf b ∧ no_revealed_mine b ∧ ∀ t, t ∈ l → on_board b t ∧ is_mine b t = false.

(** ** The target of the mine placement *)

(** A float that is not negative. *)
Definition sf_nonneg (f : spec_float) : Prop :=
  match f with
  | S754_finite s _ _ | S754_infinity s => s = false
  | S754_zero _ | S754_nan => True
  end.

(** The pairs zipped from the two lists of draws. *)
Definition samples (rng : nat → Z) (n : nat) : list (Z * Z) :=
  zip (rng <$> seq 0 n) (rng <$> seq n n).

(** The densities of the difficulty table, in tenths. *)
Definition density_tenths : list (string * Z) :=
  [("easy", 1); ("medium", 2); ("hard", 3); ("insane", 5)].

Definition target_is_floor (size : Z) : bool :=
  forallb (λ '(d, k),
             match set_number_of_mines size d with
             | Some n => n =? size * size * k / 10
             | None => false
             end)
          density_tenths.

(** ** The measure of the recursion *)

(** The cells of the board. *)
Definition cells (b : MinesweeperBoard) : list Ref :=
  cprod (seq 0 (Z.to_nat (size b))) (seq 0 (Z.to_nat (size b))).

(** The number of tiles other than [tile] that are still hidden. *)
Definition hidden_besides (b : MinesweeperBoard) (tile : Ref) : nat :=
  length (filter (λ r, r ≠ tile ∧ is_revealed b r = false) (cells b)).

(** ** Sample boards

    A 4×4 board on ['easy'] whose single mine is drawn at (1, 1), the same
    board after the player has selected (3, 3), and a 2×2 board on ['easy'],
    which has no mine. *)

Definition sample_rng : nat → Z := λ _, 1.

Definition sample_new : MinesweeperBoard := Eval vm_compute in
    default (mkBoard 0 EmptyString [] 0) (new_board 4 "easy").

Definition sample_board : MinesweeperBoard := Eval vm_compute in
    default sample_new (populate_board_with_mines sample_rng sample_new).

Definition sample_played : MinesweeperBoard := Eval vm_compute in
    default sample_board (perform 16 sample_board (Turn 3 3)).

Definition small_board : MinesweeperBoard := Eval vm_compute in
    default (mkBoard 0 EmptyString [] 0)
            (new_board 2 "easy" ≫= populate_board_with_mines sample_rng).

Definition sample_continued : MinesweeperBoard := Eval vm_compute in
    default sample_played
            (Py.for_each (perform 16) [Turn 0 0; Display; GetTile 9 9]
                         sample_played).

(** ** Further notions: counts, numbers shown, tiles still hidden *)

(** [l] lists, without repetition, the mines adjacent to [r]. *)
Definition mine_neighbours (b : MinesweeperBoard) (r : Ref) (l : list Ref)
  : Prop :=
  NoDup l ∧ ∀ q, q ∈ l ↔ neighbour r q ∧ is_mine b q = true.

(** The tile at [r], when revealed, carries the number of mines adjacent to
    it. *)
Definition shows_count (b : MinesweeperBoard) (r : Ref) : Prop :=
  ∀ t l, deref (board b) r = Some t → revealed t = true →
         mine_neighbours b r l → n_adjacent_mines t = Z.of_nat (length l).

(** The number of tiles still hidden. *)
Definition hidden (b : MinesweeperBoard) : nat :=
  length (filter (λ r, is_revealed b r = false) (cells b)).

(** The cells that hold a mine. *)
Definition mine_cells (b : MinesweeperBoard) : list Ref :=
  filter (λ r, is_mine b r = true) (cells b).

(** The integer coordinates of a cell. *)
Definition coords_of (r : Ref) : Z * Z := (Z.of_nat r.1, Z.of_nat r.2).

(** Every tile of the grid is revealed. *)
Definition all_revealed (b : MinesweeperBoard) : Prop :=
  ∀ r t, deref (board b) r = Some t → revealed t = true.

(** The states of a game that is not lost, in which every revealed tile
    also carries the number of mines adjacent to it. *)
Definition settled (b : MinesweeperBoard) : Prop :=
  in_play b ∧ ∀ r, shows_count b r.

(** The states a flood fill goes through: the board is well formed, no
    mine is revealed and every revealed tile carries the number of mines
    adjacent to it.  (A tile with zero adjacent mines may still have hidden
    neighbours: the fill has not reached them yet.) *)
Definition counted (b : MinesweeperBoard) : Prop :=
  wf b ∧ no_revealed_mine b ∧ ∀ r, shows_count b r.

(** [invoked_within b tile b' q]: while [evaluate_tile(tile)] runs on the
    board [b], the method is invoked on [q] when the board is [b'], either by
    the final loop of that call, after it has gone through the collected
    tiles before [q], or by a call nested in it. *)
Inductive invoked_within
  : MinesweeperBoard → Ref → MinesweeperBoard → Ref → Prop :=
| invoked_by_loop depth b tile t pre q post s' :
    deref (board b) tile = Some t →
    ¬ 0 < count_mines b (adjacent_tiles b (x t) (y t)) →
    adjacent_tiles b (x t) (y t) = (pre ++ q :: post)%list →
    recurses depth pre
             (mutate_tile
                (mark (count_mines b (adjacent_tiles b (x t) (y t)))) tile b,
              [tile])
             s' →
    invoked_within b tile s'.1 q
| invoked_nested b tile b1 q b2 r :
    invoked_within b tile b1 q → invoked_within b1 q b2 r →
    invoked_within b tile b2 r.

(** The invocations of [evaluate_tile] in the sample game, when the player
    selects (3, 3). *)
Definition sample_calls : list Ref := Eval vm_compute in
    match game_loop 16 sample_board [(3, 3)] with
    | Some (_, _, calls) => calls
    | None => []
    end.

(** The end of the sample game, when the player selects (3, 3), then the
    mine at (1, 1); a third selection is typed but never read. *)
Definition sample_lost : MinesweeperBoard * list Ref := Eval vm_compute in
    match game_loop 16 sample_board [(3, 3); (1, 1); (0, 0)] with
    | Some (b, _, calls) => (b, calls)
    | None => (sample_board, [])
    end.

(** The 2×2 board in the middle of the fill started at (0, 0): the call
    on (0, 1) has evaluated (1, 0), which has revealed (1, 1), and is about
    to evaluate (1, 1) again. *)
Definition small_midfill : MinesweeperBoard := Eval vm_compute in
    let b0 := mutate_tile (set_revealed true) (0, 0)%nat small_board in
    let b1 := mutate_tile (mark 0) (0, 0)%nat b0 in
    let b2 := mutate_tile (mark 0) (0, 1)%nat b1 in
    match evaluate_tile 4 b2 (1, 0)%nat with
    | Some (b3, _) => b3
    | None => b2
    end.

(** Whether the first tile of a list is still hidden (1) or not (0). *)
Definition head_hidden (b : MinesweeperBoard) (l : list Ref) : nat :=
  match l with
  | t :: _ => if is_revealed b t then 0 else 1
  | [] => 0
  end.

(** The keys of [DIFFICULTY_MAPPING]. *)
Definition difficulties : list string := (DIFFICULTY_MAPPING).*1.

(** * Properties *)

(** ** Basic facts about references *)

Lemma deref_mutate f r r' g :
  deref (mutate f r g) r' =
  if decide (r = r') then f <$> deref g r else deref g r'.
Proof.
  destruct r as [i j], r' as [i' j']. unfold deref, mutate. simpl.
  destruct (decide (i = i')) as [->|Hi].
  - rewrite list_lookup_alter_eq. destruct (g !! i') as [row|] eqn:E; simpl.
    + destruct (decide (j = j')) as [->|Hj].
      * rewrite decide_True by done. by rewrite list_lookup_alter_eq.
      * rewrite decide_False by congruence. by rewrite list_lookup_alter_ne.
    + by case_decide.
  - rewrite decide_False by congruence. by rewrite list_lookup_alter_ne.
Qed.

Lemma deref_mutate_eq f r g : deref (mutate f r g) r = f <$> deref g r.
Proof. rewrite deref_mutate. by rewrite decide_True. Qed.

Lemma deref_mutate_ne f r r' g : r ≠ r' → deref (mutate f r g) r' = deref g r'.
Proof. intros. rewrite deref_mutate. by rewrite decide_False. Qed.

Lemma mutate_length f r g : length (mutate f r g) = length g.
Proof. unfold mutate. by rewrite length_alter. Qed.

Lemma mutate_row f r g i row :
  mutate f r g !! i = Some row →
  ∃ row0, g !! i = Some row0 ∧ length row = length row0.
Proof.
  unfold mutate. destruct (decide (r.1 = i)) as [<-|Hne].
  - rewrite list_lookup_alter_eq. destruct (g !! r.1) as [row0|]; [|done].
    simpl. intros [= <-]. exists row0. by rewrite length_alter.
  - rewrite list_lookup_alter_ne by done. eauto.
Qed.

Lemma shaped_deref b r :
  shaped b → is_Some (deref (board b) r) ↔ on_board b r.
Proof.
  intros (Hs & Hl & Hrow). unfold deref, on_board. split.
  - intros [t Ht]. destruct (board b !! r.1) as [row|] eqn:E; [|done].
    simpl in Ht. apply lookup_lt_Some in E as Hi. apply lookup_lt_Some in Ht.
    rewrite (Hrow _ _ E) in Ht. lia.
  - intros [Hi Hj]. rewrite <- Hl in Hi.
    apply lookup_lt_is_Some_2 in Hi as [row E]. rewrite E. simpl.
    apply lookup_lt_is_Some_2. by rewrite (Hrow _ _ E).
Qed.

Lemma shaped_mutate f r b : shaped b → shaped (mutate_tile f r b).
Proof.
  intros (Hs & Hl & Hrow). repeat split; simpl; [done| |].
  - by rewrite mutate_length.
  - intros i row Hi. apply mutate_row in Hi as (row0 & E & ->). eauto.
Qed.

Lemma coords_ok_mutate f r b :
  (∀ t, x (f t) = x t ∧ y (f t) = y t) →
  coords_ok b → coords_ok (mutate_tile f r b).
Proof.
  intros Hf Hc r' t. simpl. rewrite deref_mutate. case_decide as E.
  - subst r'. destruct (deref (board b) r) as [t0|] eqn:E0; [|done].
    simpl. intros [= <-]. destruct (Hf t0) as [-> ->]. eauto.
  - eauto.
Qed.

Lemma kinds_ok_mutate f r b :
  (∀ t, tile_type (f t) = tile_type t ∨ tile_type (f t) = "empty"
        ∨ tile_type (f t) = "mine") →
  kinds_ok b → kinds_ok (mutate_tile f r b).
Proof.
  intros Hf Hk r' t. simpl. rewrite deref_mutate. case_decide as E.
  - subst r'. destruct (deref (board b) r) as [t0|] eqn:E0; [|done].
    simpl. intros [= <-]. destruct (Hf t0) as [-> | [-> | ->]]; eauto.
  - eauto.
Qed.

Lemma wf_mutate f r b :
  (∀ t, x (f t) = x t ∧ y (f t) = y t) →
  (∀ t, tile_type (f t) = tile_type t ∨ tile_type (f t) = "empty"
        ∨ tile_type (f t) = "mine") →
  wf b → wf (mutate_tile f r b).
Proof.
  intros Hxy Hk (Hs & Hc & Hkd).
  split; [|split]; eauto using shaped_mutate, coords_ok_mutate, kinds_ok_mutate.
Qed.

(** ** [get_tile] on a square board *)

Lemma slot_in_range len i :
  0 ≤ i < Z.of_nat len → Py.slot len i = Some (Z.to_nat i).
Proof.
  intros H. unfold Py.slot.
  destruct (Z.ltb_spec i 0); [lia|]. destruct (Z.ltb_spec i (Z.of_nat len)); [done|lia].
Qed.

Lemma slot_past_end len i : Z.of_nat len ≤ i → Py.slot len i = None.
Proof.
  intros H. unfold Py.slot.
  destruct (Z.ltb_spec i 0); [lia|]. destruct (Z.ltb_spec i (Z.of_nat len)); [lia|done].
Qed.

Lemma get_tile_inside b x y :
  shaped b → 0 ≤ x < size b → 0 ≤ y < size b →
  get_tile b x y = Some (Z.to_nat x, Z.to_nat y).
Proof.
  intros Hsh Hx Hy. pose proof Hsh as (Hs & Hl & Hrow). unfold get_tile.
  destruct (Z.ltb_spec x 0); [lia|]. destruct (Z.gtb_spec x (size b)); [lia|].
  destruct (Z.ltb_spec y 0); [lia|]. destruct (Z.gtb_spec y (size b)); [lia|].
  simpl. rewrite slot_in_range by lia. simpl.
  assert (Hi : (Z.to_nat x < length (board b))%nat) by lia.
  apply lookup_lt_is_Some_2 in Hi as [row E]. rewrite E. simpl.
  pose proof (Hrow _ _ E) as Hlen.
  rewrite slot_in_range by lia. simpl.
  assert (Hj : (Z.to_nat y < length row)%nat) by lia.
  apply lookup_lt_is_Some_2 in Hj as [t Et]. by rewrite Et.
Qed.

Lemma get_tile_outside b x y :
  shaped b → ¬ (0 ≤ x < size b ∧ 0 ≤ y < size b) → get_tile b x y = None.
Proof.
  intros Hsh Hout. pose proof Hsh as (Hs & Hl & Hrow). unfold get_tile.
  destruct (Z.ltb_spec x 0); [done|]. destruct (Z.gtb_spec x (size b)); [done|].
  destruct (Z.ltb_spec y 0); [done|]. destruct (Z.gtb_spec y (size b)); [done|].
  simpl. destruct (decide (x = size b)) as [Hx|Hx].
  - rewrite slot_past_end by lia. done.
  - rewrite slot_in_range by lia. simpl.
    destruct (board b !! Z.to_nat x) as [row|] eqn:E; [|done]. simpl.
    pose proof (Hrow _ _ E) as Hlen.
    rewrite slot_past_end by lia. done.
Qed.

Lemma get_tile_Some b x y r :
  shaped b →
  get_tile b x y = Some r ↔
  0 ≤ x < size b ∧ 0 ≤ y < size b ∧ r = (Z.to_nat x, Z.to_nat y).
Proof.
  intros Hsh. split.
  - intros H. destruct (decide (0 ≤ x < size b ∧ 0 ≤ y < size b)) as [[Hx Hy]|Hn].
    + rewrite get_tile_inside in H by done. by injection H as <-.
    + rewrite get_tile_outside in H by done. done.
  - intros (Hx & Hy & ->). by apply get_tile_inside.
Qed.

Lemma get_tile_mutate f r b x y :
  shaped b → get_tile (mutate_tile f r b) x y = get_tile b x y.
Proof.
  intros Hsh. destruct (decide (0 ≤ x < size b ∧ 0 ≤ y < size b)) as [[Hx Hy]|Hn].
  - rewrite !get_tile_inside; auto using shaped_mutate.
  - rewrite !get_tile_outside; auto using shaped_mutate.
Qed.

Lemma tile_at_inside b x y :
  shaped b → 0 ≤ x < size b → 0 ≤ y < size b →
  tile_at b x y = deref (board b) (Z.to_nat x, Z.to_nat y).
Proof.
  intros (Hs & Hl & Hrow) Hx Hy. unfold tile_at, deref, Py.index. simpl.
  rewrite slot_in_range by lia. simpl.
  destruct (board b !! Z.to_nat x) as [row|] eqn:E; [|done]. simpl.
  rewrite (Hrow _ _ E). rewrite slot_in_range by lia. done.
Qed.

(** C5: on a square board of size N, [get_tile] returns the tile stored at
    [self.board[x][y]] when both coordinates lie in [0, N-1], and the absent
    result [None] for every other pair of integers; it never raises (the
    [IndexError] of the subscript is caught inside the method). *)
Theorem get_tile_in_range_or_absent b x y :
  shaped b →
  (0 ≤ x ≤ size b - 1 ∧ 0 ≤ y ≤ size b - 1 →
   ∃ r t, get_tile b x y = Some r ∧ deref (board b) r = Some t
          ∧ tile_at b x y = Some t)
  ∧ (¬ (0 ≤ x ≤ size b - 1 ∧ 0 ≤ y ≤ size b - 1) → get_tile b x y = None).
Proof.
  intros Hsh. split.
  - intros [Hx Hy]. exists (Z.to_nat x, Z.to_nat y).
    assert (Hon : on_board b (Z.to_nat x, Z.to_nat y)).
    { destruct Hsh as (Hs & _). unfold on_board. simpl. lia. }
    apply (shaped_deref _ _ Hsh) in Hon as [t Ht]. exists t.
    rewrite get_tile_inside, tile_at_inside by (done || lia). done.
  - intros Hout. apply get_tile_outside; [done|]. lia.
Qed.

(** ** Fresh boards *)

Lemma range_lookup n i :
  Py.range n !! i = if decide (i < Z.to_nat n)%nat then Some (Z.of_nat i) else None.
Proof.
  unfold Py.range. rewrite list_lookup_fmap. case_decide as H.
  - by rewrite lookup_seq_lt.
  - by rewrite lookup_seq_ge by lia.
Qed.

Lemma range_length n : length (Py.range n) = Z.to_nat n.
Proof. unfold Py.range. by rewrite length_fmap, length_seq. Qed.

Lemma board_init_deref n r :
  deref (board_init n) r =
  if decide ((r.1 < Z.to_nat n)%nat ∧ (r.2 < Z.to_nat n)%nat)
  then Some (mkTile "empty" false (Z.of_nat r.1) (Z.of_nat r.2) 0)
  else None.
Proof.
  unfold deref, board_init. rewrite list_lookup_fmap, range_lookup.
  destruct (decide (r.1 < Z.to_nat n)%nat) as [H1|H1]; simpl.
  - rewrite list_lookup_fmap, range_lookup.
    destruct (decide (r.2 < Z.to_nat n)%nat) as [H2|H2]; simpl.
    + by rewrite decide_True.
    + rewrite decide_False; [done|]. tauto.
  - rewrite decide_False; [done|]. tauto.
Qed.

Lemma wf_board_init n d k : 0 ≤ n → wf (mkBoard n d (board_init n) k).
Proof.
  intros Hn. split; [|split].
  - split; [done|]. simpl. split.
    + unfold board_init. by rewrite length_fmap, range_length.
    + intros i row. unfold board_init. rewrite list_lookup_fmap.
      destruct (Py.range n !! i); [|done]. simpl. intros [= <-].
      by rewrite length_fmap, range_length.
  - intros r t. simpl. rewrite board_init_deref. case_decide; [|done].
    by intros [= <-].
  - intros r t. simpl. rewrite board_init_deref. case_decide; [|done].
    intros [= <-]. by left.
Qed.

Lemma new_board_wf n d b : 0 ≤ n → new_board n d = Some b → wf b.
Proof.
  intros Hn. unfold new_board.
  destruct (set_number_of_mines n d); [|done]. simpl. intros [= <-].
  by apply wf_board_init.
Qed.

(** ** Rendering never fails on a well-formed board *)

Lemma Tile_repr_is_Some t :
  tile_type t = "empty" ∨ tile_type t = "mine" → is_Some (Tile_repr t).
Proof.
  intros H. unfold Tile_repr. destruct (0 <? n_adjacent_mines t); [by eexists|].
  destruct (revealed t); [|by eexists]. destruct H as [-> | ->]; by eexists.
Qed.

Lemma display_board_is_Some b : kinds_ok b → is_Some (display_board b).
Proof.
  intros Hk. unfold display_board.
  match goal with |- is_Some (mbind _ ?m) => assert (Hm : is_Some m) end.
  { apply mapM_is_Some, Forall_forall. intros [i row] Hin.
    apply elem_of_lookup_imap_1 in Hin as (i' & row' & [= -> ->] & Hrow).
    simpl.
    match goal with |- is_Some (mbind _ ?m) => assert (Hr : is_Some m) end.
    { apply mapM_is_Some, Forall_forall. intros t Ht. simpl.
      apply list_elem_of_lookup in Ht as [j Hj].
      destruct (Tile_repr_is_Some t) as [s ->]; [|by eexists].
      apply (Hk (i', j)). unfold deref. simpl. by rewrite Hrow. }
    destruct Hr as [? ->]. by eexists. }
  destruct Hm as [? ->]. by eexists.
Qed.

(** ** [check_if_mine] *)

Lemma deref_reveal_all g r :
  deref (reveal_all g) r = set_revealed true <$> deref g r.
Proof.
  unfold deref, reveal_all. rewrite list_lookup_fmap.
  destruct (g !! r.1) as [row|]; [|done]. simpl. by rewrite list_lookup_fmap.
Qed.

Lemma reveal_all_Forall g :
  Forall (Forall (λ t, revealed t = true)) (reveal_all g).
Proof.
  unfold reveal_all. apply Forall_fmap, Forall_true. intros row. simpl.
  apply Forall_fmap, Forall_true. done.
Qed.

Lemma kinds_ok_reveal_all b :
  kinds_ok b → kinds_ok (with_board (reveal_all (board b)) b).
Proof.
  intros Hk r t. simpl. rewrite deref_reveal_all.
  destruct (deref (board b) r) as [t0|] eqn:E; [|done]. simpl.
  intros [= <-]. simpl. eauto.
Qed.

(** C6: [check_if_mine] returns [False] exactly when the tile's type is
    ['mine']; in that case every tile of the grid is revealed afterwards: the
    grid has the same cells as before, each holding the tile it held with
    [revealed] set to true and nothing else changed, and the message and the
    rendering of that grid are printed; for any other tile it returns [True],
    prints nothing and leaves the board as it was. *)
Theorem check_if_mine_spec b tile t :
  kinds_ok b → deref (board b) tile = Some t →
  ∃ b' out ok,
    check_if_mine b tile = Some (b', out, ok)
    ∧ (ok = false ↔ tile_type t = "mine")
    ∧ (ok = false →
       Forall (Forall (λ t', revealed t' = true)) (board b')
       ∧ length (board b') = length (board b)
       ∧ (∀ r, deref (board b') r = set_revealed true <$> deref (board b) r)
       ∧ size b' = size b ∧ difficulty b' = difficulty b
       ∧ n_total_mines b' = n_total_mines b
       ∧ ∃ rest,
           out = (Py.str (x t) +:+ "," +:+ Py.str (y t)
                  +:+ " is a mine! You lose!") :: rest
           ∧ display_board b' = Some rest)
    ∧ (tile_type t ≠ "mine" → ok = true ∧ b' = b ∧ out = []).
Proof.
  intros Hk Ht. unfold check_if_mine. rewrite Ht. simpl.
  destruct (String.eqb_spec (tile_type t) "mine") as [Hm|Hm].
  - match goal with |- context [display_board ?b1] =>
      destruct (display_board_is_Some b1) as [out Hout] end.
    { apply kinds_ok_reveal_all, kinds_ok_mutate; [|done]. intros ?. by left. }
    rewrite Hout. simpl. eexists _, _, false. split; [done|].
    split; [done|]. split; [|done]. intros _. simpl.
    split; [apply reveal_all_Forall|].
    split; [unfold reveal_all; by rewrite length_fmap, mutate_length|].
    split; [|split; [done|split; [done|split; [done|by exists out]]]].
    intros r. rewrite deref_reveal_all, deref_mutate.
    case_decide as E; [subst r|done].
    by destruct (deref (board b) tile).
  - eexists b, [], true. split; [done|]. split; [|done].
    split; [done|]. intros ?. done.
Qed.

(** ** [evaluate_tile]: the function and its derivations *)

Lemma evaluate_tile_S depth b tile :
  evaluate_tile (S depth) b tile =
  t ← deref (board b) tile;
  let l := adjacent_tiles b (x t) (y t) in
  let c := count_mines b l in
  if 0 <? c then Some (mutate_tile (mark c) tile b, [tile])
  else Py.for_each (visit (evaluate_tile depth)) l
                   (mutate_tile (mark c) tile b, [tile]).
Proof. reflexivity. Qed.

Lemma for_each_cons {S A} (body : S → A → option S) a l s :
  Py.for_each body (a :: l) s = s' ← body s a; Py.for_each body l s'.
Proof. reflexivity. Qed.

Lemma visit_Some ev s t b' out :
  visit ev s t = Some (b', out) ↔
  ∃ calls, ev s.1 t = Some (b', calls) ∧ out = (s.2 ++ calls)%list.
Proof.
  unfold visit. destruct (ev s.1 t) as [[b1 calls1]|]; simpl.
  - split; [intros [= <- <-]; eauto|]. by intros (calls & [= <- <-] & ->).
  - split; [done|]. by intros (? & ? & _).
Qed.

Lemma visit_all_sound ev :
  (∀ b t b' calls, ev b t = Some (b', calls) → Evaluates b t b' calls) →
  ∀ l b acc b' out,
    Py.for_each (visit ev) l (b, acc) = Some (b', out) →
    ∃ calls, out = (acc ++ calls)%list ∧ EvaluatesAll b l b' calls.
Proof.
  intros Hev. induction l as [|t l IH]; intros b acc b' out.
  - intros [= <- <-]. exists []. split; [by rewrite app_nil_r|constructor].
  - rewrite for_each_cons.
    destruct (visit ev (b, acc) t) as [[b1 out1]|] eqn:E; [|done]. simpl.
    apply visit_Some in E as (calls1 & E & ->). simpl in E.
    intros H. apply IH in H as (calls2 & -> & Hall).
    exists (calls1 ++ calls2)%list. split; [by rewrite app_assoc|].
    econstructor; eauto.
Qed.

Lemma evaluate_tile_sound depth :
  ∀ b tile b' calls,
    evaluate_tile depth b tile = Some (b', calls) → Evaluates b tile b' calls.
Proof.
  induction depth as [|depth IH]; intros b tile b' calls; [done|].
  rewrite evaluate_tile_S.
  destruct (deref (board b) tile) as [t|] eqn:Ht; [|done]. simpl.
  destruct (Z.ltb_spec 0 (count_mines b (adjacent_tiles b (x t) (y t)))) as [Hc|Hc].
  - intros [= <- <-]. by eapply Ev_stop.
  - intros H. apply (visit_all_sound _ IH) in H as (calls' & -> & Hall).
    simpl. eapply Ev_spread; eauto. lia.
Qed.

Lemma visit_all_mono (ev ev' : MinesweeperBoard → Ref → option _) :
  (∀ b t res, ev b t = Some res → ev' b t = Some res) →
  ∀ l s res,
    Py.for_each (visit ev) l s = Some res →
    Py.for_each (visit ev') l s = Some res.
Proof.
  intros Hev. induction l as [|t l IH]; intros s res; [done|].
  rewrite !for_each_cons.
  destruct (visit ev s t) as [[b1 out1]|] eqn:E; [|done]. simpl.
  apply visit_Some in E as (calls1 & E & ->).
  assert (E' : visit ev' s t = Some (b1, (s.2 ++ calls1)%list)).
  { apply visit_Some. eauto. }
  rewrite E'. simpl. apply IH.
Qed.

Lemma evaluate_tile_mono depth depth' b tile res :
  (depth ≤ depth')%nat →
  evaluate_tile depth b tile = Some res →
  evaluate_tile depth' b tile = Some res.
Proof.
  revert depth' b tile res.
  induction depth as [|depth IH]; intros depth' b tile res Hle; [done|].
  destruct depth' as [|depth']; [lia|]. rewrite !evaluate_tile_S.
  destruct (deref (board b) tile) as [t|]; [|done]. simpl.
  destruct (0 <? _); [done|].
  apply visit_all_mono. intros ???. apply IH. lia.
Qed.

Lemma Evaluates_complete :
  (∀ b tile b' calls,
     Evaluates b tile b' calls →
     ∃ depth, evaluate_tile depth b tile = Some (b', calls))
  ∧ (∀ b l b' calls,
       EvaluatesAll b l b' calls →
       ∃ depth, ∀ acc,
         Py.for_each (visit (evaluate_tile depth)) l (b, acc)
         = Some (b', (acc ++ calls)%list)).
Proof.
  apply Evaluates_mutind.
  - intros b tile t Ht c Hc. exists 1%nat. rewrite evaluate_tile_S, Ht. simpl.
    fold c. destruct (Z.ltb_spec 0 c); [done|lia].
  - intros b tile t b' calls Ht c Hc _ [depth IH]. exists (S depth).
    rewrite evaluate_tile_S, Ht. simpl. fold c.
    destruct (Z.ltb_spec 0 c); [lia|]. apply IH.
  - intros b. exists 0%nat. intros acc. simpl. by rewrite app_nil_r.
  - intros b t l b1 calls1 b2 calls2 _ [d1 IH1] _ [d2 IH2].
    exists (d1 `max` d2)%nat. intros acc. rewrite for_each_cons.
    assert (E : visit (evaluate_tile (d1 `max` d2)) (b, acc) t
                = Some (b1, (acc ++ calls1)%list)).
    { apply visit_Some. exists calls1. split; [|done]. simpl.
      apply (evaluate_tile_mono d1); [lia|done]. }
    rewrite E. simpl. rewrite app_assoc.
    apply (visit_all_mono (evaluate_tile d2)); [|apply IH2].
    intros ???. apply evaluate_tile_mono. lia.
Qed.

(** ** What an evaluation writes *)

Lemma marked_only_refl b : marked_only [] b b.
Proof.
  split; [done|]. split; [done|]. intros r. rewrite decide_False; [done|].
  apply not_elem_of_nil.
Qed.

Lemma marked_only_mutate c r b : marked_only [r] b (mutate_tile (mark c) r b).
Proof.
  split; [done|]. split; [apply shaped_mutate|]. intros r'. simpl.
  rewrite deref_mutate. destruct (decide (r = r')) as [->|Hne].
  - rewrite decide_True by apply list_elem_of_here. eauto.
  - rewrite decide_False; [done|]. rewrite list_elem_of_singleton. congruence.
Qed.

Lemma marked_only_app l1 l2 b b1 b2 :
  marked_only l1 b b1 → marked_only l2 b1 b2 → marked_only (l1 ++ l2) b b2.
Proof.
  intros ((S1 & D1 & N1) & Sh1 & H1) ((S2 & D2 & N2) & Sh2 & H2).
  split; [repeat split; congruence|]. split; [auto|]. intros r.
  specialize (H1 r). specialize (H2 r).
  destruct (decide (r ∈ l1)) as [I1|I1], (decide (r ∈ l2)) as [I2|I2].
  - rewrite decide_True by (apply elem_of_app; auto).
    destruct H1 as [c1 H1], H2 as [c2 H2]. exists c2. rewrite H2, H1.
    by destruct (deref (board b) r).
  - rewrite decide_True by (apply elem_of_app; auto). by rewrite H2.
  - rewrite decide_True by (apply elem_of_app; auto).
    destruct H2 as [c2 H2]. exists c2. by rewrite H2, H1.
  - rewrite decide_False by (rewrite elem_of_app; tauto). by rewrite H2.
Qed.

Lemma Evaluates_marked_only :
  (∀ b tile b' calls, Evaluates b tile b' calls → marked_only calls b b')
  ∧ (∀ b l b' calls, EvaluatesAll b l b' calls → marked_only calls b b').
Proof.
  apply Evaluates_mutind.
  - intros. apply marked_only_mutate.
  - intros b tile t b' calls Ht c Hc _ IH.
    apply (marked_only_app [tile] calls _ _ _ (marked_only_mutate c tile b) IH).
  - intros. apply marked_only_refl.
  - intros. by eapply marked_only_app.
Qed.

Lemma Evaluates_head :
  ∀ b tile b' calls, Evaluates b tile b' calls → ∃ calls', calls = tile :: calls'.
Proof. intros b tile b' calls H. destruct H; eauto. Qed.

Lemma EvaluatesAll_visits :
  ∀ b l b' calls, EvaluatesAll b l b' calls → ∀ t, t ∈ l → t ∈ calls.
Proof.
  intros b l b' calls H. induction H as [|b t l b1 calls1 b2 calls2 H1 H2 IH].
  - intros t Ht. by apply elem_of_nil in Ht.
  - intros t' Ht'. apply elem_of_app. apply elem_of_cons in Ht' as [->|Ht'].
    + left. apply Evaluates_head in H1 as [? ->]. apply elem_of_cons. by left.
    + right. by apply IH.
Qed.

Section marked_only_facts.
Context {calls : list Ref} {b b' : MinesweeperBoard}.
Hypothesis H : marked_only calls b b'.

Lemma marked_only_deref r t :
  deref (board b) r = Some t →
  ∃ t', deref (board b') r = Some t' ∧ (t' = t ∨ ∃ c, t' = mark c t).
Proof.
  intros Ht. destruct H as (_ & _ & Hr). specialize (Hr r).
  rewrite Ht in Hr. case_decide.
  - destruct Hr as [c Hr]. exists (mark c t). eauto.
  - exists t. eauto.
Qed.

Lemma marked_only_deref_inv r t' :
  deref (board b') r = Some t' →
  ∃ t, deref (board b) r = Some t ∧ (t' = t ∨ ∃ c, t' = mark c t).
Proof.
  intros Ht. destruct H as (_ & _ & Hr). specialize (Hr r).
  rewrite Ht in Hr. case_decide.
  - destruct Hr as [c Hr]. destruct (deref (board b) r) as [t|]; [|done].
    injection Hr as ->. eauto.
  - exists t'. eauto.
Qed.

Lemma marked_only_outside r :
  r ∉ calls → deref (board b') r = deref (board b) r.
Proof.
  intros Hn. destruct H as (_ & _ & Hr). specialize (Hr r).
  by rewrite decide_False in Hr.
Qed.

Lemma marked_only_inside r :
  r ∈ calls → ∃ c, deref (board b') r = mark c <$> deref (board b) r.
Proof.
  intros Hn. destruct H as (_ & _ & Hr). specialize (Hr r).
  by rewrite decide_True in Hr.
Qed.

Lemma marked_only_size : size b' = size b.
Proof. by destruct H as ((? & _) & _). Qed.

Lemma marked_only_on_board r : on_board b' r ↔ on_board b r.
Proof. unfold on_board. by rewrite marked_only_size. Qed.

Lemma marked_only_revealed r :
  is_revealed b r = true → is_revealed b' r = true.
Proof.
  unfold is_revealed. destruct (deref (board b) r) as [t|] eqn:E; [|done].
  destruct (marked_only_deref _ _ E) as (t' & -> & [-> | [c ->]]); done.
Qed.

Lemma marked_only_mine r : is_mine b' r = true → is_mine b r = true.
Proof.
  unfold is_mine. destruct (deref (board b') r) as [t'|] eqn:E; [|done].
  destruct (marked_only_deref_inv _ _ E) as (t & -> & [-> | [c ->]]); done.
Qed.

Lemma marked_only_not_mine r : is_mine b r = false → is_mine b' r = false.
Proof.
  intros Hm. destruct (is_mine b' r) eqn:E; [|done].
  apply marked_only_mine in E. congruence.
Qed.

Lemma marked_only_called r :
  r ∈ calls → on_board b r → shaped b →
  is_revealed b' r = true ∧ is_mine b' r = false.
Proof.
  intros Hin Hon Hsh. apply (shaped_deref _ _ Hsh) in Hon as [t Ht].
  destruct (marked_only_inside _ Hin) as [c Hc]. rewrite Ht in Hc.
  unfold is_revealed, is_mine. by rewrite Hc.
Qed.

Lemma marked_only_revealed_inv r :
  is_revealed b' r = true → is_revealed b r = true ∨ r ∈ calls.
Proof.
  intros Hr. destruct (decide (r ∈ calls)) as [|Hn]; [by right|left].
  unfold is_revealed in *. by rewrite <- (marked_only_outside _ Hn).
Qed.

Lemma marked_only_unrevealed r t' :
  deref (board b') r = Some t' → revealed t' = false →
  deref (board b) r = Some t'.
Proof.
  intros Ht Hr.
  destruct (marked_only_deref_inv _ _ Ht) as (t & E & [-> | [c ->]]); done.
Qed.

Lemma marked_only_wf : wf b → wf b'.
Proof.
  intros (Hs & Hc & Hk). destruct H as (_ & Hsh & _).
  split; [auto|]. split.
  - intros r t' Ht'.
    destruct (marked_only_deref_inv _ _ Ht') as (t & E & [-> | [c ->]]);
      apply (Hc _ _ E).
  - intros r t' Ht'.
    destruct (marked_only_deref_inv _ _ Ht') as (t & E & [-> | [c ->]]);
      [apply (Hk _ _ E)|by left].
Qed.
End marked_only_facts.

(** ** The collected neighbours and the mine counter *)

Lemma neighbour_coords_elem cx cy (r : Ref) :
  (cx, cy) ∈ neighbour_coords (Z.of_nat r.1) (Z.of_nat r.2) ↔
  (cx, cy) ≠ (Z.of_nat r.1, Z.of_nat r.2)
  ∧ Z.of_nat r.1 - 1 ≤ cx ≤ Z.of_nat r.1 + 1
  ∧ Z.of_nat r.2 - 1 ≤ cy ≤ Z.of_nat r.2 + 1.
Proof.
  unfold neighbour_coords. rewrite !elem_of_cons, elem_of_nil. split.
  - intros H. repeat destruct H as [H|H]; try done;
      inversion H; subst; (split; [intros E; injection E; intros|]; lia).
  - intros (Hne & Hx & Hy).
    assert (cx = Z.of_nat r.1 - 1 ∨ cx = Z.of_nat r.1 ∨ cx = Z.of_nat r.1 + 1)
      as [-> | [-> | ->]] by lia;
    assert (cy = Z.of_nat r.2 - 1 ∨ cy = Z.of_nat r.2 ∨ cy = Z.of_nat r.2 + 1)
      as [-> | [-> | ->]] by lia; tauto.
Qed.

Lemma adjacent_tiles_spec b (r r' : Ref) :
  shaped b →
  r' ∈ adjacent_tiles b (Z.of_nat r.1) (Z.of_nat r.2) ↔
  neighbour r r' ∧ on_board b r' ∧ is_revealed b r' = false.
Proof.
  intros Hsh. pose proof Hsh as (Hs & _). unfold adjacent_tiles.
  rewrite list_elem_of_filter, list_elem_of_omap. split.
  - intros (Hrev & o & Ho & Hid). simpl in Hid. subst o.
    apply list_elem_of_fmap in Ho as ([cx cy] & Hg & Hc). simpl in Hg.
    symmetry in Hg. apply get_tile_Some in Hg as (Hx & Hy & ->); [|done].
    apply neighbour_coords_elem in Hc as (Hne & Hcx & Hcy).
    split; [|split; [|done]].
    + split; [|simpl; lia]. intros ->. simpl in *. apply Hne. f_equal; lia.
    + unfold on_board. simpl. lia.
  - intros ((Hne & Hn) & [Hon1 Hon2] & Hrev). split; [done|].
    exists (Some r'). split; [|done]. apply list_elem_of_fmap.
    exists (Z.of_nat r'.1, Z.of_nat r'.2). simpl. split.
    + symmetry. apply get_tile_Some; [done|].
      split; [lia|]. split; [lia|]. destruct r'. simpl. by rewrite !Nat2Z.id.
    + apply neighbour_coords_elem. split; [|lia].
      intros [= E1 E2]. apply Hne. destruct r, r'. simpl in *. f_equal; lia.
Qed.

Lemma count_mines_length b l :
  count_mines b l = Z.of_nat (length (filter (λ r, is_mine b r = true) l)).
Proof.
  unfold count_mines.
  enough (∀ a, foldl (λ c t, if is_mine b t then c + 1 else c) a l
               = a + Z.of_nat (length (filter (λ r, is_mine b r = true) l)))
    as -> by lia.
  induction l as [|t l IH]; intros a; simpl; [lia|].
  rewrite IH, filter_cons. destruct (is_mine b t) eqn:E.
  - rewrite decide_True by done. simpl. lia.
  - rewrite decide_False by done. lia.
Qed.

Lemma count_mines_nonneg b l : 0 ≤ count_mines b l.
Proof. rewrite count_mines_length. lia. Qed.

Lemma count_mines_zero b l :
  ¬ 0 < count_mines b l ↔ ∀ r, r ∈ l → is_mine b r = false.
Proof.
  rewrite count_mines_length. split.
  - intros Hc r Hr. destruct (is_mine b r) eqn:E; [|done].
    assert (Hin : r ∈ filter (λ r, is_mine b r = true) l)
      by by apply list_elem_of_filter.
    destruct (filter _ l); [by apply elem_of_nil in Hin|simpl in Hc; lia].
  - intros Hall.
    destruct (filter (λ r, is_mine b r = true) l) as [|r l'] eqn:E; [simpl; lia|].
    assert (Hin : r ∈ filter (λ r, is_mine b r = true) l)
      by (rewrite E; apply list_elem_of_here).
    apply list_elem_of_filter in Hin as [Hm Hin]. rewrite Hall in Hm; done.
Qed.

Lemma is_mine_off_board b r : shaped b → ¬ on_board b r → is_mine b r = false.
Proof.
  intros Hsh Hoff. unfold is_mine.
  destruct (deref (board b) r) as [t|] eqn:E; [|done].
  exfalso. apply Hoff, (shaped_deref _ _ Hsh). eauto.
Qed.

Lemma on_board_dec b r : Decision (on_board b r).
Proof. unfold on_board. apply _. Qed.

(** On a board where no mine is revealed, the counter is zero exactly when
    no neighbour is a mine. *)
Lemma count_zero_no_mine_around b r :
  shaped b → no_revealed_mine b →
  ¬ 0 < count_mines b (adjacent_tiles b (Z.of_nat r.1) (Z.of_nat r.2))
  ↔ no_mine_around b r.
Proof.
  intros Hsh Hnrm. rewrite count_mines_zero. split.
  - intros Hall r' Hn. destruct (is_mine b r') eqn:Hm; [|done].
    rewrite <- Hm. apply Hall, adjacent_tiles_spec; [done|].
    split; [done|]. split; [|by apply Hnrm].
    destruct (on_board_dec b r') as [|Hoff]; [done|].
    rewrite is_mine_off_board in Hm; done.
  - intros Hz r' Hin. apply adjacent_tiles_spec in Hin as (Hn & _); auto.
Qed.

(** ** Mines are neither evaluated nor revealed by a flood fill *)

Lemma Evaluates_no_mine :
  (∀ b tile b' calls,
     Evaluates b tile b' calls →
     is_mine b tile = false → ∀ r, r ∈ calls → is_mine b r = false)
  ∧ (∀ b l b' calls,
       EvaluatesAll b l b' calls →
       (∀ t, t ∈ l → is_mine b t = false) →
       ∀ r, r ∈ calls → is_mine b r = false).
Proof.
  apply Evaluates_mutind.
  - intros b tile t Ht c Hc Hm r Hr. apply list_elem_of_singleton in Hr. by subst.
  - intros b tile t b' calls Ht c Hc Hall IH Hm r Hr.
    apply elem_of_cons in Hr as [->|Hr]; [done|].
    destruct (decide (r = tile)) as [->|Hne]; [done|].
    pose proof (marked_only_mutate c tile b) as Hmk.
    assert (Hr1 : is_mine (mutate_tile (mark c) tile b) r = false).
    { apply IH; [|done]. intros t' Ht'.
      apply (marked_only_not_mine Hmk).
      by apply (proj1 (count_mines_zero b _) Hc). }
    unfold is_mine in *. simpl in Hr1. by rewrite deref_mutate_ne in Hr1.
  - intros b _ r Hr. by apply elem_of_nil in Hr.
  - intros b t l b1 calls1 b2 calls2 H1 IH1 H2 IH2 Hl r Hr.
    assert (Ht : is_mine b t = false) by apply Hl, list_elem_of_here.
    destruct (decide (r ∈ calls1)) as [I1|I1]; [by apply IH1|].
    apply elem_of_app in Hr as [|Hr]; [done|].
    apply Evaluates_marked_only in H1.
    assert (Hr1 : is_mine b1 r = false).
    { apply IH2; [|done]. intros t' Ht'.
      apply (marked_only_not_mine H1), Hl. by apply list_elem_of_further. }
    unfold is_mine in *. by rewrite (marked_only_outside H1 _ I1) in Hr1.
Qed.

Lemma Evaluates_mines_kept b tile b' calls :
  Evaluates b tile b' calls → is_mine b tile = false →
  ∀ r, is_mine b' r = is_mine b r.
Proof.
  intros Hev Hm r. pose proof (proj1 Evaluates_marked_only _ _ _ _ Hev) as Hmk.
  destruct (decide (r ∈ calls)) as [Hin|Hout].
  - rewrite (proj1 Evaluates_no_mine _ _ _ _ Hev Hm r Hin).
    apply (marked_only_not_mine Hmk).
    apply (proj1 Evaluates_no_mine _ _ _ _ Hev Hm r Hin).
  - unfold is_mine. by rewrite (marked_only_outside Hmk _ Hout).
Qed.

Lemma Evaluates_no_revealed_mine b tile b' calls :
  Evaluates b tile b' calls → is_mine b tile = false →
  no_revealed_mine b → no_revealed_mine b'.
Proof.
  intros Hev Hm Hnrm r Hr.
  pose proof (proj1 Evaluates_marked_only _ _ _ _ Hev) as Hmk.
  rewrite (Evaluates_mines_kept _ _ _ _ Hev Hm) in Hr.
  assert (Hout : r ∉ calls).
  { intros Hin. rewrite (proj1 Evaluates_no_mine _ _ _ _ Hev Hm r Hin) in Hr. done. }
  unfold is_revealed. rewrite (marked_only_outside Hmk _ Hout). by apply Hnrm.
Qed.

(** ** Termination: the call stack is bounded by the number of tiles *)

Lemma elem_of_cells b r : r ∈ cells b ↔ on_board b r.
Proof.
  unfold cells, on_board. rewrite list_elem_of_cprod, !elem_of_seq. lia.
Qed.

Lemma cells_length b :
  0 ≤ size b → length (cells b) = Z.to_nat (size b * size b).
Proof.
  intros Hs. unfold cells.
  rewrite list_cprod_list_prod, length_prod, !length_seq.
  by rewrite Z2Nat.inj_mul.
Qed.

Lemma filter_length_lt {A} (P Q : A → Prop)
    `{∀ a, Decision (P a)} `{∀ a, Decision (Q a)} (l : list A) (a : A) :
  (∀ a', a' ∈ l → P a' → Q a') → a ∈ l → Q a → ¬ P a →
  (length (filter P l) < length (filter Q l))%nat.
Proof.
  intros Hsub Hin HQ HnP.
  assert (E : filter P l = filter P (filter Q l)).
  { clear Hin. induction l as [|a' l IH]; [done|].
    rewrite !filter_cons.
    assert (IH' : filter P l = filter P (filter Q l)).
    { apply IH. intros ???. apply Hsub; [by apply list_elem_of_further|done]. }
    destruct (decide (P a')) as [HP|HP].
    - rewrite decide_True by (apply Hsub; [apply list_elem_of_here|done]).
      rewrite filter_cons, decide_True by done. by f_equal.
    - destruct (decide (Q a')); [|done].
      by rewrite filter_cons, decide_False. }
  rewrite E. apply (length_filter_lt _ _ a); [|done].
  by apply list_elem_of_filter.
Qed.

Lemma hidden_besides_bound b tile :
  on_board b tile → (hidden_besides b tile < Z.to_nat (size b * size b))%nat.
Proof.
  intros Hon. rewrite <- cells_length by (destruct Hon; lia).
  unfold hidden_besides.
  apply (length_filter_lt _ _ tile); [by apply elem_of_cells|]. tauto.
Qed.

(** A neighbour collected on [b], visited on a later board [b2]: fewer
    tiles are hidden besides it than were besides the caller's tile. *)
Lemma hidden_besides_descends b tile b2 t :
  size b2 = size b →
  (∀ r, r ≠ tile → is_revealed b r = true → is_revealed b2 r = true) →
  is_revealed b2 tile = true →
  on_board b t → t ≠ tile → is_revealed b t = false →
  (hidden_besides b2 t < hidden_besides b tile)%nat.
Proof.
  intros Hsz Hmono Htile Hon Hne Hhid. unfold hidden_besides, cells.
  rewrite Hsz. apply (filter_length_lt _ _ _ t).
  - intros r _ [Hrt Hr]. assert (r ≠ tile) by (intros ->; congruence).
    split; [done|]. destruct (is_revealed b r) eqn:E; [|done].
    rewrite Hmono in Hr; done.
  - by apply elem_of_cells.
  - done.
  - tauto.
Qed.

Lemma is_revealed_mark_ne c tile b r :
  tile ≠ r → is_revealed (mutate_tile (mark c) tile b) r = is_revealed b r.
Proof. intros. unfold is_revealed. simpl. by rewrite deref_mutate_ne. Qed.

Lemma is_revealed_mark_eq c tile b :
  is_Some (deref (board b) tile) →
  is_revealed (mutate_tile (mark c) tile b) tile = true.
Proof.
  intros [t Ht]. unfold is_revealed. simpl. by rewrite deref_mutate_eq, Ht.
Qed.

Lemma evaluate_tile_terminates depth :
  ∀ b tile,
    wf b → on_board b tile → (hidden_besides b tile < depth)%nat →
    is_Some (evaluate_tile depth b tile).
Proof.
  induction depth as [|depth IH]; intros b tile Hwf Hon Hlt; [lia|].
  pose proof Hwf as (Hsh & Hco & _).
  rewrite evaluate_tile_S.
  destruct (proj2 (shaped_deref _ _ Hsh) Hon) as [t Ht]. rewrite Ht. simpl.
  destruct (Hco _ _ Ht) as [-> ->].
  set (l := adjacent_tiles b _ _). set (c := count_mines b l).
  destruct (0 <? c); [by eexists|].
  set (b1 := mutate_tile (mark c) tile b).
  assert (Hl : ∀ t', t' ∈ l →
                     on_board b t' ∧ t' ≠ tile ∧ is_revealed b t' = false).
  { intros t' Ht'. apply adjacent_tiles_spec in Ht' as ((Hne & _) & ? & ?); auto. }
  assert (Hb1 : wf b1 ∧ size b1 = size b
                ∧ (∀ r, r ≠ tile → is_revealed b r = true → is_revealed b1 r = true)
                ∧ is_revealed b1 tile = true).
  { split; [apply (marked_only_wf (marked_only_mutate c tile b) Hwf)|].
    split; [done|]. unfold b1. split.
    - intros r Hr. by rewrite is_revealed_mark_ne.
    - apply is_revealed_mark_eq. eauto. }
  clearbody l b1. generalize [tile]. revert b1 Hb1. induction l as [|t' l IHl]; intros b1 (Hwf1 & Hsz & Hmono & Hrev) acc.
  - by eexists.
  - rewrite for_each_cons.
    destruct (Hl t') as (Hon' & Hne' & Hhid'); [apply list_elem_of_here|].
    destruct (IH b1 t') as [[b2 calls] E2]; [done|unfold on_board; by rewrite Hsz|..].
    { assert ((hidden_besides b1 t' < hidden_besides b tile)%nat)
        by (apply hidden_besides_descends; auto). lia. }
    assert (E : visit (evaluate_tile depth) (b1, acc) t'
                = Some (b2, (acc ++ calls)%list)).
    { apply visit_Some. eauto. }
    rewrite E. simpl.
    apply evaluate_tile_sound, Evaluates_marked_only in E2.
    apply IHl.
    + intros ??. apply Hl. by apply list_elem_of_further.
    + split; [by apply (marked_only_wf E2)|].
      split; [by rewrite (marked_only_size E2)|].
      split; [|by apply (marked_only_revealed E2)].
      intros r ??. apply (marked_only_revealed E2). auto.
Qed.

Lemma evaluate_tile_returns b tile :
  wf b → on_board b tile →
  ∃ b' calls,
    evaluate_tile (Z.to_nat (size b * size b)) b tile = Some (b', calls).
Proof.
  intros Hwf Hon.
  destruct (evaluate_tile_terminates (Z.to_nat (size b * size b)) b tile)
    as [[b' calls] E]; eauto using hidden_besides_bound.
Qed.

(** C8: on a well-formed board, the recursive [evaluate_tile] returns for
    every tile, with a call stack of at most as many frames as the board has
    tiles; a larger stack changes nothing. *)
Theorem evaluate_tile_depth_bounded b tile :
  wf b → on_board b tile →
  ∃ b' calls,
    evaluate_tile (Z.to_nat (size b * size b)) b tile = Some (b', calls)
    ∧ ∀ depth, (Z.to_nat (size b * size b) ≤ depth)%nat →
               evaluate_tile depth b tile = Some (b', calls).
Proof.
  intros Hwf Hon. destruct (evaluate_tile_returns b tile Hwf Hon) as (b' & calls & E).
  exists b', calls. split; [done|]. intros depth Hle.
  by apply (evaluate_tile_mono (Z.to_nat (size b * size b))).
Qed.

(** ** The flood fill *)

Lemma neighbour_around r r' : neighbour r r' → r' ∈ around r.
Proof.
  intros (_ & Hn). unfold around. apply list_elem_of_cprod.
  rewrite !elem_of_cons, !elem_of_nil. lia.
Qed.

Lemma no_mine_around_Forall b r :
  no_mine_around b r ↔
  Forall (λ r', neighbour r r' → is_mine b r' = false) (around r).
Proof.
  rewrite Forall_forall. split.
  - intros H r' _. apply H.
  - intros H r' Hn. apply H; [|done]. by apply neighbour_around.
Qed.

Lemma no_mine_around_dec b r : Decision (no_mine_around b r).
Proof.
  refine (cast_if (decide (Forall (λ r', neighbour r r' → is_mine b r' = false)
                                  (around r))));
    by rewrite no_mine_around_Forall.
Qed.

Lemma no_mine_around_ext b b' r :
  (∀ q, is_mine b' q = is_mine b q) →
  no_mine_around b r → no_mine_around b' r.
Proof. intros E H q Hq. rewrite E. by apply H. Qed.

Lemma spreads_ext b b' r q :
  size b' = size b → (∀ q, is_mine b' q = is_mine b q) →
  spreads b' r q → spreads b r q.
Proof.
  intros Hsz E H. induction H as [|r t q Hz Hn Hon _ IH]; [constructor|].
  apply (spreads_step _ r t q); [|done| |done].
  - apply (no_mine_around_ext b'); [|done]. intros. by rewrite E.
  - unfold on_board in *. by rewrite <- Hsz.
Qed.

Lemma spreads_snoc b r z q :
  spreads b r z → no_mine_around b z → neighbour z q → on_board b q →
  spreads b r q.
Proof.
  intros H Hz Hn Hon. induction H as [r|r t z' Hz' Hn' Hon' _ IH].
  - apply (spreads_step _ r q q); auto. constructor.
  - apply (spreads_step _ r t q); auto.
Qed.

Lemma region_zero b r q : region b r q → no_mine_around b q.
Proof. by destruct 1. Qed.

Lemma region_spreads b r q : region b r q → spreads b r q.
Proof.
  intros H. induction H as [|z q Hreg IH Hn Hon Hz]; [constructor|].
  apply (spreads_snoc b r z q); eauto using region_zero.
Qed.

Lemma ring_spreads b r q : ring b r q → spreads b r q.
Proof.
  intros (_ & Hon & z & Hreg & Hn).
  apply (spreads_snoc b r z q); eauto using region_zero, region_spreads.
Qed.

Lemma spreads_region_or_ring b r q :
  spreads b r q → ∀ r0, region b r0 r → region b r0 q ∨ ring b r0 q.
Proof.
  intros H. induction H as [|r t q Hz Hn Hon Hsp IH]; intros r0 Hreg; [by left|].
  destruct (no_mine_around_dec b t) as [Hzt|Hzt].
  - apply IH. by apply (region_step b r0 r t).
  - inversion Hsp; subst; [|done]. right. split; [done|]. split; [done|]. eauto.
Qed.

(** The tiles the fill reaches from a tile with zero adjacent mines are the
    region of the tile and the ring around it. *)
Lemma spreads_iff_region_ring b r q :
  no_mine_around b r →
  spreads b r q ↔ region b r q ∨ ring b r q.
Proof.
  intros Hz. split.
  - intros H. apply (spreads_region_or_ring b r q H). by constructor.
  - intros [H|H]; eauto using region_spreads, ring_spreads.
Qed.

Lemma marked_only_mines_kept calls b b' :
  marked_only calls b b' → (∀ r, r ∈ calls → is_mine b r = false) →
  ∀ r, is_mine b' r = is_mine b r.
Proof.
  intros Hmk Hc r. destruct (decide (r ∈ calls)) as [Hin|Hout].
  - rewrite (Hc r Hin). apply (marked_only_not_mine Hmk), Hc, Hin.
  - unfold is_mine. by rewrite (marked_only_outside Hmk _ Hout).
Qed.

Lemma marked_only_no_revealed_mine calls b b' :
  marked_only calls b b' → (∀ r, r ∈ calls → is_mine b r = false) →
  no_revealed_mine b → no_revealed_mine b'.
Proof.
  intros Hmk Hc Hnrm r Hr.
  rewrite (marked_only_mines_kept _ _ _ Hmk Hc) in Hr.
  assert (Hout : r ∉ calls) by (intros Hin; rewrite (Hc r Hin) in Hr; done).
  unfold is_revealed. rewrite (marked_only_outside Hmk _ Hout). by apply Hnrm.
Qed.

Lemma playable_enter b tile t :
  playable b tile → deref (board b) tile = Some t →
  let l := adjacent_tiles b (x t) (y t) in
  let c := count_mines b l in
  ¬ 0 < c →
  playable_all (mutate_tile (mark c) tile b) l
  ∧ no_mine_around b tile
  ∧ (∀ q, q ∈ l ↔ neighbour tile q ∧ on_board b q ∧ is_revealed b q = false)
  ∧ (∀ q, is_mine (mutate_tile (mark c) tile b) q = is_mine b q).
Proof.
  intros (Hwf & Hnrm & Hon & Hm) Ht l c Hc. pose proof Hwf as (Hsh & Hco & _).
  destruct (Hco _ _ Ht) as [Ex Ey]. unfold c, l in *. rewrite Ex, Ey in *.
  pose proof (marked_only_mutate
                (count_mines b (adjacent_tiles b (Z.of_nat tile.1) (Z.of_nat tile.2)))
                tile b) as Hmk.
  assert (Hcalls : ∀ r, r ∈ [tile] → is_mine b r = false).
  { intros r Hr. apply list_elem_of_singleton in Hr. by subst. }
  assert (Hl : ∀ q, q ∈ adjacent_tiles b (Z.of_nat tile.1) (Z.of_nat tile.2) ↔
                    neighbour tile q ∧ on_board b q ∧ is_revealed b q = false)
    by (intros q; by apply adjacent_tiles_spec).
  split; [|split; [by apply count_zero_no_mine_around|split; [done|]]].
  - split; [by apply (marked_only_wf Hmk)|].
    split; [by apply (marked_only_no_revealed_mine _ _ _ Hmk)|].
    intros q Hq. split; [by apply Hl|].
    apply (marked_only_not_mine Hmk).
    by apply (proj1 (count_mines_zero b _) Hc).
  - by apply (marked_only_mines_kept _ _ _ Hmk).
Qed.

Lemma playable_all_head b t l : playable_all b (t :: l) → playable b t.
Proof.
  intros (Hwf & Hnrm & Hl). destruct (Hl t) as [??]; [apply list_elem_of_here|].
  split; [done|split; [done|by split]].
Qed.

Lemma playable_all_tail b t l b1 calls1 :
  playable_all b (t :: l) → Evaluates b t b1 calls1 → playable_all b1 l.
Proof.
  intros Hpa Hev. pose proof (playable_all_head _ _ _ Hpa) as (_ & _ & _ & Hm).
  destruct Hpa as (Hwf & Hnrm & Hl).
  pose proof (proj1 Evaluates_marked_only _ _ _ _ Hev) as Hmk.
  split; [by apply (marked_only_wf Hmk)|].
  split; [by apply (Evaluates_no_revealed_mine _ _ _ _ Hev)|].
  intros q Hq. destruct (Hl q) as [??]; [by apply list_elem_of_further|].
  split; [by apply (marked_only_on_board Hmk)|by apply (marked_only_not_mine Hmk)].
Qed.

(** Every invocation is on a tile the fill reaches, and every invoked tile
    with zero adjacent mines ends with all its neighbours revealed. *)
Lemma Evaluates_flood :
  (∀ b tile b' calls,
     Evaluates b tile b' calls → playable b tile →
     (∀ q, q ∈ calls → spreads b tile q)
     ∧ (∀ z q, z ∈ calls → no_mine_around b z → neighbour z q →
               on_board b q → is_revealed b' q = true))
  ∧ (∀ b l b' calls,
       EvaluatesAll b l b' calls → playable_all b l →
       (∀ q, q ∈ calls → ∃ t, t ∈ l ∧ spreads b t q)
       ∧ (∀ z q, z ∈ calls → no_mine_around b z → neighbour z q →
                 on_board b q → is_revealed b' q = true)).
Proof.
  apply Evaluates_mutind.
  - intros b tile t Ht c Hc (Hwf & Hnrm & Hon & Hm). split.
    + intros q Hq. apply list_elem_of_singleton in Hq. subst. constructor.
    + intros z q Hz Hzero. apply list_elem_of_singleton in Hz. subst.
      exfalso. destruct Hwf as (Hsh & Hco & _).
      destruct (Hco _ _ Ht) as [Ex Ey]. unfold c in Hc. rewrite Ex, Ey in Hc.
      by apply (count_zero_no_mine_around b tile Hsh Hnrm) in Hzero.
  - intros b tile t b' calls Ht c Hc Hall IH Hp.
    destruct (playable_enter b tile t Hp Ht Hc) as (Hpa & Hzero & Hl & Hmines).
    fold c in Hpa, Hmines. destruct (IH Hpa) as [IH1 IH2].
    pose proof (marked_only_mutate c tile b) as Hmk1.
    pose proof (proj2 Evaluates_marked_only _ _ _ _ Hall) as Hmk.
    split.
    + intros q Hq. apply elem_of_cons in Hq as [->|Hq]; [constructor|].
      destruct (IH1 q Hq) as (t' & Ht' & Hsp).
      apply Hl in Ht' as (Hn & Hon' & _).
      apply (spreads_step b tile t' q); auto.
      by apply (spreads_ext b (mutate_tile (mark c) tile b)).
    + intros z q Hz Hzz Hn Hon'.
      destruct (decide (z ∈ calls)) as [Hin|Hout].
      { apply (IH2 z q); auto. by apply (no_mine_around_ext b). }
      apply elem_of_cons in Hz as [->|Hz]; [|done].
      destruct (is_revealed b q) eqn:Hq.
      * by apply (marked_only_revealed Hmk), (marked_only_revealed Hmk1).
      * apply (marked_only_called Hmk); [|done|by destruct Hpa as ((?&_)&_)].
        apply (EvaluatesAll_visits _ _ _ _ Hall). by apply Hl.
  - intros b _. split; intros; by apply elem_of_nil in H.
  - intros b t l b1 calls1 b2 calls2 H1 IH1 H2 IH2 Hpa.
    pose proof (playable_all_head _ _ _ Hpa) as Hp.
    pose proof (playable_all_tail _ _ _ _ _ Hpa H1) as Hpa1.
    destruct (IH1 Hp) as [IH1a IH1b]. destruct (IH2 Hpa1) as [IH2a IH2b].
    pose proof (proj1 Evaluates_marked_only _ _ _ _ H1) as Hmk1.
    pose proof (proj2 Evaluates_marked_only _ _ _ _ H2) as Hmk2.
    assert (Hmines : ∀ q, is_mine b1 q = is_mine b q).
    { apply (Evaluates_mines_kept _ _ _ _ H1). by destruct Hp as (_&_&_&?). }
    split.
    + intros q Hq. apply elem_of_app in Hq as [Hq|Hq].
      * exists t. split; [apply list_elem_of_here|auto].
      * destruct (IH2a q Hq) as (t' & Ht' & Hsp). exists t'.
        split; [by apply list_elem_of_further|].
        apply (spreads_ext b b1); auto. apply (marked_only_size Hmk1).
    + intros z q Hz Hzz Hn Hon'. apply elem_of_app in Hz as [Hz|Hz].
      * apply (marked_only_revealed Hmk2). by apply (IH1b z q).
      * apply (IH2b z q); auto.
        -- by apply (no_mine_around_ext b).
        -- by apply (marked_only_on_board Hmk1).
Qed.

Lemma adjacent_tiles_hidden b cx cy q :
  q ∈ adjacent_tiles b cx cy → is_revealed b q = false.
Proof. unfold adjacent_tiles. rewrite list_elem_of_filter. tauto. Qed.

Lemma marked_only_hidden calls b b' q :
  marked_only calls b b' → is_revealed b' q = false → is_revealed b q = false.
Proof.
  intros Hmk Hq. destruct (is_revealed b q) eqn:E; [|done].
  apply (marked_only_revealed Hmk) in E. congruence.
Qed.

(** Apart from the first, every invocation is on a tile that was hidden when
    the evaluation started. *)
Lemma Evaluates_calls_hidden :
  (∀ b tile b' calls,
     Evaluates b tile b' calls →
     ∀ q, q ∈ calls → q = tile ∨ is_revealed b q = false)
  ∧ (∀ b l b' calls,
       EvaluatesAll b l b' calls →
       ∀ q, q ∈ calls → q ∈ l ∨ is_revealed b q = false).
Proof.
  apply Evaluates_mutind.
  - intros b tile t Ht c Hc q Hq. left. by apply list_elem_of_singleton in Hq.
  - intros b tile t b' calls Ht c Hc Hall IH q Hq.
    apply elem_of_cons in Hq as [->|Hq]; [by left|]. right.
    destruct (IH q Hq) as [Hin|Hhid].
    + by apply adjacent_tiles_hidden in Hin.
    + by apply (marked_only_hidden _ _ _ _ (marked_only_mutate c tile b)).
  - intros b q Hq. by apply elem_of_nil in Hq.
  - intros b t l b1 calls1 b2 calls2 H1 IH1 H2 IH2 q Hq.
    apply elem_of_app in Hq as [Hq|Hq].
    + destruct (IH1 q Hq) as [->|?]; [left; apply list_elem_of_here|by right].
    + destruct (IH2 q Hq) as [?|Hhid]; [left; by apply list_elem_of_further|].
      right. apply Evaluates_marked_only in H1.
      by apply (marked_only_hidden _ _ _ _ H1).
Qed.

Lemma spreads_on_board b r q : on_board b r → spreads b r q → on_board b q.
Proof. intros Hon H. induction H; auto. Qed.

(** What a fill started on a playable tile reveals. *)
Lemma Evaluates_reveals b tile b' calls :
  Evaluates b tile b' calls → playable b tile → zeros_closed b tile →
  (∀ q, is_revealed b' q = true ↔ is_revealed b q = true ∨ spreads b tile q)
  ∧ (∀ q, q ∈ calls ↔ q = tile ∨ spreads b tile q ∧ is_revealed b q = false).
Proof.
  intros Hev Hp Hclosed.
  destruct (proj1 Evaluates_flood _ _ _ _ Hev Hp) as [Hsound Hcloses].
  pose proof (proj1 Evaluates_marked_only _ _ _ _ Hev) as Hmk.
  pose proof (proj1 Evaluates_calls_hidden _ _ _ _ Hev) as Hhid.
  destruct (Evaluates_head _ _ _ _ Hev) as [calls' Ecalls].
  assert (Htile : tile ∈ calls) by (rewrite Ecalls; apply list_elem_of_here).
  destruct Hp as (Hwf & Hnrm & Hon & Hm). pose proof Hwf as (Hsh & _).
  assert (Hreach : ∀ r q, spreads b r q → on_board b r →
                          is_revealed b' r = true → is_revealed b' q = true).
  { intros r q H. induction H as [|r t q Hz Hn Hont Hsp IH]; [done|].
    intros Honr Hr. apply IH; [done|].
    destruct (decide (r ∈ calls)) as [Hin|Hout]; [by apply (Hcloses r t)|].
    apply (marked_only_revealed Hmk). apply (Hclosed r t); auto.
    - intros ->. done.
    - destruct (marked_only_revealed_inv Hmk _ Hr); done. }
  assert (Hrev : ∀ q, is_revealed b' q = true ↔
                      is_revealed b q = true ∨ spreads b tile q).
  { intros q. split.
    - intros Hq. destruct (marked_only_revealed_inv Hmk _ Hq); auto.
    - intros [Hq|Hq]; [by apply (marked_only_revealed Hmk)|].
      apply (Hreach tile q); [done|done|]. by apply (marked_only_called Hmk). }
  split; [done|]. intros q. split.
  - intros Hq. destruct (Hhid q Hq); auto.
  - intros [->|[Hsp Hq]]; [done|].
    assert (Hq' : is_revealed b' q = true) by (apply Hrev; auto).
    destruct (marked_only_revealed_inv Hmk _ Hq'); [congruence|done].
Qed.

(** C4 (as amended): in a state of play (no mine revealed, every revealed
    tile with zero adjacent mines other than the selected one has all its
    neighbours revealed), evaluating a tile that is not a mine and has zero
    adjacent mines returns, reveals exactly the connected zero-adjacency
    region of the tile and the ring of numbered tiles around it, and invokes
    [evaluate_tile] on the tile and on exactly the tiles of the region and
    the ring that were hidden (at least once each). *)
Theorem flood_fill_reveals_region_and_ring b tile :
  playable b tile → zeros_closed b tile → no_mine_around b tile →
  ∃ b' calls,
    evaluate_tile (Z.to_nat (size b * size b)) b tile = Some (b', calls)
    ∧ (∀ q, is_revealed b' q = true ↔
            is_revealed b q = true ∨ region b tile q ∨ ring b tile q)
    ∧ (∀ q, q ∈ calls ↔
            q = tile
            ∨ (region b tile q ∨ ring b tile q) ∧ is_revealed b q = false).
Proof.
  intros Hp Hclosed Hzero. pose proof Hp as (Hwf & _ & Hon & _).
  destruct (evaluate_tile_returns b tile Hwf Hon) as (b' & calls & E).
  exists b', calls. split; [done|].
  apply evaluate_tile_sound in E.
  destruct (Evaluates_reveals _ _ _ _ E Hp Hclosed) as [Hrev Hcalls].
  split; intros q.
  - rewrite Hrev. by rewrite (spreads_iff_region_ring b tile q Hzero).
  - rewrite Hcalls. by rewrite (spreads_iff_region_ring b tile q Hzero).
Qed.

(** ** Mine placement *)

Lemma dict_get_cons {V} k' (v : V) d k :
  Py.dict_get ((k', v) :: d) k
  = if String.eqb k' k then Some v else Py.dict_get d k.
Proof. reflexivity. Qed.

Lemma randint_Some hi v : 0 ≤ hi → Py.randint 0 hi v = Some v.
Proof. intros. unfold Py.randint. by destruct (Z.ltb_spec hi 0); [lia|]. Qed.

Lemma mapM_randint hi (rng : nat → Z) (l : list nat) :
  0 ≤ hi ∨ l = [] →
  mapM (λ k, Py.randint 0 hi (rng k)) l = Some (rng <$> l).
Proof.
  intros [H| ->]; [|done].
  rewrite (mapM_ext _ (λ k, Some (rng k))) by (intros; by apply randint_Some).
  induction l as [|k l IH]; [done|]. simpl. by rewrite IH.
Qed.

Lemma plant_inside b cx cy :
  shaped b → 0 ≤ cx < size b → 0 ≤ cy < size b →
  plant b (cx, cy)
  = Some (mutate_tile (set_tile_type "mine") (Z.to_nat cx, Z.to_nat cy) b).
Proof. intros. unfold plant. simpl. by rewrite get_tile_inside. Qed.

Lemma plant_all coords :
  ∀ b, shaped b →
       (∀ c, c ∈ coords → 0 ≤ c.1 < size b ∧ 0 ≤ c.2 < size b) →
       ∃ b', Py.for_each plant coords b = Some b'
             ∧ same_frame b b' ∧ shaped b'
             ∧ ∀ r, deref (board b') r =
                    if decide ((Z.of_nat r.1, Z.of_nat r.2) ∈ coords)
                    then set_tile_type "mine" <$> deref (board b) r
                    else deref (board b) r.
Proof.
  induction coords as [|[cx cy] coords IH]; intros b Hsh Hin.
  - exists b. split; [done|]. split; [done|]. split; [done|]. intros r.
    rewrite decide_False; [done|]. apply not_elem_of_nil.
  - rewrite for_each_cons.
    destruct (Hin (cx, cy)) as [Hx Hy]; [apply list_elem_of_here|]. simpl in *.
    rewrite plant_inside by done. simpl.
    set (b1 := mutate_tile _ _ b).
    destruct (IH b1) as (b' & E & (Hs & Hd & Hn) & Hsh' & Hder).
    { by apply shaped_mutate. }
    { intros c Hc. apply Hin. by apply list_elem_of_further. }
    exists b'. split; [done|]. split; [by repeat split|]. split; [done|].
    intros r. rewrite Hder. unfold b1. simpl. rewrite deref_mutate.
    destruct (decide ((Z.to_nat cx, Z.to_nat cy) = r)) as [<-|Hne].
    + simpl. rewrite !Z2Nat.id by lia.
      rewrite (decide_True (P := _ ∈ _ :: _)) by apply list_elem_of_here.
      case_decide; [|done]. by destruct (deref (board b) _).
    + destruct (decide ((Z.of_nat r.1, Z.of_nat r.2) ∈ coords)) as [Hc|Hc].
      * rewrite decide_True; [done|]. by apply list_elem_of_further.
      * rewrite decide_False; [done|]. rewrite elem_of_cons. intros [[= E1 E2]|?]; [|done].
        apply Hne. destruct r. simpl in *. f_equal; lia.
Qed.

Lemma mutate_comm f r1 r2 g :
  mutate f r1 (mutate f r2 g) = mutate f r2 (mutate f r1 g).
Proof.
  unfold mutate. destruct (decide (r1.1 = r2.1)) as [E|E].
  - rewrite E, !list_alter_alter_eq. apply list_alter_ext; [|done].
    intros row _. simpl. destruct (decide (r1.2 = r2.2)) as [E2|E2].
    + by rewrite E2.
    + by apply list_alter_alter_ne.
  - by apply list_alter_alter_ne.
Qed.

Lemma plant_Some b c b1 :
  plant b c = Some b1 ↔
  ∃ tile, get_tile b c.1 c.2 = Some tile
          ∧ b1 = mutate_tile (set_tile_type "mine") tile b.
Proof.
  unfold plant. destruct (get_tile b c.1 c.2) as [tile|]; simpl.
  - split; [intros [= <-]; eauto|]. by intros (? & [= <-] & ->).
  - split; [done|]. by intros (? & ? & _).
Qed.

(** The mines planted do not depend on the order in which the set of
    coordinates is listed. *)
Lemma plant_mines_Permutation coords coords' :
  coords ≡ₚ coords' →
  ∀ b, shaped b → Py.for_each plant coords b = Py.for_each plant coords' b.
Proof.
  induction 1 as [|c l l' _ IH|c1 c2 l|l l' l'' _ IH1 _ IH2]; intros b Hsh.
  - done.
  - rewrite !for_each_cons. destruct (plant b c) as [b1|] eqn:E; [|done].
    simpl. apply IH. apply plant_Some in E as (tile & _ & ->).
    by apply shaped_mutate.
  - rewrite !for_each_cons.
    destruct (plant b c1) as [b1|] eqn:E1, (plant b c2) as [b2|] eqn:E2; simpl.
    + apply plant_Some in E1 as (t1 & G1 & ->).
      apply plant_Some in E2 as (t2 & G2 & ->).
      unfold plant. rewrite !get_tile_mutate by done. rewrite G1, G2. simpl.
      unfold mutate_tile, with_board. simpl. by rewrite mutate_comm.
    + apply plant_Some in E1 as (t1 & G1 & ->).
      unfold plant in *. rewrite get_tile_mutate by done.
      by destruct (get_tile b c2.1 c2.2).
    + apply plant_Some in E2 as (t2 & G2 & ->).
      unfold plant in *. rewrite get_tile_mutate by done.
      by destruct (get_tile b c1.1 c1.2).
    + done.
  - rewrite IH1 by done. by apply IH2.
Qed.

(** The table holds the doubles of the four literals of the source. *)
Lemma DIFFICULTY_MAPPING_doubles :
  DIFFICULTY_MAPPING
  = [("easy", Prim2SF 0x1.999999999999ap-4%float);
     ("medium", Prim2SF 0x1.999999999999ap-3%float);
     ("hard", Prim2SF 0x1.3333333333333p-2%float);
     ("insane", Prim2SF 0x1p-1%float)].
Proof. vm_compute. reflexivity. Qed.

(** The double-precision product truncates to the exact
    [floor (size² × density)] for every board size up to 2000. *)
Lemma set_number_of_mines_floor size difficulty n :
  0 ≤ size ≤ 2000 →
  set_number_of_mines size difficulty = Some n →
  ∃ k, Py.dict_get density_tenths difficulty = Some k
       ∧ n = size * size * k / 10.
Proof.
  intros Hsize.
  assert (Hall : forallb target_is_floor (Py.range 2001) = true)
    by (vm_compute; reflexivity).
  rewrite forallb_forall in Hall. specialize (Hall size).
  assert (Hin : In size (Py.range 2001)).
  { apply list_elem_of_In, list_elem_of_lookup. exists (Z.to_nat size).
    rewrite range_lookup, decide_True by lia. f_equal. lia. }
  specialize (Hall Hin). unfold target_is_floor in Hall.
  rewrite forallb_forall in Hall.
  unfold set_number_of_mines at 1.
  destruct (Py.dict_get DIFFICULTY_MAPPING difficulty) as [d|] eqn:Ed; [|done].
  simpl. intros En.
  assert (Hk : ∃ k, In (difficulty, k) density_tenths
                    ∧ Py.dict_get density_tenths difficulty = Some k).
  { unfold DIFFICULTY_MAPPING in Ed. unfold density_tenths.
    rewrite ?dict_get_cons in Ed. rewrite ?dict_get_cons.
    repeat match type of Ed with
           | context [String.eqb ?a ?b] =>
               destruct (String.eqb_spec a b) as [<-|?];
               [eexists; split; [|reflexivity];
                apply list_elem_of_In; repeat constructor|]
           end.
    done. }
  destruct Hk as (k & Hk & Ek). exists k. split; [done|].
  specialize (Hall _ Hk). simpl in Hall.
  unfold set_number_of_mines in Hall. rewrite Ed in Hall. simpl in Hall.
  rewrite En in Hall. by apply Z.eqb_eq in Hall.
Qed.

Lemma set_number_of_mines_nonneg_0 difficulty n :
  set_number_of_mines 0 difficulty = Some n → n = 0.
Proof.
  intros H. apply set_number_of_mines_floor in H as (k & _ & ->); [done|lia].
Qed.

Lemma binary_round_aux_nonneg m e l :
  sf_nonneg (binary_round_aux prec emax false m e l).
Proof.
  unfold binary_round_aux. destruct (shr_fexp _ _ _ _ _) as [r1 e1].
  destruct (shr_fexp _ _ _ _ _) as [r2 e2]. destruct (shr_m r2); simpl; auto.
  destruct (_ <=? _); simpl; auto.
Qed.

Lemma float_of_int_nonneg n f :
  0 ≤ n → Py.float_of_int n = Some f → sf_nonneg f.
Proof.
  intros Hn. unfold Py.float_of_int, binary_normalize.
  destruct n as [|p|p]; [by intros [= <-]| |lia].
  unfold binary_round. destruct (shl_align _ _ _) as [mz ez].
  pose proof (binary_round_aux_nonneg (Z.pos mz) ez loc_Exact) as H.
  destruct (binary_round_aux _ _ _ _ _ _); intros [= <-]; done.
Qed.

Lemma float_mul_nonneg a b :
  sf_nonneg a → sf_nonneg b → sf_nonneg (Py.float_mul a b).
Proof.
  unfold Py.float_mul, SFmul.
  destruct a as [sa|sa| |sa ma ea], b as [sb|sb| |sb mb eb]; simpl;
    intros; subst; try done.
  apply binary_round_aux_nonneg.
Qed.

Lemma int_of_float_nonneg f n :
  sf_nonneg f → Py.int_of_float f = Some n → 0 ≤ n.
Proof.
  destruct f as [s|s| |s m e]; simpl; intros Hs; [by intros [= <-]|done|done|].
  subst s. intros [= <-]. destruct (Z.leb_spec 0 e).
  - apply Z.mul_nonneg_nonneg; [lia|]. apply Z.pow_nonneg. lia.
  - apply Z.div_pos; [lia|]. apply Z.pow_pos_nonneg; lia.
Qed.

Lemma set_number_of_mines_nonneg size difficulty n :
  set_number_of_mines size difficulty = Some n → 0 ≤ n.
Proof.
  unfold set_number_of_mines.
  destruct (Py.dict_get DIFFICULTY_MAPPING difficulty) as [d|] eqn:Ed; [|done].
  simpl. destruct (Py.float_of_int (size * size)) as [f|] eqn:Ef; [|done].
  simpl. apply int_of_float_nonneg, float_mul_nonneg.
  - apply (float_of_int_nonneg (size * size)); [nia|done].
  - unfold DIFFICULTY_MAPPING in Ed. rewrite ?dict_get_cons in Ed.
    repeat match type of Ed with
           | context [String.eqb ?a ?b] =>
               destruct (String.eqb a b); [by injection Ed as <-|]
           end.
    done.
Qed.


Lemma samples_in_range (rng : nat → Z) n lo hi c :
  (∀ k, (k < 2 * n)%nat → lo ≤ rng k ≤ hi) →
  c ∈ samples rng n → lo ≤ c.1 ≤ hi ∧ lo ≤ c.2 ≤ hi.
Proof.
  intros Hrng Hc. destruct c as [cx cy]. unfold samples in Hc. simpl. split.
  - apply elem_of_zip_l, list_elem_of_fmap in Hc as (k & -> & Hk).
    apply elem_of_seq in Hk. apply Hrng. lia.
  - apply elem_of_zip_r, list_elem_of_fmap in Hc as (k & -> & Hk).
    apply elem_of_seq in Hk. apply Hrng. lia.
Qed.

Lemma populate_result b rng :
  shaped b → 1 ≤ size b ∨ n_total_mines b ≤ 0 →
  let n := Z.to_nat (n_total_mines b) in
  (∀ k, (k < 2 * n)%nat → 0 ≤ rng k ≤ size b - 1) →
  let coords := remove_dups (samples rng n) in
  ∃ b', populate_board_with_mines rng b = Some b'
        ∧ size b' = size b ∧ difficulty b' = difficulty b
        ∧ n_total_mines b' = Z.of_nat (length coords)
        ∧ shaped b'
        ∧ ∀ r, deref (board b') r =
               if decide ((Z.of_nat r.1, Z.of_nat r.2) ∈ coords)
               then set_tile_type "mine" <$> deref (board b) r
               else deref (board b) r.
Proof.
  intros Hsh Hsz n Hrng coords. unfold populate_board_with_mines. fold n.
  assert (Hr : 0 ≤ size b - 1 ∨ n = 0%nat) by lia.
  rewrite !mapM_randint
    by (destruct Hr as [?| ->]; [by left|by right]).
  simpl. fold (samples rng n). fold coords.
  destruct (plant_all coords (with_n_total_mines (Z.of_nat (length coords)) b))
    as (b' & E & (Hs & Hd & Hn) & Hsh' & Hder); [done| |].
  { intros c Hc. unfold coords in Hc. rewrite elem_of_remove_dups in Hc.
    apply (samples_in_range rng n 0 (size b - 1)) in Hc; [simpl; lia|done]. }
  simpl in *. exists b'. split; [done|]. by repeat (split; [done|]).
Qed.

Lemma populate_wf b rng b' :
  wf b → 1 ≤ size b ∨ n_total_mines b ≤ 0 →
  (∀ k, (k < 2 * Z.to_nat (n_total_mines b))%nat → 0 ≤ rng k ≤ size b - 1) →
  populate_board_with_mines rng b = Some b' →
  wf b'
  ∧ size b' = size b
  ∧ (∀ r, is_revealed b' r = is_revealed b r)
  ∧ (∀ r t', deref (board b') r = Some t' →
             ∃ t, deref (board b) r = Some t
                  ∧ (t' = t ∨ t' = set_tile_type "mine" t)).
Proof.
  intros (Hsh & Hco & Hk) Hsz Hrng E.
  destruct (populate_result b rng Hsh Hsz Hrng)
    as (b'' & E' & Hs & _ & _ & Hsh' & Hder).
  rewrite E in E'. injection E' as <-.
  assert (Hinv : ∀ r t', deref (board b') r = Some t' →
                         ∃ t, deref (board b) r = Some t
                              ∧ (t' = t ∨ t' = set_tile_type "mine" t)).
  { intros r t'. rewrite Hder. case_decide; [|eauto].
    destruct (deref (board b) r) as [t|]; [|done]. simpl. intros [= <-]. eauto. }
  split; [|split; [done|split; [|done]]].
  - split; [done|]. split.
    + intros r t' Ht'. destruct (Hinv _ _ Ht') as (t & Ht & [-> | ->]);
        apply (Hco _ _ Ht).
    + intros r t' Ht'. destruct (Hinv _ _ Ht') as (t & Ht & [-> | ->]);
        [apply (Hk _ _ Ht)|by right].
  - intros r. unfold is_revealed. rewrite Hder. case_decide; [|done].
    by destruct (deref (board b) r).
Qed.


(** ** One call of [evaluate_tile] *)

Lemma NoDup_omap_inj {A B} (f : A → option B) (l : list A) :
  (∀ a a' b, a ∈ l → a' ∈ l → f a = Some b → f a' = Some b → a = a') →
  NoDup l → NoDup (omap f l).
Proof.
  intros Hinj Hnd. induction Hnd as [|a l Ha Hnd IH]; [constructor|].
  assert (IH' : NoDup (omap f l)).
  { apply IH. intros a1 a2 b ????. apply (Hinj a1 a2 b); auto;
      by apply list_elem_of_further. }
  simpl. destruct (f a) as [b|] eqn:E; [|done].
  apply NoDup_cons. split; [|done]. intros Hin.
  apply list_elem_of_omap in Hin as (a' & Ha' & E').
  assert (a = a'); [|by subst].
  apply (Hinj a a' b); auto; [apply list_elem_of_here|by apply list_elem_of_further].
Qed.

Lemma omap_id_fmap {A B} (f : A → option B) (l : list A) :
  omap id (f <$> l) = omap f l.
Proof.
  induction l as [|a l IH]; [done|]. cbn. destruct (f a); cbn; by rewrite <- IH.
Qed.

Lemma NoDup_neighbour_coords cx cy : NoDup (neighbour_coords cx cy).
Proof.
  unfold neighbour_coords.
  repeat (apply NoDup_cons; split;
          [rewrite ?elem_of_cons, ?elem_of_nil; intros H;
           repeat destruct H as [H|H]; try done; inversion H; lia|]).
  constructor.
Qed.

Lemma NoDup_adjacent_tiles b cx cy : shaped b → NoDup (adjacent_tiles b cx cy).
Proof.
  intros Hsh. unfold adjacent_tiles. apply NoDup_filter.
  rewrite omap_id_fmap. apply NoDup_omap_inj; [|apply NoDup_neighbour_coords].
  intros [x1 y1] [x2 y2] r _ _ H1 H2. simpl in *.
  apply get_tile_Some in H1 as (? & ? & ->); [|done].
  apply get_tile_Some in H2 as (? & ? & [= E1 E2]); [|done].
  f_equal; lia.
Qed.

Lemma recurses_for_each depth l :
  ∀ s s', Py.for_each (visit (evaluate_tile depth)) l s = Some s'
          ↔ recurses depth l s s'.
Proof.
  induction l as [|r l IH]; intros [b calls] s'.
  - split; [intros [= <-]; constructor|]. by inversion 1.
  - rewrite for_each_cons. split.
    + destruct (visit _ _ r) as [[b1 out1]|] eqn:E; [|done]. simpl.
      apply visit_Some in E as (calls1 & E & ->). simpl in E.
      intros H. apply IH in H. by apply (recurses_cons _ _ _ _ _ b1 calls1).
    + inversion 1 as [|? ? ? ? b1 calls1 ? E Hrest]; subst.
      assert (Hv : visit (evaluate_tile depth) (b, calls) r
                   = Some (b1, (calls ++ calls1)%list)).
      { apply visit_Some. exists calls1. by split. }
      rewrite Hv. simpl. by apply IH.
Qed.

(** C3: a call of [evaluate_tile] collects, each once, the valid neighbours
    of the tile that are not yet revealed, counts the mines among them (the
    count is the number of hidden mines next to the tile), then sets the
    tile's [revealed] to true, its type to ['empty'] and its
    [n_adjacent_mines] to the count, whatever the count, writing no other
    tile.  When the count is not zero it returns at once: no other
    invocation is made.  When the count is zero it invokes [evaluate_tile] on
    each collected neighbour in turn, each on the board left by the
    invocation before, and returns what the last one leaves: on a
    well-formed board every collected neighbour has then been invoked and is
    revealed and typed ['empty'], and the tile keeps its three values. *)
Theorem evaluate_tile_step depth b tile t :
  deref (board b) tile = Some t →
  let collected := adjacent_tiles b (x t) (y t) in
  let count := count_mines b collected in
  let b1 := mutate_tile (mark count) tile b in
  (wf b → NoDup collected
          ∧ ∀ r, r ∈ collected ↔
                 neighbour tile r ∧ on_board b r ∧ is_revealed b r = false)
  ∧ count = Z.of_nat (length (filter (λ r, is_mine b r = true) collected))
  ∧ (wf b → ∀ l, NoDup l →
       (∀ q, q ∈ l ↔ neighbour tile q ∧ on_board b q
                     ∧ is_revealed b q = false ∧ is_mine b q = true) →
       count = Z.of_nat (length l))
  ∧ deref (board b1) tile = Some (mkTile "empty" true (x t) (y t) count)
  ∧ (∀ r, r ≠ tile → deref (board b1) r = deref (board b) r)
  ∧ (count ≠ 0 → evaluate_tile (S depth) b tile = Some (b1, [tile]))
  ∧ (count = 0 →
     ∀ b' calls, evaluate_tile (S depth) b tile = Some (b', calls)
                 ↔ recurses depth collected (b1, [tile]) (b', calls))
  ∧ (wf b → ∀ b' calls,
       evaluate_tile (S depth) b tile = Some (b', calls) →
       deref (board b') tile = Some (mkTile "empty" true (x t) (y t) count)
       ∧ (count = 0 →
          ∀ r, r ∈ collected →
               r ∈ calls ∧ is_revealed b' r = true ∧ is_mine b' r = false)).
Proof.
  intros Ht collected count b1.
  assert (Hcoll : wf b → ∀ r, r ∈ collected ↔
            neighbour tile r ∧ on_board b r ∧ is_revealed b r = false).
  { intros (Hsh & Hco & _) r. unfold collected.
    destruct (Hco _ _ Ht) as [-> ->]. by apply adjacent_tiles_spec. }
  assert (Hnd : wf b → NoDup collected).
  { intros (Hsh & _). by apply NoDup_adjacent_tiles. }
  assert (Hb1 : deref (board b1) tile
                = Some (mkTile "empty" true (x t) (y t) count)).
  { unfold b1. simpl. by rewrite deref_mutate_eq, Ht. }
  pose proof (count_mines_nonneg b collected) as Hnn. fold count in Hnn.
  assert (Hstep : evaluate_tile (S depth) b tile =
                  if 0 <? count then Some (b1, [tile])
                  else Py.for_each (visit (evaluate_tile depth)) collected
                                   (b1, [tile])).
  { rewrite evaluate_tile_S, Ht. done. }
  split; [by split; auto|]. split; [apply count_mines_length|].
  split; [|split; [done|]].
  { intros Hwf l Hl Hmem. unfold count. rewrite count_mines_length. f_equal.
    apply Permutation_length, NoDup_Permutation;
      [by apply NoDup_filter, Hnd|done|].
    intros q. rewrite list_elem_of_filter, (Hcoll Hwf), Hmem. tauto. }
  split; [intros r Hr; unfold b1; simpl; by rewrite deref_mutate_ne|].
  split; [|split].
  - intros Hc. rewrite Hstep. destruct (Z.ltb_spec 0 count); [done|lia].
  - intros Hc b' calls. rewrite Hstep.
    destruct (Z.ltb_spec 0 count); [lia|]. apply recurses_for_each.
  - intros Hwf b' calls E.
    pose proof (proj1 Evaluates_marked_only _ _ _ _
                  (evaluate_tile_sound _ _ _ _ _ E)) as Hfull.
    revert E. rewrite Hstep. destruct (Z.ltb_spec 0 count) as [Hc|Hc].
    + intros [= <- <-]. split; [done|lia].
    + intros E.
      apply (visit_all_sound _ (evaluate_tile_sound depth)) in E
        as (calls' & -> & Hall).
      pose proof (proj2 Evaluates_marked_only _ _ _ _ Hall) as Hmk.
      split.
      * rewrite <- Hb1. apply (marked_only_outside Hmk). intros Hin.
        destruct (proj2 Evaluates_calls_hidden _ _ _ _ Hall tile Hin) as [Hl|Hh].
        -- apply (Hcoll Hwf) in Hl as ((Hne & _) & _). done.
        -- unfold b1 in Hh. rewrite is_revealed_mark_eq in Hh; [done|eauto].
      * intros _ r Hr.
        assert (Hin : r ∈ ([tile] ++ calls')%list).
        { apply elem_of_app. right.
          by apply (EvaluatesAll_visits _ _ _ _ Hall). }
        split; [done|].
        apply (marked_only_called Hfull); [done| |apply Hwf].
        by apply (Hcoll Hwf) in Hr as (_ & ? & _).
Qed.

(** ** Every operation only advances the tiles *)

Lemma tile_advances_refl t : tile_advances t t.
Proof. by split. Qed.

Lemma advances_refl b : advances b b.
Proof. intros r. destruct (deref (board b) r); [apply tile_advances_refl|done]. Qed.

Lemma advances_trans b1 b2 b3 : advances b1 b2 → advances b2 b3 → advances b1 b3.
Proof.
  intros H12 H23 r. specialize (H12 r). specialize (H23 r).
  destruct (deref (board b1) r) as [t1|], (deref (board b2) r) as [t2|],
    (deref (board b3) r) as [t3|]; try done.
  destruct H12 as [A1 A2], H23 as [B1 B2]. split; [auto|].
  intros H3. rewrite (B2 H3). apply A2.
  destruct (revealed t2) eqn:E; [|done]. rewrite B1 in H3; done.
Qed.

Lemma advances_mutate f r b :
  (∀ t, tile_advances t (f t)) → advances b (mutate_tile f r b).
Proof.
  intros Hf r'. simpl. rewrite deref_mutate. case_decide as E.
  - subst. destruct (deref (board b) r'); simpl; auto.
  - destruct (deref (board b) r'); [apply tile_advances_refl|done].
Qed.

Lemma advances_reveal_all b : advances b (with_board (reveal_all (board b)) b).
Proof.
  intros r. simpl. rewrite deref_reveal_all.
  destruct (deref (board b) r); simpl; [|done]. by split.
Qed.

Lemma advances_marked_only calls b b' : marked_only calls b b' → advances b b'.
Proof.
  intros Hmk r. destruct (deref (board b) r) as [t|] eqn:Ht.
  - destruct (marked_only_deref Hmk _ _ Ht) as (t' & -> & [-> | [c ->]]);
      by split.
  - destruct (deref (board b') r) as [t'|] eqn:Ht'; [|done].
    destruct (marked_only_deref_inv Hmk _ _ Ht') as (t & Ht0 & _). congruence.
Qed.

Lemma advances_plant_all coords :
  ∀ b b', Py.for_each plant coords b = Some b' → advances b b'.
Proof.
  induction coords as [|c coords IH]; intros b b'.
  - intros [= <-]. apply advances_refl.
  - rewrite for_each_cons. destruct (plant b c) as [b1|] eqn:E1; [|done].
    simpl. intros E. unfold plant in E1.
    destruct (get_tile b c.1 c.2) as [tile|]; [|done]. injection E1 as <-.
    eapply advances_trans; [|by apply IH]. apply advances_mutate. by split.
Qed.

Lemma advances_populate rng b b' :
  populate_board_with_mines rng b = Some b' → advances b b'.
Proof.
  unfold populate_board_with_mines. intros E.
  apply bind_Some in E as (xs & _ & E). apply bind_Some in E as (ys & _ & E).
  apply advances_plant_all in E. exact E.
Qed.

Lemma advances_check_if_mine b tile b' out ok :
  check_if_mine b tile = Some (b', out, ok) → advances b b'.
Proof.
  unfold check_if_mine. destruct (deref (board b) tile) as [t|]; [|done]. simpl.
  destruct (String.eqb _ _).
  - destruct (display_board _); [|done]. simpl. intros [= <- _ _].
    eapply advances_trans; [|apply advances_reveal_all].
    apply advances_mutate. by split.
  - intros [= <- _ _]. apply advances_refl.
Qed.

Lemma advances_evaluate_tile depth b tile b' calls :
  evaluate_tile depth b tile = Some (b', calls) → advances b b'.
Proof.
  intros E. apply evaluate_tile_sound, Evaluates_marked_only in E.
  by apply (advances_marked_only calls).
Qed.

Lemma advances_turn depth b cx cy b' keep calls :
  turn depth b cx cy = Some (b', keep, calls) → advances b b'.
Proof.
  unfold turn. destruct (display_board b); [|done]. simpl.
  destruct (get_tile b cx cy) as [tile|]; [|done].
  destruct (is_revealed b tile); [intros [= <- _ _]; apply advances_refl|].
  destruct (check_if_mine _ tile) as [[[b1 out] ok]|] eqn:E1; [|done]. simpl.
  destruct (evaluate_tile depth b1 tile) as [[b2 calls2]|] eqn:E2; [|done].
  simpl. intros [= <- _ _].
  eapply advances_trans; [|by eapply advances_evaluate_tile].
  eapply advances_trans; [|by eapply advances_check_if_mine].
  apply advances_mutate. by split.
Qed.

Lemma advances_perform depth b op b' : perform depth b op = Some b' → advances b b'.
Proof.
  destruct op as [rng|cx cy|tile|tile| |cx cy]; simpl.
  - apply advances_populate.
  - intros [= <-]. apply advances_refl.
  - destruct (check_if_mine b tile) as [[[b1 out] ok]|] eqn:E; [|done].
    simpl. intros [= <-]. by eapply advances_check_if_mine.
  - destruct (evaluate_tile depth b tile) as [[b1 calls]|] eqn:E; [|done].
    simpl. intros [= <-]. by eapply advances_evaluate_tile.
  - destruct (display_board b); [|done]. simpl. intros [= <-]. apply advances_refl.
  - destruct (turn depth b cx cy) as [[[b1 keep] calls]|] eqn:E; [|done].
    simpl. intros [= <-]. by eapply advances_turn.
Qed.

Lemma advances_perform_all depth ops :
  ∀ b b', Py.for_each (perform depth) ops b = Some b' → advances b b'.
Proof.
  induction ops as [|op ops IH]; intros b b'.
  - intros [= <-]. apply advances_refl.
  - rewrite for_each_cons.
    destruct (perform depth b op) as [b1|] eqn:E; [|done]. simpl. intros E'.
    eapply advances_trans; [by eapply advances_perform|by apply IH].
Qed.

Lemma advances_revealed b b' r :
  advances b b' → is_revealed b r = true → is_revealed b' r = true.
Proof.
  intros H. specialize (H r). unfold is_revealed.
  destruct (deref (board b) r), (deref (board b') r); try done. by destruct H.
Qed.

Lemma advances_hidden_unnumbered b b' :
  advances b b' → hidden_unnumbered b → hidden_unnumbered b'.
Proof.
  intros H Hb r t' Ht' Hhid. specialize (H r). rewrite Ht' in H.
  destruct (deref (board b) r) as [t|] eqn:Ht; [|done].
  destruct H as [H1 H2]. rewrite (H2 Hhid). apply (Hb r t Ht).
  destruct (revealed t); [|done]. rewrite H1 in Hhid; done.
Qed.

(** C9: whatever operations run, in whatever order (mine placement,
    [get_tile], [check_if_mine], [evaluate_tile], rendering, turns of the
    game loop), a tile that is revealed stays revealed. *)
Theorem revealed_is_monotone depth ops b b' r :
  Py.for_each (perform depth) ops b = Some b' →
  is_revealed b r = true → is_revealed b' r = true.
Proof.
  intros E. apply advances_revealed. by apply (advances_perform_all depth ops).
Qed.

Lemma hidden_unnumbered_new size0 difficulty0 b :
  new_board size0 difficulty0 = Some b → hidden_unnumbered b.
Proof.
  unfold new_board. destruct (set_number_of_mines _ _); [|done]. simpl.
  intros [= <-] r t. simpl. rewrite board_init_deref. case_decide; [|done].
  by intros [= <-].
Qed.

Lemma Tile_repr_hidden t :
  revealed t = false → n_adjacent_mines t = 0 → Tile_repr t = Some "?".
Proof. unfold Tile_repr. by intros -> ->. Qed.

(** C10: every operation preserves the invariant that a hidden tile has
    [n_adjacent_mines = 0]; so on every board the program can reach from a
    new one, every hidden tile is rendered as the placeholder ['?'], never
    as a digit. *)
Theorem hidden_tiles_render_unknown depth :
  (∀ op b b',
     hidden_unnumbered b → perform depth b op = Some b' → hidden_unnumbered b')
  ∧ (∀ size0 difficulty0 b0 ops b r t,
       new_board size0 difficulty0 = Some b0 →
       Py.for_each (perform depth) ops b0 = Some b →
       deref (board b) r = Some t → revealed t = false →
       n_adjacent_mines t = 0 ∧ Tile_repr t = Some "?").
Proof.
  split.
  - intros op b b' Hb E. apply (advances_hidden_unnumbered b); [|done].
    by apply (advances_perform depth b op).
  - intros size0 difficulty0 b0 ops b r t Hnew Hops Ht Hhid.
    assert (Hb : hidden_unnumbered b).
    { apply (advances_hidden_unnumbered b0).
      - by apply (advances_perform_all depth ops).
      - by apply (hidden_unnumbered_new size0 difficulty0). }
    split; [by apply (Hb r t)|]. apply Tile_repr_hidden; [done|].
    by apply (Hb r t).
Qed.

(** ** The sample boards *)

Lemma sample_new_eq : new_board 4 "easy" = Some sample_new.
Proof. vm_compute. reflexivity. Qed.

Lemma sample_board_eq :
  populate_board_with_mines sample_rng sample_new = Some sample_board.
Proof. vm_compute. reflexivity. Qed.

Lemma sample_played_eq :
  Py.for_each (perform 16) [Turn 3 3] sample_board = Some sample_played.
Proof. vm_compute. reflexivity. Qed.

Lemma small_board_eq :
  new_board 2 "easy" ≫= populate_board_with_mines sample_rng = Some small_board.
Proof. vm_compute. reflexivity. Qed.

Lemma sample_rng_in_range k :
  (k < 2 * Z.to_nat (n_total_mines sample_new))%nat → 0 ≤ sample_rng k ≤ 4 - 1.
Proof. intros _. unfold sample_rng. lia. Qed.

Lemma sample_board_wf : wf sample_board.
Proof.
  assert (Hnew : wf sample_new).
  { apply (new_board_wf 4 "easy"); [lia|apply sample_new_eq]. }
  apply (populate_wf sample_new sample_rng sample_board Hnew).
  - left. vm_compute. congruence.
  - apply sample_rng_in_range.
  - apply sample_board_eq.
Qed.

Lemma small_board_wf : wf small_board.
Proof. apply (wf_board_init 2 "easy" 0). lia. Qed.

Lemma all_hidden_no_revealed_mine b :
  (∀ r, is_revealed b r = false) → no_revealed_mine b.
Proof. intros H r _. apply H. Qed.

Lemma all_hidden_zeros_closed b tile :
  (∀ r, is_revealed b r = false) → zeros_closed b tile.
Proof. intros H z q _ Hz. rewrite H in Hz. done. Qed.

Lemma sample_board_hidden r : is_revealed sample_board r = false.
Proof.
  destruct (populate_wf sample_new sample_rng sample_board) as (_ & _ & Hrev & _).
  - apply (new_board_wf 4 "easy"); [lia|apply sample_new_eq].
  - left. vm_compute. congruence.
  - apply sample_rng_in_range.
  - apply sample_board_eq.
  - rewrite Hrev. unfold is_revealed. change (board sample_new) with (board_init 4).
    rewrite board_init_deref. by case_decide.
Qed.

Lemma small_board_hidden r : is_revealed small_board r = false.
Proof.
  unfold is_revealed. change (board small_board) with (board_init 2).
  rewrite board_init_deref. by case_decide.
Qed.

Lemma small_board_no_mine r : is_mine small_board r = false.
Proof.
  unfold is_mine. change (board small_board) with (board_init 2).
  rewrite board_init_deref. by case_decide.
Qed.

Lemma sample_continued_eq :
  Py.for_each (perform 16) [Turn 0 0; Display; GetTile 9 9] sample_played
  = Some sample_continued.
Proof. vm_compute. reflexivity. Qed.

Lemma no_mine_around_sample : no_mine_around sample_board (3, 3)%nat.
Proof.
  apply no_mine_around_Forall. unfold around. simpl.
  repeat constructor; intros _; reflexivity.
Qed.

Lemma sample_board_playable : playable sample_board (3, 3)%nat.
Proof.
  split; [apply sample_board_wf|].
  split; [apply all_hidden_no_revealed_mine, sample_board_hidden|].
  split; [|reflexivity]. split; simpl; lia.
Qed.

(** ** The theorems at the sample boards *)

Lemma get_tile_in_range_or_absent_witness :
  shaped sample_board
  ∧ ∃ r t, get_tile sample_board 1 1 = Some r
           ∧ deref (board sample_board) r = Some t
           ∧ tile_at sample_board 1 1 = Some t.
Proof.
  split; [apply sample_board_wf|].
  apply (get_tile_in_range_or_absent sample_board 1 1 (proj1 sample_board_wf)).
  simpl. lia.
Defined.

Lemma check_if_mine_spec_witness :
  kinds_ok sample_board
  ∧ deref (board sample_board) (1, 1)%nat = Some (mkTile "mine" false 1 1 0)
  ∧ ∃ b' out ok,
      check_if_mine sample_board (1, 1)%nat = Some (b', out, ok)
      ∧ (ok = false ↔ "mine" = "mine")
      ∧ (ok = false →
         Forall (Forall (λ t', revealed t' = true)) (board b')
         ∧ length (board b') = length (board sample_board)
         ∧ (∀ r, deref (board b') r
                 = set_revealed true <$> deref (board sample_board) r)
         ∧ size b' = size sample_board
         ∧ difficulty b' = difficulty sample_board
         ∧ n_total_mines b' = n_total_mines sample_board
         ∧ ∃ rest,
             out = (Py.str 1 +:+ "," +:+ Py.str 1
                    +:+ " is a mine! You lose!") :: rest
             ∧ display_board b' = Some rest)
      ∧ ("mine" ≠ "mine" → ok = true ∧ b' = sample_board ∧ out = []).
Proof.
  split; [apply sample_board_wf|]. split; [reflexivity|].
  apply (check_if_mine_spec sample_board (1, 1)%nat (mkTile "mine" false 1 1 0)).
  - apply sample_board_wf.
  - reflexivity.
Defined.

Lemma evaluate_tile_depth_bounded_witness :
  wf sample_board ∧ on_board sample_board (3, 3)%nat
  ∧ ∃ b' calls,
      evaluate_tile 16 sample_board (3, 3)%nat = Some (b', calls)
      ∧ ∀ depth, (16 ≤ depth)%nat →
                 evaluate_tile depth sample_board (3, 3)%nat = Some (b', calls).
Proof.
  split; [apply sample_board_wf|]. split; [split; simpl; lia|].
  apply (evaluate_tile_depth_bounded sample_board (3, 3)%nat).
  - apply sample_board_wf.
  - split; simpl; lia.
Defined.


Lemma evaluate_tile_step_witness :
  deref (board sample_board) (3, 3)%nat = Some (mkTile "empty" false 3 3 0)
  ∧ count_mines sample_board (adjacent_tiles sample_board 3 3) = 0
  ∧ wf sample_board
  ∧ NoDup (adjacent_tiles sample_board 3 3)
  ∧ ((2, 2)%nat ∈ adjacent_tiles sample_board 3 3)
  ∧ ∃ b' calls,
      evaluate_tile 16 sample_board (3, 3)%nat = Some (b', calls)
      ∧ recurses 15 (adjacent_tiles sample_board 3 3)
                 (mutate_tile (mark 0) (3, 3)%nat sample_board, [(3, 3)%nat])
                 (b', calls)
      ∧ (2, 2)%nat ∈ calls
      ∧ is_revealed b' (2, 2)%nat = true
      ∧ is_mine b' (2, 2)%nat = false.
Proof.
  assert (Ht : deref (board sample_board) (3, 3)%nat
               = Some (mkTile "empty" false 3 3 0)) by reflexivity.
  assert (Hc : count_mines sample_board (adjacent_tiles sample_board 3 3) = 0)
    by reflexivity.
  assert (Hin : (2, 2)%nat ∈ adjacent_tiles sample_board 3 3).
  { vm_compute. apply list_elem_of_here. }
  assert (Hon : on_board sample_board (3, 3)%nat) by (split; simpl; lia).
  destruct (evaluate_tile_step 15 sample_board (3, 3)%nat
              (mkTile "empty" false 3 3 0) Ht)
    as (Hcoll & _ & _ & _ & _ & _ & Hrec & Hres).
  destruct (evaluate_tile_returns sample_board (3, 3)%nat sample_board_wf Hon)
    as (b' & calls & E).
  change (Z.to_nat (size sample_board * size sample_board)) with 16%nat in E.
  split; [exact Ht|]. split; [exact Hc|]. split; [exact sample_board_wf|].
  split; [exact (proj1 (Hcoll sample_board_wf))|]. split; [exact Hin|].
  exists b', calls. split; [exact E|].
  split; [exact (proj1 (Hrec Hc b' calls) E)|].
  exact (proj2 (Hres sample_board_wf b' calls E) Hc (2, 2)%nat Hin).
Defined.

Lemma revealed_is_monotone_witness :
  Py.for_each (perform 16) [Turn 0 0; Display; GetTile 9 9] sample_played
  = Some sample_continued
  ∧ is_revealed sample_played (3, 3)%nat = true
  ∧ is_revealed sample_continued (3, 3)%nat = true.
Proof.
  split; [apply sample_continued_eq|]. split; [reflexivity|].
  apply (revealed_is_monotone 16 [Turn 0 0; Display; GetTile 9 9]
           sample_played sample_continued (3, 3)%nat).
  - apply sample_continued_eq.
  - reflexivity.
Defined.

Lemma hidden_tiles_render_unknown_witness :
  new_board 4 "easy" = Some sample_new
  ∧ Py.for_each (perform 16) [Populate sample_rng; Turn 3 3] sample_new
    = Some sample_played
  ∧ deref (board sample_played) (0, 0)%nat = Some (mkTile "empty" false 0 0 0)
  ∧ n_adjacent_mines (mkTile "empty" false 0 0 0) = 0
  ∧ Tile_repr (mkTile "empty" false 0 0 0) = Some "?".
Proof.
  split; [apply sample_new_eq|].
  assert (E : Py.for_each (perform 16) [Populate sample_rng; Turn 3 3] sample_new
              = Some sample_played) by (vm_compute; reflexivity).
  split; [exact E|]. split; [reflexivity|].
  apply (proj2 (hidden_tiles_render_unknown 16) 4 "easy" sample_new
               [Populate sample_rng; Turn 3 3] sample_played (0, 0)%nat).
  - apply sample_new_eq.
  - exact E.
  - reflexivity.
  - reflexivity.
Defined.

Lemma flood_fill_reveals_region_and_ring_witness :
  playable sample_board (3, 3)%nat
  ∧ zeros_closed sample_board (3, 3)%nat
  ∧ no_mine_around sample_board (3, 3)%nat
  ∧ ∃ b' calls,
      evaluate_tile 16 sample_board (3, 3)%nat = Some (b', calls)
      ∧ (∀ q, is_revealed b' q = true ↔
              is_revealed sample_board q = true
              ∨ region sample_board (3, 3)%nat q
              ∨ ring sample_board (3, 3)%nat q)
      ∧ (∀ q, q ∈ calls ↔
              q = (3, 3)%nat
              ∨ (region sample_board (3, 3)%nat q
                 ∨ ring sample_board (3, 3)%nat q)
                ∧ is_revealed sample_board q = false).
Proof.
  split; [apply sample_board_playable|].
  split; [apply all_hidden_zeros_closed, sample_board_hidden|].
  split; [apply no_mine_around_sample|].
  apply (flood_fill_reveals_region_and_ring sample_board (3, 3)%nat).
  - apply sample_board_playable.
  - apply all_hidden_zeros_closed, sample_board_hidden.
  - apply no_mine_around_sample.
Defined.

(** ** The losing turn *)

(** C1 (the code departs from the claim): on the sample board the player
    selects the mine at (1, 1); [check_if_mine] reports the loss, and the
    loop body still invokes [evaluate_tile] on that tile, whose type is
    ['mine'] at that moment. *)
Theorem evaluate_invoked_on_mine_after_loss :
  ∃ b1 out b',
    check_if_mine (mutate_tile (set_revealed true) (1, 1)%nat sample_board)
                  (1, 1)%nat
    = Some (b1, out, false)
    ∧ is_mine b1 (1, 1)%nat = true
    ∧ evaluate_tile 16 b1 (1, 1)%nat = Some (b', [(1, 1)%nat])
    ∧ turn 16 sample_board 1 1 = Some (b', false, [(1, 1)%nat]).
Proof.
  eexists _, _, _.
  split; [vm_compute; reflexivity|].
  split; [vm_compute; reflexivity|].
  split; vm_compute; reflexivity.
Qed.

(** C2 (the code departs from the claim): in the game on the sample board,
    the sampled position (1, 1) is a mine after placement; once the player
    has selected it and the loop has ended, the type of that tile is
    ['empty']. *)
Theorem mine_type_overwritten_after_loss :
  ∃ b',
    (1, 1) ∈ samples sample_rng (Z.to_nat (n_total_mines sample_new))
    ∧ is_mine sample_board (1, 1)%nat = true
    ∧ minesweeper 16 4 "easy" sample_rng [(1, 1)]
      = Some (b', false, [(1, 1)%nat])
    ∧ deref (board b') (1, 1)%nat = Some (mkTile "empty" true 1 1 0)
    ∧ is_mine b' (1, 1)%nat = false.
Proof.
  eexists.
  split; [apply list_elem_of_here|].
  split; [reflexivity|].
  split; [vm_compute; reflexivity|].
  split; vm_compute; reflexivity.
Qed.

(** ** A tile evaluated more than once *)

Lemma small_board_playable : playable small_board (0, 0)%nat.
Proof.
  split; [apply small_board_wf|].
  split; [apply all_hidden_no_revealed_mine, small_board_hidden|].
  split; [|reflexivity]. split; simpl; lia.
Qed.

(** C4 (counterexample to the claim as stated): on the 2×2 board without
    mines, where every tile has zero adjacent mines, evaluating (0, 0)
    invokes [evaluate_tile] three times on (1, 1) and twice on (1, 0). *)
Lemma flood_fill_evaluates_a_tile_twice :
  playable small_board (0, 0)%nat
  ∧ zeros_closed small_board (0, 0)%nat
  ∧ no_mine_around small_board (0, 0)%nat
  ∧ ∃ b' calls,
      evaluate_tile 4 small_board (0, 0)%nat = Some (b', calls)
      ∧ calls = [(0, 0); (0, 1); (1, 0); (1, 1); (1, 1); (1, 0); (1, 1)]%nat
      ∧ ¬ NoDup calls.
Proof.
  split; [apply small_board_playable|].
  split; [apply all_hidden_zeros_closed, small_board_hidden|].
  split; [intros r _; apply small_board_no_mine|].
  eexists _, _. split; [vm_compute; reflexivity|]. split; [reflexivity|].
  intros H.
  apply NoDup_cons in H as [_ H]. apply NoDup_cons in H as [_ H].
  apply NoDup_cons in H as [_ H]. apply NoDup_cons in H as [H _].
  apply H, list_elem_of_here.
Qed.

(** ** The game loop keeps the board in play *)

Lemma is_mine_set_revealed v r b q :
  is_mine (mutate_tile (set_revealed v) r b) q = is_mine b q.
Proof.
  unfold is_mine. simpl. rewrite deref_mutate. case_decide; [|done].
  subst. by destruct (deref (board b) q).
Qed.

Lemma is_revealed_set_revealed_ne r b q :
  r ≠ q → is_revealed (mutate_tile (set_revealed true) r b) q = is_revealed b q.
Proof. intros. unfold is_revealed. simpl. by rewrite deref_mutate_ne. Qed.

Lemma is_revealed_set_revealed_mono r b q :
  is_revealed b q = true →
  is_revealed (mutate_tile (set_revealed true) r b) q = true.
Proof.
  unfold is_revealed. simpl. rewrite deref_mutate. case_decide; [|done].
  subst. by destruct (deref (board b) q).
Qed.

(** The board on which the loop invokes [evaluate_tile], when the selected
    tile is not a mine, meets the conditions of the flood fill. *)
Lemma in_play_selected b cx cy tile :
  in_play b → get_tile b cx cy = Some tile → is_mine b tile = false →
  let b0 := mutate_tile (set_revealed true) tile b in
  playable b0 tile ∧ zeros_closed b0 tile.
Proof.
  intros (Hwf & Hnrm & Hclosed) Hget Hm b0. pose proof Hwf as (Hsh & _).
  apply get_tile_Some in Hget as (Hx & Hy & ->); [|done].
  split; [split; [|split; [|split]]|].
  - apply wf_mutate; [done| |done]. intros. by left.
  - intros r Hr. unfold b0 in *. rewrite is_mine_set_revealed in Hr.
    rewrite is_revealed_set_revealed_ne; [by apply Hnrm|]. intros <-. congruence.
  - unfold on_board. simpl. lia.
  - unfold b0. by rewrite is_mine_set_revealed.
  - intros z q Hne Hz Hzero Hn Hon. unfold b0 in *.
    rewrite is_revealed_set_revealed_ne in Hz by done.
    apply is_revealed_set_revealed_mono, (Hclosed z q); auto.
    intros r Hr.
    rewrite <- (is_mine_set_revealed true (Z.to_nat cx, Z.to_nat cy) b r).
    by apply Hzero.
Qed.

Lemma Evaluates_in_play b tile b' calls :
  Evaluates b tile b' calls → playable b tile → zeros_closed b tile →
  in_play b' ∧ ∀ r, is_mine b' r = is_mine b r.
Proof.
  intros Hev Hp Hclosed. pose proof Hp as (Hwf & Hnrm & Hon & Hm).
  pose proof (proj1 Evaluates_marked_only _ _ _ _ Hev) as Hmk.
  pose proof (Evaluates_mines_kept _ _ _ _ Hev Hm) as Hmines.
  destruct (proj1 Evaluates_flood _ _ _ _ Hev Hp) as [_ Hcloses].
  destruct (Evaluates_head _ _ _ _ Hev) as [calls' Ecalls].
  split; [|done]. split; [by apply (marked_only_wf Hmk)|].
  split; [by apply (Evaluates_no_revealed_mine _ _ _ _ Hev)|].
  intros z q Hz Hzero Hn Hon'.
  assert (Hzero0 : no_mine_around b z).
  { apply (no_mine_around_ext b'); [|done]. intros. by rewrite Hmines. }
  apply (marked_only_on_board Hmk) in Hon'.
  destruct (decide (z ∈ calls)) as [Hin|Hout]; [by apply (Hcloses z q)|].
  apply (marked_only_revealed Hmk), (Hclosed z q); auto.
  - intros ->. apply Hout. rewrite Ecalls. apply list_elem_of_here.
  - destruct (marked_only_revealed_inv Hmk _ Hz); done.
Qed.

Lemma check_if_mine_survives b tile b1 out :
  check_if_mine b tile = Some (b1, out, true) →
  b1 = b ∧ is_mine b tile = false.
Proof.
  unfold check_if_mine, is_mine.
  destruct (deref (board b) tile) as [t|]; [|done]. simpl.
  destruct (String.eqb _ _); [|by intros [= <- _]].
  destruct (display_board _); [|done]. simpl. by intros [= _ _].
Qed.

Lemma turn_in_play depth b cx cy b' calls :
  in_play b → turn depth b cx cy = Some (b', true, calls) →
  in_play b' ∧ ∀ r, is_mine b' r = is_mine b r.
Proof.
  intros Hplay. unfold turn. destruct (display_board b); [|done]. simpl.
  destruct (get_tile b cx cy) as [tile|] eqn:Hget; [|done].
  destruct (is_revealed b tile); [by intros [= <- _]|].
  destruct (check_if_mine _ tile) as [[[b1 out] ok]|] eqn:E1; [|done]. simpl.
  destruct (evaluate_tile depth b1 tile) as [[b2 calls2]|] eqn:E2; [|done].
  simpl. intros [= <- -> _].
  apply check_if_mine_survives in E1 as [-> Hm].
  rewrite is_mine_set_revealed in Hm.
  destruct (in_play_selected b cx cy tile Hplay Hget Hm) as [Hp Hclosed].
  apply evaluate_tile_sound in E2.
  destruct (Evaluates_in_play _ _ _ _ E2 Hp Hclosed) as [Hplay' Hmines].
  split; [done|]. intros r. by rewrite Hmines, is_mine_set_revealed.
Qed.

(** While the game is not lost, the loop keeps the board in play and never
    changes which tiles are mines. *)
Lemma game_loop_in_play depth inputs :
  ∀ b b' calls,
    in_play b → game_loop depth b inputs = Some (b', true, calls) →
    in_play b' ∧ ∀ r, is_mine b' r = is_mine b r.
Proof.
  induction inputs as [|[cx cy] inputs IH]; intros b b' calls Hplay.
  - by intros [= <- _].
  - simpl. destruct (turn depth b cx cy) as [[[b1 keep] calls1]|] eqn:E1; [|done].
    simpl. destruct keep; [|done].
    destruct (game_loop depth b1 inputs) as [[[b2 keep2] calls2]|] eqn:E2; [|done].
    simpl. intros [= <- -> _].
    destruct (turn_in_play _ _ _ _ _ _ Hplay E1) as [Hplay1 Hm1].
    destruct (IH _ _ _ Hplay1 E2) as [Hplay2 Hm2].
    split; [done|]. intros r. by rewrite Hm2, Hm1.
Qed.

Lemma populated_in_play size0 difficulty0 b rng b' :
  0 ≤ size0 → new_board size0 difficulty0 = Some b →
  (∀ k, (k < 2 * Z.to_nat (n_total_mines b))%nat → 0 ≤ rng k ≤ size0 - 1) →
  populate_board_with_mines rng b = Some b' → in_play b'.
Proof.
  intros Hsize Hnew Hrng Hpop.
  pose proof (new_board_wf _ _ _ Hsize Hnew) as Hwf.
  unfold new_board in Hnew.
  destruct (set_number_of_mines size0 difficulty0) as [m|] eqn:Em; [|done].
  simpl in Hnew. injection Hnew as <-.
  assert (Hm : 1 ≤ size0 ∨ m ≤ 0).
  { destruct (decide (size0 = 0)) as [->|]; [right|left; lia].
    apply set_number_of_mines_nonneg_0 in Em. lia. }
  destruct (populate_wf _ rng b' Hwf Hm Hrng Hpop) as (Hwf' & _ & Hrev & _).
  assert (Hhid : ∀ r, is_revealed b' r = false).
  { intros r. rewrite Hrev. unfold is_revealed. simpl.
    rewrite board_init_deref. by case_decide. }
  split; [done|]. split; [by apply all_hidden_no_revealed_mine|].
  intros z q Hz. rewrite Hhid in Hz. done.
Qed.

(** ** The loop body returns on every valid selection *)

Lemma wf_reveal_all b : wf b → wf (with_board (reveal_all (board b)) b).
Proof.
  intros ((Hs & Hl & Hrow) & Hco & Hk). split; [|split].
  - split; [done|]. simpl. split.
    + unfold reveal_all. by rewrite length_fmap.
    + intros i row. unfold reveal_all. rewrite list_lookup_fmap.
      destruct (board b !! i) as [row0|] eqn:E; [|done]. simpl.
      intros [= <-]. rewrite length_fmap. eauto.
  - intros r t. simpl. rewrite deref_reveal_all.
    destruct (deref (board b) r) as [t0|] eqn:E; [|done]. simpl.
    intros [= <-]. apply (Hco _ _ E).
  - by apply kinds_ok_reveal_all.
Qed.

Lemma check_if_mine_wf b tile b1 out ok :
  wf b → check_if_mine b tile = Some (b1, out, ok) →
  wf b1 ∧ size b1 = size b.
Proof.
  intros Hwf. unfold check_if_mine.
  destruct (deref (board b) tile) as [t|]; [|done]. simpl.
  destruct (String.eqb _ _); [|by intros [= <- _ _]].
  destruct (display_board _); [|done]. simpl. intros [= <- _ _].
  split; [|done]. apply wf_reveal_all, wf_mutate; [done| |done].
  intros. by left.
Qed.

Lemma turn_returns b cx cy :
  wf b → 0 ≤ cx < size b → 0 ≤ cy < size b →
  is_Some (turn (Z.to_nat (size b * size b)) b cx cy).
Proof.
  intros Hwf Hx Hy. pose proof Hwf as (Hsh & _ & Hk). unfold turn.
  destruct (display_board_is_Some b Hk) as [out ->]. simpl.
  rewrite get_tile_inside by done. set (tile := (Z.to_nat cx, Z.to_nat cy)).
  destruct (is_revealed b tile); [by eexists|].
  set (b0 := mutate_tile (set_revealed true) tile b).
  assert (Hwf0 : wf b0).
  { apply wf_mutate; [done| |done]. intros. by left. }
  assert (Hon : on_board b0 tile) by (unfold on_board; simpl; lia).
  destruct (proj2 (shaped_deref b0 tile (proj1 Hwf0)) Hon) as [t Ht].
  assert (Hchk : is_Some (check_if_mine b0 tile)).
  { unfold check_if_mine. rewrite Ht. simpl. destruct (String.eqb _ _); [|by eexists].
    match goal with |- context [display_board ?b1] =>
      destruct (display_board_is_Some b1) as [out1 ->] end; [|by eexists].
    apply kinds_ok_reveal_all, kinds_ok_mutate; [|apply Hwf0]. intros. by left. }
  destruct Hchk as [[[b1 out1] ok] E1]. rewrite E1. simpl.
  destruct (check_if_mine_wf _ _ _ _ _ Hwf0 E1) as [Hwf1 Hsz1].
  destruct (evaluate_tile_returns b1 tile Hwf1) as (b2 & calls & E2).
  { unfold on_board. rewrite Hsz1. exact Hon. }
  rewrite Hsz1 in E2. change (size b0) with (size b) in E2. rewrite E2.
  by eexists.
Qed.

(** * Further properties of the code *)

(** ** The grid built by [board_init] *)

(** X1: [board_init] builds a grid of [size] rows of [size] tiles (none when
    [size] is zero or negative); the tile in row [i], column [j] is of type
    ['empty'], hidden, without number, and records [x = i], [y = j]. *)
Theorem board_init_grid n :
  length (board_init n) = Z.to_nat n
  ∧ (∀ i row, board_init n !! i = Some row → length row = Z.to_nat n)
  ∧ ∀ r t, deref (board_init n) r = Some t ↔
           (r.1 < Z.to_nat n)%nat ∧ (r.2 < Z.to_nat n)%nat
           ∧ t = mkTile "empty" false (Z.of_nat r.1) (Z.of_nat r.2) 0.
Proof.
  split; [|split].
  - unfold board_init. by rewrite length_fmap, range_length.
  - intros i row. unfold board_init. rewrite list_lookup_fmap.
    destruct (Py.range n !! i); [|done]. simpl. intros [= <-].
    by rewrite length_fmap, range_length.
  - intros r t. rewrite board_init_deref. case_decide as H.
    + split; [intros [= <-]; tauto|]. by intros (_ & _ & ->).
    + split; [done|]. tauto.
Qed.

(** ** The loop body on the three kinds of selection *)

(** X2: a selection outside the board makes the loop body fail: [get_tile]
    returns [None], and reading [tile.revealed] raises. *)
Theorem turn_out_of_range_raises depth b cx cy :
  shaped b → ¬ (0 ≤ cx < size b ∧ 0 ≤ cy < size b) →
  turn depth b cx cy = None.
Proof.
  intros Hsh Hout. unfold turn. destruct (display_board b); [|done]. simpl.
  by rewrite get_tile_outside.
Qed.

Lemma turn_revealed depth b cx cy tile :
  kinds_ok b → get_tile b cx cy = Some tile → is_revealed b tile = true →
  turn depth b cx cy = Some (b, true, []).
Proof.
  intros Hk Hget Hrev. unfold turn.
  destruct (display_board_is_Some b Hk) as [out ->]. simpl.
  by rewrite Hget, Hrev.
Qed.

(** X3: selecting a tile that is already revealed changes nothing: the
    board is left as it was, [evaluate_tile] is not invoked, and the loop goes
    on exactly as if the selection had not been typed. *)
Theorem reselecting_is_ignored depth b cx cy tile inputs :
  kinds_ok b → get_tile b cx cy = Some tile → is_revealed b tile = true →
  turn depth b cx cy = Some (b, true, [])
  ∧ game_loop depth b ((cx, cy) :: inputs) = game_loop depth b inputs.
Proof.
  intros Hk Hget Hrev.
  pose proof (turn_revealed depth b cx cy tile Hk Hget Hrev) as E.
  split; [done|]. simpl. rewrite E. simpl.
  destruct (game_loop depth b inputs) as [[[b' keep] calls]|]; done.
Qed.

Lemma check_if_mine_flag b tile b1 out ok :
  check_if_mine b tile = Some (b1, out, ok) → ok = negb (is_mine b tile).
Proof.
  unfold check_if_mine, is_mine.
  destruct (deref (board b) tile) as [t|]; [|done]. simpl.
  destruct (String.eqb _ _); [|by intros [= _ _ <-]].
  destruct (display_board _); [|done]. simpl. by intros [= _ _ <-].
Qed.

(** X4: on a well-formed board every selection inside the board makes the
    loop body return, with a call stack of at most size² frames for
    [evaluate_tile]; it ends the game ([keep_playing] false) exactly when the
    selected tile was hidden and is a mine. *)
Theorem turn_returns_on_valid_selection b cx cy :
  wf b → 0 ≤ cx < size b → 0 ≤ cy < size b →
  ∃ b' keep_playing calls,
    turn (Z.to_nat (size b * size b)) b cx cy = Some (b', keep_playing, calls)
    ∧ (keep_playing = false ↔
       is_revealed b (Z.to_nat cx, Z.to_nat cy) = false
       ∧ is_mine b (Z.to_nat cx, Z.to_nat cy) = true).
Proof.
  intros Hwf Hx Hy. pose proof Hwf as (Hsh & _ & Hk).
  destruct (turn_returns b cx cy Hwf Hx Hy) as [[[b' keep] calls] E].
  exists b', keep, calls. split; [done|].
  unfold turn in E. destruct (display_board b); [|done]. simpl in E.
  rewrite get_tile_inside in E by done.
  destruct (is_revealed b (Z.to_nat cx, Z.to_nat cy)) eqn:Hrev.
  - injection E as <- <- <-. split; [done|]. by intros [? _].
  - destruct (check_if_mine _ _) as [[[b1 out] ok]|] eqn:E1; [|done].
    simpl in E. destruct (evaluate_tile _ b1 _) as [[b2 calls2]|]; [|done].
    simpl in E. injection E as <- <- <-.
    apply check_if_mine_flag in E1. rewrite is_mine_set_revealed in E1.
    subst ok. destruct (is_mine b _); simpl; split; try done; by intros [_ ?].
Qed.

Lemma deref_mutate_tile f r b r' :
  deref (board (mutate_tile f r b)) r' =
  if decide (r = r') then f <$> deref (board b) r else deref (board b) r'.
Proof. apply deref_mutate. Qed.

Lemma adjacent_tiles_all_revealed b cx cy :
  all_revealed b → adjacent_tiles b cx cy = [].
Proof.
  intros Hall. unfold adjacent_tiles.
  destruct (filter _ _) as [|r l] eqn:E; [done|]. exfalso.
  assert (Hin : r ∈ filter (λ r, is_revealed b r = false)
                  (omap id ((λ c, get_tile b c.1 c.2) <$> neighbour_coords cx cy)))
    by (rewrite E; apply list_elem_of_here).
  apply list_elem_of_filter in Hin as [Hhid Hin].
  apply list_elem_of_omap in Hin as (o & Ho & Hid). simpl in Hid. subst o.
  apply list_elem_of_fmap in Ho as (c & Hg & _). symmetry in Hg.
  unfold get_tile in Hg.
  destruct (_ || _); [done|]. destruct (_ || _); [done|].
  destruct (Py.slot _ c.1) as [i|]; [|done]. simpl in Hg.
  destruct (board b !! i) as [row|] eqn:Hrow; [|done]. simpl in Hg.
  destruct (Py.slot _ c.2) as [j|]; [|done]. simpl in Hg.
  destruct (row !! j) as [t|] eqn:Ht; [|done]. simpl in Hg. injection Hg as <-.
  unfold is_revealed, deref in Hhid. simpl in Hhid. rewrite Hrow in Hhid.
  simpl in Hhid. rewrite Ht in Hhid.
  rewrite (Hall (i, j) t) in Hhid; [done|]. unfold deref. simpl.
  by rewrite Hrow.
Qed.

Lemma all_revealed_reveal_all b : all_revealed (with_board (reveal_all (board b)) b).
Proof.
  intros r t. simpl. rewrite deref_reveal_all.
  destruct (deref (board b) r); [|done]. simpl. by intros [= <-].
Qed.

(** X7: selecting a hidden mine on a well-formed board ends the game: the
    loop body returns [keep_playing = False] and the loop reads no further
    input; every tile is revealed afterwards; the unguarded call of
    [evaluate_tile] is the only invocation (it finds no hidden neighbour and
    does not recurse), and every other tile keeps its type. *)
Theorem selecting_a_mine_ends_the_game depth b cx cy tile inputs :
  wf b → get_tile b cx cy = Some tile →
  is_revealed b tile = false → is_mine b tile = true →
  ∃ b', turn (S depth) b cx cy = Some (b', false, [tile])
        ∧ game_loop (S depth) b ((cx, cy) :: inputs) = Some (b', false, [tile])
        ∧ all_revealed b'
        ∧ ∀ r, r ≠ tile → is_mine b' r = is_mine b r.
Proof.
  intros Hwf Hget Hhid Hmine. pose proof Hwf as (Hsh & _ & Hk).
  set (b0 := mutate_tile (set_revealed true) tile b).
  set (b0' := mutate_tile (set_revealed true) tile b0).
  set (b1 := with_board (reveal_all (board b0')) b0').
  assert (Hk1 : kinds_ok b1).
  { apply kinds_ok_reveal_all, kinds_ok_mutate; [intros; by left|].
    apply kinds_ok_mutate; [|done]. intros. by left. }
  destruct (display_board_is_Some b Hk) as [out Hout].
  destruct (display_board_is_Some b1 Hk1) as [out1 Hout1].
  assert (Hon : is_Some (deref (board b) tile)).
  { apply (shaped_deref _ _ Hsh).
    apply get_tile_Some in Hget as (? & ? & ->); [|done].
    unfold on_board. simpl. lia. }
  destruct Hon as [t Ht].
  assert (Ht0 : deref (board b0) tile = Some (set_revealed true t)).
  { unfold b0. simpl. by rewrite deref_mutate_eq, Ht. }
  assert (Hm : String.eqb (tile_type t) "mine" = true).
  { unfold is_mine in Hmine. by rewrite Ht in Hmine. }
  assert (Hchk : ∃ msg, check_if_mine b0 tile = Some (b1, msg, false)).
  { unfold check_if_mine. rewrite Ht0.
    cbn -[display_board with_board mutate_tile reveal_all board String.eqb].
    change (tile_type (set_revealed true t)) with (tile_type t). rewrite Hm.
    unfold b1, b0' in Hout1 |- *. rewrite Hout1. by eexists. }
  destruct Hchk as [msg Hchk].
  assert (Hall1 : all_revealed b1) by apply all_revealed_reveal_all.
  assert (Ht1 : deref (board b1) tile = Some (set_revealed true t)).
  { unfold b1, b0'. simpl. rewrite deref_reveal_all, deref_mutate_eq.
    change (mutate (set_revealed true) tile (board b)) with (board b0).
    by rewrite Ht0. }
  set (b' := mutate_tile (mark 0) tile b1).
  assert (Hev : evaluate_tile (S depth) b1 tile = Some (b', [tile])).
  { rewrite evaluate_tile_S, Ht1. simpl.
    rewrite adjacent_tiles_all_revealed by done. done. }
  assert (Hturn : turn (S depth) b cx cy = Some (b', false, [tile])).
  { unfold turn. rewrite Hout. cbn -[evaluate_tile check_if_mine mutate_tile].
    rewrite Hget, Hhid. fold b0. rewrite Hchk.
    cbn -[evaluate_tile]. rewrite Hev. done. }
  exists b'. split; [done|]. split; [|split].
  - simpl game_loop. rewrite Hturn. done.
  - intros r t'. unfold b'. rewrite deref_mutate_tile. case_decide.
    + rewrite Ht1. simpl. by intros [= <-].
    + apply Hall1.
  - intros r Hne. unfold is_mine, b', b1, b0', b0. simpl.
    rewrite deref_mutate_ne by done. rewrite deref_reveal_all.
    rewrite !deref_mutate_ne by done. by destruct (deref (board b) r).
Qed.

(** ** Rendering *)

Lemma mapM_length_is_Some {A B} (f : A → option B) (l : list A) :
  (∀ a, a ∈ l → is_Some (f a)) →
  ∃ k, mapM f l = Some k ∧ length k = length l.
Proof.
  intros H. destruct (mapM_is_Some_2 f l) as [k E].
  { apply Forall_forall. intros a Ha. by apply H. }
  exists k. split; [done|]. symmetry. by apply (length_mapM f).
Qed.

(** X11: on a board whose tile types are ['empty'] or ['mine'],
    [display_board] never raises, and prints the header, the dashed line and
    one line per row of the grid. *)
Theorem display_board_prints_every_row b :
  kinds_ok b →
  ∃ header dashes rows,
    display_board b = Some (header :: dashes :: rows)
    ∧ length rows = length (board b).
Proof.
  intros Hk. unfold display_board.
  match goal with |- context [mbind _ (mapM ?f ?l)] =>
    destruct (mapM_length_is_Some f l) as (rows & E & Hlen) end.
  - intros [i row] Hin.
    apply elem_of_lookup_imap_1 in Hin as (i' & row' & [= -> ->] & Hrow).
    simpl.
    match goal with |- is_Some (mbind _ ?m) => assert (Hr : is_Some m) end.
    { apply mapM_is_Some, Forall_forall. intros t Ht. simpl.
      apply list_elem_of_lookup in Ht as [j Hj].
      destruct (Tile_repr_is_Some t) as [s ->]; [|by eexists].
      apply (Hk (i', j)). unfold deref. simpl. by rewrite Hrow. }
    destruct Hr as [? ->]. by eexists.
  - rewrite E. simpl. eexists _, _, rows. split; [done|].
    by rewrite Hlen, length_imap.
Qed.

(** ** The counter is the number of adjacent mines *)

Lemma omap_length_le {A B} (f : A → option B) (l : list A) :
  (length (omap f l) ≤ length l)%nat.
Proof.
  induction l as [|a l IH]; [done|]. cbn. destruct (f a); cbn; lia.
Qed.

Lemma adjacent_tiles_length b cx cy : (length (adjacent_tiles b cx cy) ≤ 8)%nat.
Proof.
  unfold adjacent_tiles.
  etransitivity; [apply length_filter|].
  etransitivity; [apply omap_length_le|]. by rewrite length_fmap.
Qed.

Lemma mine_neighbours_ext b b' r l :
  (∀ q, is_mine b' q = is_mine b q) →
  mine_neighbours b r l → mine_neighbours b' r l.
Proof.
  intros E [Hnd Hl]. split; [done|]. intros q. rewrite E. apply Hl.
Qed.

(** On a board where no mine is revealed, the mines counted by
    [evaluate_tile] are the mines adjacent to the tile. *)
Lemma counted_mines_are_neighbours b tile :
  shaped b → no_revealed_mine b →
  mine_neighbours b tile
    (filter (λ q, is_mine b q = true)
            (adjacent_tiles b (Z.of_nat tile.1) (Z.of_nat tile.2))).
Proof.
  intros Hsh Hnrm. split; [by apply NoDup_filter, NoDup_adjacent_tiles|].
  intros q. rewrite list_elem_of_filter, adjacent_tiles_spec by done. split.
  - tauto.
  - intros [Hn Hm]. split; [done|]. split; [done|]. split; [|by apply Hnrm].
    destruct (on_board_dec b q) as [|Hoff]; [done|].
    rewrite is_mine_off_board in Hm; done.
Qed.

Lemma mine_neighbours_length b r l l' :
  mine_neighbours b r l → mine_neighbours b r l' → length l = length l'.
Proof.
  intros [Hnd Hl] [Hnd' Hl']. apply Permutation_length, NoDup_Permutation; auto.
  intros q. by rewrite Hl, Hl'.
Qed.

Lemma count_mines_true b tile t l :
  wf b → no_revealed_mine b → deref (board b) tile = Some t →
  mine_neighbours b tile l →
  count_mines b (adjacent_tiles b (x t) (y t)) = Z.of_nat (length l).
Proof.
  intros (Hsh & Hco & _) Hnrm Ht Hl. destruct (Hco _ _ Ht) as [-> ->].
  rewrite count_mines_length. f_equal.
  apply (mine_neighbours_length b tile); [|done].
  by apply counted_mines_are_neighbours.
Qed.

Lemma Evaluates_counts :
  (∀ b tile b' calls,
     Evaluates b tile b' calls → playable b tile →
     ∀ q t' l, q ∈ calls → deref (board b') q = Some t' →
               mine_neighbours b q l →
               n_adjacent_mines t' = Z.of_nat (length l))
  ∧ (∀ b l0 b' calls,
       EvaluatesAll b l0 b' calls → playable_all b l0 →
       ∀ q t' l, q ∈ calls → deref (board b') q = Some t' →
                 mine_neighbours b q l →
                 n_adjacent_mines t' = Z.of_nat (length l)).
Proof.
  apply Evaluates_mutind.
  - intros b tile t Ht c Hc (Hwf & Hnrm & Hon & Hm) q t' l Hq Ht' Hl.
    apply list_elem_of_singleton in Hq. subst q.
    rewrite deref_mutate_tile, decide_True, Ht in Ht' by done.
    injection Ht' as <-. simpl. by apply (count_mines_true b tile).
  - intros b tile t b' calls Ht c Hc Hall IH Hp q t' l Hq Ht' Hl.
    destruct (playable_enter b tile t Hp Ht Hc) as (Hpa & _ & _ & Hmines).
    fold c in Hpa, Hmines. destruct Hp as (Hwf & Hnrm & Hon & Hm).
    pose proof (proj2 Evaluates_marked_only _ _ _ _ Hall) as Hmk.
    destruct (decide (q ∈ calls)) as [Hin|Hout].
    + apply (IH Hpa q t' l Hin Ht'). by apply (mine_neighbours_ext b).
    + apply elem_of_cons in Hq as [->|Hq]; [|done].
      rewrite (marked_only_outside Hmk _ Hout) in Ht'.
      rewrite deref_mutate_tile, decide_True, Ht in Ht' by done.
      injection Ht' as <-. simpl. by apply (count_mines_true b tile).
  - intros b _ q t' l Hq. by apply elem_of_nil in Hq.
  - intros b t l0 b1 calls1 b2 calls2 H1 IH1 H2 IH2 Hpa q t' l Hq Ht' Hl.
    pose proof (playable_all_head _ _ _ Hpa) as Hp.
    pose proof (playable_all_tail _ _ _ _ _ Hpa H1) as Hpa1.
    pose proof (proj2 Evaluates_marked_only _ _ _ _ H2) as Hmk2.
    assert (Hmines : ∀ q, is_mine b1 q = is_mine b q).
    { apply (Evaluates_mines_kept _ _ _ _ H1). by destruct Hp as (_&_&_&?). }
    destruct (decide (q ∈ calls2)) as [Hin|Hout].
    + apply (IH2 Hpa1 q t' l Hin Ht'). by apply (mine_neighbours_ext b).
    + apply elem_of_app in Hq as [Hq|Hq]; [|done].
      rewrite (marked_only_outside Hmk2 _ Hout) in Ht'.
      by apply (IH1 Hp q t' l Hq Ht').
Qed.

Lemma Evaluates_settled b tile b' calls :
  Evaluates b tile b' calls → playable b tile → zeros_closed b tile →
  (∀ r, r ≠ tile → shows_count b r) →
  settled b'
  ∧ (∀ r, is_mine b' r = is_mine b r)
  ∧ (∀ q, q ∈ calls → is_mine b q = false).
Proof.
  intros Hev Hp Hclosed Hcounts.
  destruct (Evaluates_in_play _ _ _ _ Hev Hp Hclosed) as [Hplay Hmines].
  pose proof (proj1 Evaluates_marked_only _ _ _ _ Hev) as Hmk.
  destruct (Evaluates_head _ _ _ _ Hev) as [calls' Ecalls].
  split; [split; [done|]|split; [done|]].
  - intros r t' l Ht' Hrev Hl.
    apply (mine_neighbours_ext b' b) in Hl; [|by intros; rewrite Hmines].
    destruct (decide (r ∈ calls)) as [Hin|Hout].
    + by apply (proj1 Evaluates_counts _ _ _ _ Hev Hp r t' l).
    + rewrite (marked_only_outside Hmk _ Hout) in Ht'.
      apply (Hcounts r); auto. intros ->. apply Hout. rewrite Ecalls.
      apply list_elem_of_here.
  - apply (proj1 Evaluates_no_mine _ _ _ _ Hev). by destruct Hp as (_&_&_&?).
Qed.

Lemma turn_settled depth b cx cy b' calls :
  settled b → turn depth b cx cy = Some (b', true, calls) →
  settled b'
  ∧ (∀ r, is_mine b' r = is_mine b r)
  ∧ (∀ q, q ∈ calls → is_mine b q = false).
Proof.
  intros [Hplay Hcounts]. unfold turn. destruct (display_board b); [|done].
  simpl. destruct (get_tile b cx cy) as [tile|] eqn:Hget; [|done].
  destruct (is_revealed b tile).
  { intros [= <- <-]. split; [by split|]. split; [done|].
    intros q Hq. by apply elem_of_nil in Hq. }
  destruct (check_if_mine _ tile) as [[[b1 out] ok]|] eqn:E1; [|done]. simpl.
  destruct (evaluate_tile depth b1 tile) as [[b2 calls2]|] eqn:E2; [|done].
  simpl. intros [= <- -> <-].
  apply check_if_mine_survives in E1 as [-> Hm].
  rewrite is_mine_set_revealed in Hm.
  destruct (in_play_selected b cx cy tile Hplay Hget Hm) as [Hp Hclosed].
  apply evaluate_tile_sound in E2.
  destruct (Evaluates_settled _ _ _ _ E2 Hp Hclosed) as (Hs & Hmines & Hcalls).
  - intros r Hne t ms Ht Hrev Hl. rewrite deref_mutate_tile in Ht.
    rewrite decide_False in Ht by done. apply (Hcounts r t ms); auto.
    apply (mine_neighbours_ext _ b) in Hl; [done|].
    intros q. by rewrite is_mine_set_revealed.
  - split; [done|]. split.
    + intros r. by rewrite Hmines, is_mine_set_revealed.
    + intros q Hq. rewrite <- (is_mine_set_revealed true tile b q). auto.
Qed.

Lemma game_loop_settled depth inputs :
  ∀ b b' calls,
    settled b → game_loop depth b inputs = Some (b', true, calls) →
    settled b'
    ∧ (∀ r, is_mine b' r = is_mine b r)
    ∧ (∀ q, q ∈ calls → is_mine b q = false).
Proof.
  induction inputs as [|[cx cy] inputs IH]; intros b b' calls Hs.
  - intros [= <- <-]. split; [done|]. split; [done|].
    intros q Hq. by apply elem_of_nil in Hq.
  - simpl. destruct (turn depth b cx cy) as [[[b1 keep] calls1]|] eqn:E1; [|done].
    simpl. destruct keep; [|done].
    destruct (game_loop depth b1 inputs) as [[[b2 keep2] calls2]|] eqn:E2; [|done].
    simpl. intros [= <- -> <-].
    destruct (turn_settled _ _ _ _ _ _ Hs E1) as (Hs1 & Hm1 & Hc1).
    destruct (IH _ _ _ Hs1 E2) as (Hs2 & Hm2 & Hc2).
    split; [done|]. split.
    + intros r. by rewrite Hm2, Hm1.
    + intros q Hq. apply elem_of_app in Hq as [Hq|Hq]; [auto|].
      rewrite <- Hm1. auto.
Qed.

Lemma populated_all_hidden size0 difficulty0 b rng b' :
  0 ≤ size0 → new_board size0 difficulty0 = Some b →
  (∀ k, (k < 2 * Z.to_nat (n_total_mines b))%nat → 0 ≤ rng k ≤ size0 - 1) →
  populate_board_with_mines rng b = Some b' →
  ∀ r, is_revealed b' r = false.
Proof.
  intros Hsize Hnew Hrng Hpop r.
  pose proof (new_board_wf _ _ _ Hsize Hnew) as Hwf.
  unfold new_board in Hnew.
  destruct (set_number_of_mines size0 difficulty0) as [m|] eqn:Em; [|done].
  simpl in Hnew. injection Hnew as <-.
  assert (Hm : 1 ≤ size0 ∨ m ≤ 0).
  { destruct (decide (size0 = 0)) as [->|]; [right|left; lia].
    apply set_number_of_mines_nonneg_0 in Em. lia. }
  destruct (populate_wf _ rng b' Hwf Hm Hrng Hpop) as (_ & _ & Hrev & _).
  rewrite Hrev. unfold is_revealed. simpl.
  rewrite board_init_deref. by case_decide.
Qed.

Lemma populated_settled size0 difficulty0 b rng b' :
  0 ≤ size0 → new_board size0 difficulty0 = Some b →
  (∀ k, (k < 2 * Z.to_nat (n_total_mines b))%nat → 0 ≤ rng k ≤ size0 - 1) →
  populate_board_with_mines rng b = Some b' → settled b'.
Proof.
  intros Hsize Hnew Hrng Hpop.
  split; [by apply (populated_in_play size0 difficulty0 b rng)|].
  intros r t l Ht Hrev.
  pose proof (populated_all_hidden _ _ _ _ _ Hsize Hnew Hrng Hpop r) as Hhid.
  unfold is_revealed in Hhid. rewrite Ht in Hhid. congruence.
Qed.

(** ** The game before a loss *)

(** X5: in a game on a new board, as long as the loop has not ended
    ([keep_playing] still true), the tiles that are mines are exactly those
    planted, no mine is revealed, and [evaluate_tile] has never been invoked
    on a mine. *)
Theorem game_never_touches_mines
    size0 difficulty0 b0 rng b1 depth inputs b' calls :
  0 ≤ size0 → new_board size0 difficulty0 = Some b0 →
  (∀ k, (k < 2 * Z.to_nat (n_total_mines b0))%nat → 0 ≤ rng k ≤ size0 - 1) →
  populate_board_with_mines rng b0 = Some b1 →
  game_loop depth b1 inputs = Some (b', true, calls) →
  wf b'
  ∧ (∀ r, is_mine b' r = is_mine b1 r)
  ∧ no_revealed_mine b'
  ∧ (∀ q, q ∈ calls → is_mine b1 q = false).
Proof.
  intros Hsize Hnew Hrng Hpop Hloop.
  pose proof (populated_settled _ _ _ _ _ Hsize Hnew Hrng Hpop) as Hs.
  destruct (game_loop_settled _ _ _ _ _ Hs Hloop)
    as (((Hwf & Hnrm & _) & _) & Hm & Hc).
  auto.
Qed.

Lemma settled_revealed_tile b r t :
  settled b → deref (board b) r = Some t → revealed t = true →
  tile_type t = "empty".
Proof.
  intros ((Hwf & Hnrm & _) & _) Ht Hrev. destruct Hwf as (_ & _ & Hk).
  destruct (Hk r t Ht) as [?|Hm]; [done|]. exfalso.
  assert (Hmine : is_mine b r = true) by (unfold is_mine; by rewrite Ht, Hm).
  apply Hnrm in Hmine. unfold is_revealed in Hmine. rewrite Ht in Hmine.
  congruence.
Qed.

(** X6: in a game on a new board, as long as the loop has not ended, every
    revealed tile carries the number of mines adjacent to it (any list
    without repetition of the adjacent mines has that length), is of type
    ['empty'], and is rendered as that number, or as a blank when the number
    is zero. *)
Theorem revealed_tiles_show_adjacent_mines
    size0 difficulty0 b0 rng b1 depth inputs b' calls r t l :
  0 ≤ size0 → new_board size0 difficulty0 = Some b0 →
  (∀ k, (k < 2 * Z.to_nat (n_total_mines b0))%nat → 0 ≤ rng k ≤ size0 - 1) →
  populate_board_with_mines rng b0 = Some b1 →
  game_loop depth b1 inputs = Some (b', true, calls) →
  deref (board b') r = Some t → revealed t = true → mine_neighbours b' r l →
  n_adjacent_mines t = Z.of_nat (length l)
  ∧ tile_type t = "empty"
  ∧ Tile_repr t = Some (if 0 <? Z.of_nat (length l)
                        then Py.str (Z.of_nat (length l)) else " ").
Proof.
  intros Hsize Hnew Hrng Hpop Hloop Ht Hrev Hl.
  pose proof (populated_settled _ _ _ _ _ Hsize Hnew Hrng Hpop) as Hs.
  destruct (game_loop_settled _ _ _ _ _ Hs Hloop) as (Hs' & _ & _).
  pose proof (proj2 Hs' r t l Ht Hrev Hl) as Hn.
  pose proof (settled_revealed_tile b' r t Hs' Ht Hrev) as Hty.
  split; [done|]. split; [done|].
  unfold Tile_repr. rewrite Hn, Hrev, Hty. by destruct (0 <? _).
Qed.

Lemma mutate_tile_id f r b t :
  deref (board b) r = Some t → f t = t → mutate_tile f r b = b.
Proof.
  intros Ht Hf. destruct b as [sz df g n]. unfold mutate_tile, with_board.
  simpl in *. f_equal. unfold mutate, deref in *.
  destruct (g !! r.1) as [row|] eqn:Hrow; [|done]. simpl in Ht.
  transitivity (alter id r.1 g); [|by apply list_alter_id].
  apply list_alter_ext; [|done]. intros row' Hrow'.
  assert (row' = row) as -> by congruence.
  transitivity (alter id r.2 row); [|by apply list_alter_id].
  apply list_alter_ext; [|done]. intros t' Ht'.
  assert (t' = t) as -> by congruence. done.
Qed.

Lemma revealed_tile_empty b r t :
  wf b → no_revealed_mine b → deref (board b) r = Some t →
  revealed t = true → tile_type t = "empty".
Proof.
  intros (_ & _ & Hk) Hnrm Ht Hrev.
  destruct (Hk r t Ht) as [?|Hm]; [done|]. exfalso.
  assert (Hmine : is_mine b r = true) by (unfold is_mine; by rewrite Ht, Hm).
  apply Hnrm in Hmine. unfold is_revealed in Hmine. rewrite Ht in Hmine.
  congruence.
Qed.

Lemma mark_counted b tile t :
  playable b tile → (∀ r, r ≠ tile → shows_count b r) →
  deref (board b) tile = Some t →
  counted (mutate_tile
             (mark (count_mines b (adjacent_tiles b (x t) (y t)))) tile b).
Proof.
  intros (Hwf & Hnrm & Hon & Hm) Hcounts Ht.
  set (c := count_mines b (adjacent_tiles b (x t) (y t))).
  pose proof (marked_only_mutate c tile b) as Hmk.
  assert (Hcalls : ∀ r, r ∈ [tile] → is_mine b r = false).
  { intros r Hr. apply list_elem_of_singleton in Hr. by subst. }
  pose proof (marked_only_mines_kept _ _ _ Hmk Hcalls) as Hmines.
  split; [by apply (marked_only_wf Hmk)|].
  split; [by apply (marked_only_no_revealed_mine _ _ _ Hmk)|].
  intros r t' l Ht' Hrev Hl.
  apply (mine_neighbours_ext _ b) in Hl; [|by intros; rewrite Hmines].
  rewrite deref_mutate_tile in Ht'. case_decide as E.
  - subst r. rewrite Ht in Ht'. injection Ht' as <-. simpl.
    by apply (count_mines_true b tile).
  - by apply (Hcounts r).
Qed.

Lemma Evaluates_counted b tile b' calls :
  Evaluates b tile b' calls → playable b tile →
  (∀ r, r ≠ tile → shows_count b r) →
  counted b' ∧ ∀ r, is_mine b' r = is_mine b r.
Proof.
  intros Hev Hp Hcounts. pose proof Hp as (Hwf & Hnrm & Hon & Hm).
  pose proof (proj1 Evaluates_marked_only _ _ _ _ Hev) as Hmk.
  pose proof (Evaluates_mines_kept _ _ _ _ Hev Hm) as Hmines.
  destruct (Evaluates_head _ _ _ _ Hev) as [calls' Ecalls].
  split; [|done]. split; [by apply (marked_only_wf Hmk)|].
  split; [by apply (Evaluates_no_revealed_mine _ _ _ _ Hev)|].
  intros r t' l Ht' Hrev Hl.
  apply (mine_neighbours_ext b' b) in Hl; [|by intros; rewrite Hmines].
  destruct (decide (r ∈ calls)) as [Hin|Hout].
  - by apply (proj1 Evaluates_counts _ _ _ _ Hev Hp r t' l).
  - rewrite (marked_only_outside Hmk _ Hout) in Ht'.
    apply (Hcounts r); auto. intros ->. apply Hout. rewrite Ecalls.
    apply list_elem_of_here.
Qed.

Lemma EvaluatesAll_counted b l b' calls :
  EvaluatesAll b l b' calls → playable_all b l → counted b →
  counted b' ∧ ∀ r, is_mine b' r = is_mine b r.
Proof.
  induction 1 as [|b t l b1 calls1 b2 calls2 H1 H2 IH]; intros Hpa Hc; [done|].
  pose proof (playable_all_head _ _ _ Hpa) as Hp.
  destruct (Evaluates_counted _ _ _ _ H1 Hp) as [Hc1 Hm1];
    [intros r _; apply Hc|].
  destruct (IH (playable_all_tail _ _ _ _ _ Hpa H1) Hc1) as [Hc2 Hm2].
  split; [done|]. intros r. by rewrite Hm2, Hm1.
Qed.

Lemma recurses_EvaluatesAll depth l s s' :
  recurses depth l s s' →
  ∃ calls, s'.2 = (s.2 ++ calls)%list ∧ EvaluatesAll s.1 l s'.1 calls.
Proof.
  intros H. apply recurses_for_each in H. destruct s as [b acc], s' as [b' out].
  by apply (visit_all_sound _ (evaluate_tile_sound depth)) in H.
Qed.

(** Every invocation inside a flood fill is made on a counted board, on a
    tile of the board that is no mine. *)
Lemma invoked_within_counted b tile b' q :
  invoked_within b tile b' q → playable b tile →
  (∀ r, r ≠ tile → shows_count b r) →
  counted b' ∧ playable b' q.
Proof.
  induction 1 as [depth b tile t pre q post s' Ht Hc Hsplit Hrec
                 |b tile b1 q b2 r H1 IH1 H2 IH2]; intros Hp Hcounts.
  - destruct (playable_enter b tile t Hp Ht Hc) as (Hpa & _ & _ & Hmines).
    pose proof (mark_counted b tile t Hp Hcounts Ht) as Hc1.
    apply recurses_EvaluatesAll in Hrec as (calls & _ & Hall). simpl in Hall.
    destruct Hpa as (Hwf1 & Hnrm1 & Hl).
    assert (Hpre : playable_all
                     (mutate_tile
                        (mark (count_mines b (adjacent_tiles b (x t) (y t))))
                        tile b) pre).
    { split; [done|]. split; [done|]. intros r Hr. apply Hl.
      rewrite Hsplit. apply elem_of_app. by left. }
    destruct (EvaluatesAll_counted _ _ _ _ Hall Hpre Hc1) as [Hc' Hm'].
    pose proof (proj2 Evaluates_marked_only _ _ _ _ Hall) as Hmk.
    destruct (Hl q) as [Hon Hmq].
    { rewrite Hsplit. apply elem_of_app. right. apply list_elem_of_here. }
    split; [done|]. split; [apply Hc'|]. split; [apply Hc'|]. split.
    + by apply (marked_only_on_board Hmk).
    + by rewrite Hm'.
  - destruct (IH1 Hp Hcounts) as [Hc1 Hp1]. apply IH2; [done|].
    intros r' _. apply Hc1.
Qed.

(** X13: the repeated invocations of a flood fill are harmless.  When the
    fill started by the loop on a hidden tile that is no mine invokes
    [evaluate_tile], at any depth of the recursion, on a tile that is already
    revealed, that invocation returns, leaves every tile that was revealed
    exactly as it was and changes no tile's being a mine; when the tile has a
    mine next to it, the invocation changes nothing at all and does not
    recurse. *)
Theorem repeated_invocations_are_harmless bg cx cy tile0 b tile :
  settled bg → get_tile bg cx cy = Some tile0 →
  is_revealed bg tile0 = false → is_mine bg tile0 = false →
  invoked_within (mutate_tile (set_revealed true) tile0 bg) tile0 b tile →
  is_revealed b tile = true →
  ∃ b' calls,
    evaluate_tile (Z.to_nat (size b * size b)) b tile = Some (b', calls)
    ∧ (∀ r, is_revealed b r = true → deref (board b') r = deref (board b) r)
    ∧ (∀ r, is_mine b' r = is_mine b r)
    ∧ (¬ no_mine_around b tile → b' = b ∧ calls = [tile]).
Proof.
  intros [Hplay Hcounts] Hget Hhid Hm Hinv Hrev.
  destruct (in_play_selected bg cx cy tile0 Hplay Hget Hm) as [Hp0 _].
  assert (Hc0 : ∀ r, r ≠ tile0 →
                     shows_count (mutate_tile (set_revealed true) tile0 bg) r).
  { intros r Hne t ms Ht Hr Hl. rewrite deref_mutate_tile in Ht.
    rewrite decide_False in Ht by congruence. apply (Hcounts r t ms); auto.
    apply (mine_neighbours_ext _ bg) in Hl; [done|].
    intros q. by rewrite is_mine_set_revealed. }
  destruct (invoked_within_counted _ _ _ _ Hinv Hp0 Hc0) as [Hc Hp].
  pose proof Hc as (Hwf & Hnrm & Hcnt). pose proof Hp as (_ & _ & Hon & Hmt).
  pose proof Hwf as (Hsh & Hco & _).
  destruct (evaluate_tile_returns b tile Hwf Hon) as (b' & calls & E).
  exists b', calls. split; [done|].
  pose proof (evaluate_tile_sound _ _ _ _ _ E) as Hev.
  destruct (Evaluates_counted _ _ _ _ Hev Hp) as [Hc' Hmines];
    [intros r _; apply Hcnt|].
  pose proof (proj1 Evaluates_marked_only _ _ _ _ Hev) as Hmk.
  split; [|split; [done|]].
  - intros r Hr. unfold is_revealed in Hr.
    destruct (deref (board b) r) as [t0|] eqn:Ht0; [|done].
    destruct (marked_only_deref Hmk _ _ Ht0) as (t' & Ht' & [->|[c ->]]);
      [done|].
    rewrite Ht'. f_equal.
    pose proof (counted_mines_are_neighbours b r Hsh Hnrm) as Hl.
    pose proof (Hcnt r t0 _ Ht0 Hr Hl) as Hn0.
    destruct Hc' as (_ & _ & Hcnt').
    assert (Hn' : n_adjacent_mines (mark c t0) = n_adjacent_mines t0).
    { rewrite Hn0. apply (Hcnt' r (mark c t0)); [done|done|].
      by apply (mine_neighbours_ext b). }
    pose proof (revealed_tile_empty b r t0 Hwf Hnrm Ht0 Hr) as Hty.
    destruct t0 as [ty rv tx ty' n]. unfold mark in *. simpl in *. by subst.
  - intros Hnz.
    destruct (proj2 (shaped_deref _ _ Hsh) Hon) as [t Ht].
    assert (Hrt : revealed t = true).
    { unfold is_revealed in Hrev. by rewrite Ht in Hrev. }
    pose proof (revealed_tile_empty b tile t Hwf Hnrm Ht Hrt) as Hty.
    destruct (Z.to_nat (size b * size b)) as [|depth]; [done|].
    rewrite evaluate_tile_S, Ht in E. simpl in E.
    destruct (Hco _ _ Ht) as [Ex Ey]. rewrite Ex, Ey in E.
    set (l := adjacent_tiles b (Z.of_nat tile.1) (Z.of_nat tile.2)) in E.
    assert (Hcl : n_adjacent_mines t = count_mines b l).
    { rewrite count_mines_length. apply (Hcnt tile t); auto.
      by apply counted_mines_are_neighbours. }
    assert (Hid : mutate_tile (mark (count_mines b l)) tile b = b).
    { apply (mutate_tile_id _ _ _ t); [done|]. rewrite <- Hcl.
      destruct t as [ty rv tx ty' n]. simpl in *. by subst. }
    rewrite Hid in E.
    destruct (Z.ltb_spec 0 (count_mines b l)) as [Hpos|Hzero].
    + by injection E as <- <-.
    + exfalso. apply Hnz. apply count_zero_no_mine_around; [done|done|].
      fold l. lia.
Qed.

(** ** The number of invocations of a flood fill *)

Lemma filter_length_le {A} (P Q : A → Prop)
    `{∀ a, Decision (P a)} `{∀ a, Decision (Q a)} (l : list A) :
  (∀ a, a ∈ l → P a → Q a) →
  (length (filter P l) ≤ length (filter Q l))%nat.
Proof.
  intros Hsub. induction l as [|a l IH]; [done|].
  assert (IH' : (length (filter P l) ≤ length (filter Q l))%nat).
  { apply IH. intros ???. apply Hsub; [by apply list_elem_of_further|done]. }
  rewrite !filter_cons. destruct (decide (P a)) as [HP|HP].
  - rewrite decide_True by (apply Hsub; [apply list_elem_of_here|done]).
    simpl. lia.
  - destruct (decide (Q a)); simpl; lia.
Qed.

Lemma hidden_after_mark c tile b :
  shaped b → on_board b tile →
  (hidden (mutate_tile (mark c) tile b) ≤ hidden_besides b tile)%nat.
Proof.
  intros Hsh Hon. unfold hidden, hidden_besides.
  change (cells (mutate_tile (mark c) tile b)) with (cells b).
  apply filter_length_le. intros r _ Hr.
  destruct (decide (r = tile)) as [->|Hne].
  - rewrite is_revealed_mark_eq in Hr; [done|]. by apply shaped_deref.
  - rewrite is_revealed_mark_ne in Hr by done. done.
Qed.

Lemma hidden_besides_head b t :
  on_board b t →
  (hidden_besides b t + head_hidden b [t] ≤ hidden b)%nat.
Proof.
  intros Hon. unfold hidden, hidden_besides, head_hidden.
  destruct (is_revealed b t) eqn:Hrev.
  - rewrite Nat.add_0_r. apply filter_length_le. tauto.
  - assert ((length (filter (λ r, r ≠ t ∧ is_revealed b r = false) (cells b))
             < length (filter (λ r, is_revealed b r = false) (cells b)))%nat);
      [|lia].
    apply (filter_length_lt _ _ _ t); [tauto|by apply elem_of_cells|done|tauto].
Qed.

Lemma Evaluates_invocations :
  (∀ b tile b' calls,
     Evaluates b tile b' calls → wf b → on_board b tile →
     (length calls + 8 * hidden b' ≤ 1 + 8 * hidden_besides b tile)%nat)
  ∧ (∀ b l b' calls,
       EvaluatesAll b l b' calls → wf b → (∀ t, t ∈ l → on_board b t) →
       (length calls + 8 * hidden b' + 8 * head_hidden b l
        ≤ length l + 8 * hidden b)%nat).
Proof.
  apply Evaluates_mutind.
  - intros b tile t Ht c Hc (Hsh & _) Hon. simpl.
    pose proof (hidden_after_mark c tile b Hsh Hon). lia.
  - intros b tile t b' calls Ht c Hc Hall IH Hwf Hon.
    pose proof Hwf as (Hsh & Hco & _). destruct (Hco _ _ Ht) as [Ex Ey].
    pose proof (marked_only_mutate c tile b) as Hmk.
    pose proof (hidden_after_mark c tile b Hsh Hon) as Hb1.
    pose proof (adjacent_tiles_length b (x t) (y t)) as Hlen.
    assert (Hl : ∀ q, q ∈ adjacent_tiles b (x t) (y t) →
                      neighbour tile q ∧ on_board b q ∧ is_revealed b q = false).
    { intros q. rewrite Ex, Ey. by apply adjacent_tiles_spec. }
    specialize (IH (marked_only_wf Hmk Hwf)).
    assert (IH' := IH (λ q Hq, proj1 (proj2 (Hl q Hq)))). clear IH.
    destruct (adjacent_tiles b (x t) (y t)) as [|q l'] eqn:El.
    + simpl in *. lia.
    + assert (Hq : head_hidden (mutate_tile (mark c) tile b) (q :: l') = 1%nat).
      { destruct (Hl q) as ((Hne & _) & _ & Hhid); [apply list_elem_of_here|].
        unfold head_hidden. rewrite is_revealed_mark_ne by done. by rewrite Hhid. }
      rewrite Hq in IH'. simpl in *. lia.
  - intros b _ _. simpl. lia.
  - intros b t l b1 calls1 b2 calls2 H1 IH1 H2 IH2 Hwf Hl.
    pose proof (proj1 Evaluates_marked_only _ _ _ _ H1) as Hmk1.
    assert (Hon : on_board b t) by apply Hl, list_elem_of_here.
    specialize (IH1 Hwf Hon). specialize (IH2 (marked_only_wf Hmk1 Hwf)).
    assert (IH2' : (length calls2 + 8 * hidden b2 + 8 * head_hidden b1 l
                    ≤ length l + 8 * hidden b1)%nat).
    { apply IH2. intros q Hq. apply (marked_only_on_board Hmk1).
      by apply Hl, list_elem_of_further. }
    pose proof (hidden_besides_head b t Hon) as Hh.
    change (head_hidden b (t :: l)) with (head_hidden b [t]).
    rewrite length_app. simpl length. lia.
Qed.

(** X14: a flood fill makes at most one invocation of [evaluate_tile], plus
    eight for every tile it reveals besides the selected one: on a
    well-formed board of size N, an evaluation returns after at most
    8·N² − 7 invocations. *)
Theorem evaluate_tile_invocations_bounded b tile :
  wf b → on_board b tile →
  ∃ b' calls,
    evaluate_tile (Z.to_nat (size b * size b)) b tile = Some (b', calls)
    ∧ (length calls + 8 * hidden b' ≤ 1 + 8 * hidden_besides b tile)%nat
    ∧ (length calls + 7 ≤ 8 * Z.to_nat (size b * size b))%nat.
Proof.
  intros Hwf Hon. destruct (evaluate_tile_returns b tile Hwf Hon) as (b' & calls & E).
  exists b', calls. split; [done|]. apply evaluate_tile_sound in E.
  pose proof (proj1 Evaluates_invocations _ _ _ _ E Hwf Hon) as Hb.
  pose proof (hidden_besides_bound b tile Hon). split; lia.
Qed.

(** ** The display of a lost game *)

(** X12: when the player selects a mine in a state of play,
    [check_if_mine] prints a message and the rendering of the final board;
    that board has the cells of the board before, each tile revealed and
    otherwise unchanged, so that every mine of the board is shown as ['!'],
    and every tile that was still hidden and is no mine as a blank, whatever
    the number of mines next to it. *)
Theorem loss_display_shows_mines b tile t :
  kinds_ok b → no_revealed_mine b → hidden_unnumbered b →
  deref (board b) tile = Some t → tile_type t = "mine" →
  ∃ b1 msg out,
    check_if_mine (mutate_tile (set_revealed true) tile b) tile
    = Some (b1, msg :: out, false)
    ∧ display_board b1 = Some out
    ∧ size b1 = size b
    ∧ length (board b1) = length (board b)
    ∧ (∀ r, deref (board b1) r = set_revealed true <$> deref (board b) r)
    ∧ ∀ r t0, deref (board b) r = Some t0 →
              ∃ t1, deref (board b1) r = Some t1
                    ∧ (is_mine b r = true → Tile_repr t1 = Some "!")
                    ∧ (is_mine b r = false → is_revealed b r = false →
                       Tile_repr t1 = Some " ").
Proof.
  intros Hk Hnrm Hun Ht Hty.
  set (b0 := mutate_tile (set_revealed true) tile b).
  set (b0' := mutate_tile (set_revealed true) tile b0).
  set (b1 := with_board (reveal_all (board b0')) b0').
  assert (Hk1 : kinds_ok b1).
  { apply kinds_ok_reveal_all, kinds_ok_mutate; [intros; by left|].
    apply kinds_ok_mutate; [|done]. intros. by left. }
  destruct (display_board_is_Some b1 Hk1) as [out Hout].
  assert (Ht0 : deref (board b0) tile = Some (set_revealed true t)).
  { unfold b0. by rewrite deref_mutate_tile, decide_True, Ht. }
  assert (Hcells : ∀ r, deref (board b1) r
                        = set_revealed true <$> deref (board b) r).
  { intros r. unfold b1, b0', b0. simpl. rewrite deref_reveal_all.
    destruct (decide (tile = r)) as [<-|Hne].
    - rewrite !deref_mutate_eq, Ht. done.
    - by rewrite !deref_mutate_ne. }
  exists b1. eexists _, out.
  split; [|split; [done|split; [done|split; [|split; [done|]]]]].
  - unfold check_if_mine. rewrite Ht0.
    cbn -[display_board with_board mutate_tile reveal_all board String.eqb].
    change (tile_type (set_revealed true t)) with (tile_type t). rewrite Hty.
    change (String.eqb "mine" "mine") with true. cbv iota.
    unfold b1, b0' in Hout. rewrite Hout. reflexivity.
  - unfold b1, b0', b0, reveal_all. simpl.
    by rewrite length_fmap, !mutate_length.
  - intros r t0 Hr. exists (set_revealed true t0).
    split; [by rewrite Hcells, Hr|].
    unfold is_mine, is_revealed. rewrite Hr. split.
    + intros Hm.
      assert (Hhid : revealed t0 = false).
      { assert (Hmine : is_mine b r = true) by (unfold is_mine; by rewrite Hr).
        apply Hnrm in Hmine. unfold is_revealed in Hmine. by rewrite Hr in Hmine. }
      unfold Tile_repr. simpl. rewrite (Hun r t0 Hr Hhid). simpl.
      apply String.eqb_eq in Hm. by rewrite Hm.
    + intros Hm Hhid. unfold Tile_repr. simpl. rewrite (Hun r t0 Hr Hhid). simpl.
      destruct (Hk r t0 Hr) as [-> | E]; [done|]. rewrite E in Hm. done.
Qed.

(** ** Mine placement, continued *)

(** X8: the mines planted do not depend on the order in which Python lists
    the set of coordinates: planting from any listing [coords'] of the
    distinct sampled pairs gives the board of [populate_board_with_mines]. *)
Theorem populate_order_independent b rng coords' :
  shaped b → 1 ≤ size b ∨ n_total_mines b ≤ 0 →
  coords' ≡ₚ remove_dups (samples rng (Z.to_nat (n_total_mines b))) →
  Py.for_each plant coords' (with_n_total_mines (Z.of_nat (length coords')) b)
  = populate_board_with_mines rng b.
Proof.
  intros Hsh Hsz Hperm. unfold populate_board_with_mines.
  set (n := Z.to_nat (n_total_mines b)) in *.
  assert (Hr : 0 ≤ size b - 1 ∨ n = 0%nat) by lia.
  rewrite !mapM_randint by (destruct Hr as [?| ->]; [by left|by right]).
  simpl. fold (samples rng n). rewrite (Permutation_length Hperm).
  by apply plant_mines_Permutation.
Qed.

Lemma NoDup_cprod {A B} (l : list A) (k : list B) :
  NoDup l → NoDup k → NoDup (cprod l k).
Proof.
  intros Hl Hk. induction Hl as [|a l Ha Hl IH]; [constructor|].
  change (cprod (a :: l) k) with (((pair a <$> k) ++ cprod l k)%list).
  apply NoDup_app. split; [|split; [|done]].
  - apply NoDup_fmap_2; [|done]. by intros ?? [= ->].
  - intros [a' y] Hin Hin'. apply list_elem_of_fmap in Hin as (y' & [= -> ->] & _).
    apply list_elem_of_cprod in Hin' as [Hin' _]. done.
Qed.

Lemma NoDup_cells b : NoDup (cells b).
Proof. unfold cells. apply NoDup_cprod; apply NoDup_seq. Qed.

Lemma coords_of_inj : Inj eq eq coords_of.
Proof.
  intros [i j] [i' j'] [= E1 E2]. f_equal; lia.
Qed.

(** X9: after mine placement on a new board, [n_total_mines] (the number
    announced by "Planted ... mines") is the number of cells of the grid
    that hold a mine. *)
Theorem planted_mines_are_counted size0 difficulty0 b0 rng b1 :
  0 ≤ size0 → new_board size0 difficulty0 = Some b0 →
  (∀ k, (k < 2 * Z.to_nat (n_total_mines b0))%nat → 0 ≤ rng k ≤ size0 - 1) →
  populate_board_with_mines rng b0 = Some b1 →
  n_total_mines b1 = Z.of_nat (length (mine_cells b1)).
Proof.
  intros Hsize Hnew Hrng Hpop.
  pose proof (new_board_wf _ _ _ Hsize Hnew) as (Hsh & _).
  unfold new_board in Hnew.
  destruct (set_number_of_mines size0 difficulty0) as [m|] eqn:Em; [|done].
  simpl in Hnew. injection Hnew as <-. simpl in *.
  assert (Hm : 1 ≤ size0 ∨ m ≤ 0).
  { destruct (decide (size0 = 0)) as [->|]; [right|left; lia].
    apply set_number_of_mines_nonneg_0 in Em. lia. }
  destruct (populate_result _ rng Hsh Hm Hrng)
    as (b' & E & Hs & _ & Hn & Hsh' & Hder). simpl in *.
  rewrite Hpop in E. injection E as <-.
  set (coords := remove_dups (samples rng (Z.to_nat m))) in *.
  rewrite Hn. f_equal. rewrite <- (length_fmap coords_of (mine_cells b1)).
  apply Permutation_length, NoDup_Permutation.
  - apply NoDup_remove_dups.
  - apply NoDup_fmap_2; [apply coords_of_inj|]. apply NoDup_filter, NoDup_cells.
  - intros c. rewrite list_elem_of_fmap. unfold mine_cells.
    assert (Hmine : ∀ r, on_board b1 r →
                         is_mine b1 r = true ↔ coords_of r ∈ coords).
    { intros r Hon. unfold is_mine. rewrite Hder, board_init_deref.
      unfold on_board in Hon. rewrite Hs in Hon.
      rewrite (decide_True (P := _ ∧ _)) by done.
      unfold coords_of. case_decide; simpl; [done|]. split; [done|]. tauto. }
    split.
    + intros Hc.
      assert (Hrange : 0 ≤ c.1 ≤ size0 - 1 ∧ 0 ≤ c.2 ≤ size0 - 1).
      { apply (samples_in_range rng (Z.to_nat m)); [done|].
        by apply elem_of_remove_dups. }
      exists (Z.to_nat c.1, Z.to_nat c.2).
      assert (Ec : coords_of (Z.to_nat c.1, Z.to_nat c.2) = c).
      { destruct c as [c1 c2]. unfold coords_of. simpl in *. f_equal; lia. }
      split; [done|]. apply list_elem_of_filter.
      assert (Hon : on_board b1 (Z.to_nat c.1, Z.to_nat c.2)).
      { unfold on_board. rewrite Hs. simpl. lia. }
      split; [|by apply elem_of_cells]. apply Hmine; [done|]. by rewrite Ec.
    + intros (r & -> & Hr). apply list_elem_of_filter in Hr as [Hr Hon].
      apply elem_of_cells in Hon. by apply Hmine.
Qed.

(** ** The target number of mines *)

(** X10: when [set_number_of_mines] returns, the difficulty is one of the
    four keys of [DIFFICULTY_MAPPING] (any other raises [KeyError]) and the
    target is not negative; for every size up to 2000 it is at most half the
    number of tiles. *)
Theorem target_is_a_count size0 difficulty0 n :
  set_number_of_mines size0 difficulty0 = Some n →
  difficulty0 ∈ difficulties
  ∧ 0 ≤ n
  ∧ (0 ≤ size0 ≤ 2000 → 2 * n ≤ size0 * size0).
Proof.
  intros E. split; [|split].
  - unfold set_number_of_mines in E.
    destruct (Py.dict_get DIFFICULTY_MAPPING difficulty0) as [d|] eqn:Ed; [|done].
    clear E. unfold DIFFICULTY_MAPPING in Ed. rewrite ?dict_get_cons in Ed.
    unfold difficulties, DIFFICULTY_MAPPING. simpl.
    repeat match type of Ed with
           | context [String.eqb ?a ?b] =>
               destruct (String.eqb_spec a b) as [<-|?];
               [rewrite !elem_of_cons; tauto|]
           end.
    done.
  - by apply (set_number_of_mines_nonneg size0 difficulty0).
  - intros Hsize.
    destruct (set_number_of_mines_floor _ _ _ Hsize E) as (k & Hk & ->).
    assert (Hk5 : 0 ≤ k ≤ 5).
    { unfold density_tenths in Hk. rewrite ?dict_get_cons in Hk.
      repeat match type of Hk with
             | context [String.eqb ?a ?b] =>
                 destruct (String.eqb a b); [injection Hk as <-; lia|]
             end.
      done. }
    pose proof (Z.mul_div_le (size0 * size0 * k) 10 ltac:(lia)). nia.
Qed.

(** ** Selecting a tile next to a mine *)

(** X15: in a state of play, selecting a hidden tile that is no mine and has
    at least one mine next to it reveals that tile alone: [evaluate_tile] is
    invoked once, no other tile is written, and the game goes on. *)
Theorem numbered_tile_reveals_alone depth b cx cy tile :
  in_play b → get_tile b cx cy = Some tile →
  is_revealed b tile = false → is_mine b tile = false →
  ¬ no_mine_around b tile →
  ∃ b', turn (S depth) b cx cy = Some (b', true, [tile])
        ∧ is_revealed b' tile = true
        ∧ ∀ r, r ≠ tile → deref (board b') r = deref (board b) r.
Proof.
  intros Hplay Hget Hhid Hm Hnz. pose proof Hplay as ((Hsh & _ & Hk) & _ & _).
  set (b0 := mutate_tile (set_revealed true) tile b).
  destruct (in_play_selected b cx cy tile Hplay Hget Hm) as [Hp _].
  fold b0 in Hp. destruct Hp as (Hwf0 & Hnrm0 & Hon0 & Hm0).
  pose proof Hwf0 as (Hsh0 & Hco0 & _).
  destruct (proj2 (shaped_deref _ _ Hsh0) Hon0) as [t0 Ht0].
  destruct (Hco0 _ _ Ht0) as [Ex Ey].
  assert (Hchk : check_if_mine b0 tile = Some (b0, [], true)).
  { unfold check_if_mine. rewrite Ht0. simpl.
    unfold is_mine in Hm0. rewrite Ht0 in Hm0. by rewrite Hm0. }
  set (c := count_mines b0 (adjacent_tiles b0 (x t0) (y t0))).
  assert (Hc : 0 < c).
  { destruct (Z.lt_ge_cases 0 c) as [|Hle]; [done|]. exfalso. apply Hnz.
    apply (no_mine_around_ext b0); [intros q; unfold b0;
                                    by rewrite is_mine_set_revealed|].
    apply count_zero_no_mine_around; [done|done|].
    unfold c in Hle. rewrite Ex, Ey in Hle. lia. }
  assert (Hev : evaluate_tile (S depth) b0 tile
                = Some (mutate_tile (mark c) tile b0, [tile])).
  { rewrite evaluate_tile_S, Ht0. simpl. fold c.
    by destruct (Z.ltb_spec 0 c); [|lia]. }
  destruct (display_board_is_Some b Hk) as [out Hout].
  exists (mutate_tile (mark c) tile b0). split; [|split].
  - unfold turn. rewrite Hout. cbn -[evaluate_tile check_if_mine mutate_tile].
    rewrite Hget, Hhid. fold b0. rewrite Hchk.
    cbn -[evaluate_tile]. by rewrite Hev.
  - apply is_revealed_mark_eq. eauto.
  - intros r Hne. unfold b0. by rewrite !deref_mutate_tile, !decide_False.
Qed.

(** ** A whole game *)

Lemma turn_wf depth b cx cy b' keep calls :
  wf b → turn depth b cx cy = Some (b', keep, calls) →
  wf b' ∧ size b' = size b.
Proof.
  intros Hwf. unfold turn. destruct (display_board b); [|done]. simpl.
  destruct (get_tile b cx cy) as [tile|]; [|done].
  destruct (is_revealed b tile); [by intros [= <- _ _]|].
  destruct (check_if_mine _ tile) as [[[b1 out] ok]|] eqn:E1; [|done]. simpl.
  destruct (evaluate_tile depth b1 tile) as [[b2 calls2]|] eqn:E2; [|done].
  simpl. intros [= <- _ _].
  assert (Hwf0 : wf (mutate_tile (set_revealed true) tile b)).
  { apply wf_mutate; [done| |done]. intros. by left. }
  destruct (check_if_mine_wf _ _ _ _ _ Hwf0 E1) as [Hwf1 Hs1].
  apply evaluate_tile_sound, Evaluates_marked_only in E2.
  split; [by apply (marked_only_wf E2)|].
  by rewrite (marked_only_size E2), Hs1.
Qed.

Lemma game_loop_returns inputs :
  ∀ b, wf b →
       Forall (λ c, 0 ≤ c.1 < size b ∧ 0 ≤ c.2 < size b) inputs →
       is_Some (game_loop (Z.to_nat (size b * size b)) b inputs).
Proof.
  induction inputs as [|[cx cy] inputs IH]; intros b Hwf Hin; [by eexists|].
  apply Forall_cons in Hin as [[Hx Hy] Hin]. simpl in Hx, Hy. simpl.
  destruct (turn_returns b cx cy Hwf Hx Hy) as [[[b1 keep] calls1] E1].
  rewrite E1. simpl. destruct keep; [|by eexists].
  destruct (turn_wf _ _ _ _ _ _ _ Hwf E1) as [Hwf1 Hs1].
  destruct (IH b1 Hwf1) as [[[b2 keep2] calls2] E2].
  { by rewrite Hs1. }
  rewrite Hs1 in E2. rewrite E2. by eexists.
Qed.

Lemma set_number_of_mines_is_Some size0 difficulty0 :
  0 ≤ size0 ≤ 2000 → difficulty0 ∈ difficulties →
  is_Some (set_number_of_mines size0 difficulty0).
Proof.
  intros Hsize Hd.
  assert (Hall : forallb target_is_floor (Py.range 2001) = true)
    by (vm_compute; reflexivity).
  rewrite forallb_forall in Hall. specialize (Hall size0).
  assert (Hin : In size0 (Py.range 2001)).
  { apply list_elem_of_In, list_elem_of_lookup. exists (Z.to_nat size0).
    rewrite range_lookup, decide_True by lia. f_equal. lia. }
  specialize (Hall Hin). unfold target_is_floor in Hall.
  rewrite forallb_forall in Hall.
  unfold difficulties, DIFFICULTY_MAPPING in Hd. simpl in Hd.
  assert (Hk : ∃ k, In (difficulty0, k) density_tenths).
  { unfold density_tenths. rewrite !elem_of_cons, elem_of_nil in Hd.
    destruct Hd as [->|[->|[->|[->|[]]]]]; eexists; apply list_elem_of_In;
      rewrite !elem_of_cons; eauto 10. }
  destruct Hk as [k Hk]. specialize (Hall _ Hk). simpl in Hall.
  destruct (set_number_of_mines size0 difficulty0); [by eexists|done].
Qed.

(** X16: a game never raises when its parameters and inputs are valid: for
    a size from 1 to 2000, one of the four difficulties, draws in
    [0, size-1] and selections inside the board, [minesweeper] builds the
    board, plants the mines and runs the loop on every input it reads, with
    a call stack of at most size² frames for [evaluate_tile]. *)
Theorem minesweeper_never_raises size0 difficulty0 rng inputs :
  1 ≤ size0 ≤ 2000 → difficulty0 ∈ difficulties →
  (∀ k : nat, 0 ≤ rng k ≤ size0 - 1) →
  Forall (λ c, 0 ≤ c.1 < size0 ∧ 0 ≤ c.2 < size0) inputs →
  is_Some (minesweeper (Z.to_nat (size0 * size0)) size0 difficulty0 rng inputs).
Proof.
  intros Hsize Hd Hrng Hin. unfold minesweeper.
  destruct (set_number_of_mines_is_Some size0 difficulty0) as [n En];
    [lia|done|].
  assert (Hnew : new_board size0 difficulty0
                 = Some (mkBoard size0 difficulty0 (board_init size0) n)).
  { unfold new_board. by rewrite En. }
  rewrite Hnew. simpl.
  set (b0 := mkBoard size0 difficulty0 (board_init size0) n).
  assert (Hwf0 : wf b0) by (apply wf_board_init; lia).
  destruct (populate_result b0 rng) as (b1 & E1 & Hs1 & _ & _ & _ & _).
  { apply Hwf0. } { left. simpl. lia. } { intros k _. apply Hrng. }
  rewrite E1. simpl.
  destruct (populate_wf b0 rng b1 Hwf0) as (Hwf1 & _ & _ & _);
    [left; simpl; lia|intros k _; apply Hrng|done|].
  change size0 with (size b0). rewrite <- Hs1.
  apply game_loop_returns; [done|]. by rewrite Hs1.
Qed.

(** ** The further properties at the sample boards *)

Lemma sample_game_eq :
  game_loop 16 sample_board [(3, 3)] = Some (sample_played, true, sample_calls).
Proof. vm_compute. reflexivity. Qed.

Lemma sample_board_settled : settled sample_board.
Proof.
  apply (populated_settled 4 "easy" sample_new sample_rng sample_board).
  - lia.
  - apply sample_new_eq.
  - apply sample_rng_in_range.
  - apply sample_board_eq.
Qed.

Lemma sample_played_settled : settled sample_played.
Proof.
  apply (game_loop_settled 16 [(3, 3)] sample_board sample_played sample_calls).
  - apply sample_board_settled.
  - apply sample_game_eq.
Qed.

Lemma sample_board_hidden_unnumbered : hidden_unnumbered sample_board.
Proof.
  apply (advances_hidden_unnumbered sample_new).
  - apply (advances_populate sample_rng), sample_board_eq.
  - apply (hidden_unnumbered_new 4 "easy"), sample_new_eq.
Qed.

Lemma sample_played_mine q :
  is_mine sample_played q = true → q = (1, 1)%nat.
Proof.
  destruct q as [[|[|[|[|i]]]] [|[|[|[|j]]]]]; vm_compute; congruence.
Qed.

Lemma turn_out_of_range_raises_witness :
  shaped sample_board
  ∧ ¬ (0 ≤ 4 < size sample_board ∧ 0 ≤ 0 < size sample_board)
  ∧ turn 16 sample_board 4 0 = None.
Proof.
  assert (Hsh : shaped sample_board) by apply sample_board_wf.
  assert (Hout : ¬ (0 ≤ 4 < size sample_board ∧ 0 ≤ 0 < size sample_board)).
  { simpl. lia. }
  split; [exact Hsh|]. split; [exact Hout|].
  exact (turn_out_of_range_raises 16 sample_board 4 0 Hsh Hout).
Defined.

Lemma reselecting_is_ignored_witness :
  kinds_ok sample_played
  ∧ get_tile sample_played 3 3 = Some (3, 3)%nat
  ∧ is_revealed sample_played (3, 3)%nat = true
  ∧ turn 16 sample_played 3 3 = Some (sample_played, true, [])
  ∧ game_loop 16 sample_played [(3, 3); (0, 0)]
    = game_loop 16 sample_played [(0, 0)].
Proof.
  assert (Hk : kinds_ok sample_played) by apply sample_played_settled.
  assert (Hget : get_tile sample_played 3 3 = Some (3, 3)%nat) by reflexivity.
  assert (Hrev : is_revealed sample_played (3, 3)%nat = true) by reflexivity.
  split; [exact Hk|]. split; [exact Hget|]. split; [exact Hrev|].
  exact (reselecting_is_ignored 16 sample_played 3 3 (3, 3)%nat [(0, 0)]
                                Hk Hget Hrev).
Defined.

Lemma turn_returns_on_valid_selection_witness :
  wf sample_board
  ∧ 0 ≤ 1 < size sample_board
  ∧ ∃ b' keep_playing calls,
      turn (Z.to_nat (size sample_board * size sample_board)) sample_board 1 1
      = Some (b', keep_playing, calls)
      ∧ (keep_playing = false ↔
         is_revealed sample_board (Z.to_nat 1, Z.to_nat 1) = false
         ∧ is_mine sample_board (Z.to_nat 1, Z.to_nat 1) = true).
Proof.
  assert (Hin : 0 ≤ 1 < size sample_board) by (simpl; lia).
  split; [exact sample_board_wf|]. split; [exact Hin|].
  exact (turn_returns_on_valid_selection sample_board 1 1
                                         sample_board_wf Hin Hin).
Defined.

Lemma selecting_a_mine_ends_the_game_witness :
  wf sample_board
  ∧ get_tile sample_board 1 1 = Some (1, 1)%nat
  ∧ is_revealed sample_board (1, 1)%nat = false
  ∧ is_mine sample_board (1, 1)%nat = true
  ∧ ∃ b', turn 16 sample_board 1 1 = Some (b', false, [(1, 1)%nat])
          ∧ game_loop 16 sample_board [(1, 1); (0, 0)]
            = Some (b', false, [(1, 1)%nat])
          ∧ all_revealed b'
          ∧ ∀ r, r ≠ (1, 1)%nat → is_mine b' r = is_mine sample_board r.
Proof.
  assert (Hget : get_tile sample_board 1 1 = Some (1, 1)%nat) by reflexivity.
  assert (Hhid : is_revealed sample_board (1, 1)%nat = false) by reflexivity.
  assert (Hm : is_mine sample_board (1, 1)%nat = true) by reflexivity.
  split; [exact sample_board_wf|]. split; [exact Hget|].
  split; [exact Hhid|]. split; [exact Hm|].
  exact (selecting_a_mine_ends_the_game 15 sample_board 1 1 (1, 1)%nat [(0, 0)]
                                        sample_board_wf Hget Hhid Hm).
Defined.

Lemma display_board_prints_every_row_witness :
  kinds_ok sample_board
  ∧ ∃ header dashes rows,
      display_board sample_board = Some (header :: dashes :: rows)
      ∧ length rows = length (board sample_board).
Proof.
  assert (Hk : kinds_ok sample_board) by apply sample_board_wf.
  split; [exact Hk|].
  exact (display_board_prints_every_row sample_board Hk).
Defined.

Lemma game_never_touches_mines_witness :
  0 ≤ 4
  ∧ new_board 4 "easy" = Some sample_new
  ∧ (∀ k, (k < 2 * Z.to_nat (n_total_mines sample_new))%nat →
          0 ≤ sample_rng k ≤ 4 - 1)
  ∧ populate_board_with_mines sample_rng sample_new = Some sample_board
  ∧ game_loop 16 sample_board [(3, 3)] = Some (sample_played, true, sample_calls)
  ∧ wf sample_played
  ∧ (∀ r, is_mine sample_played r = is_mine sample_board r)
  ∧ no_revealed_mine sample_played
  ∧ (∀ q, q ∈ sample_calls → is_mine sample_board q = false).
Proof.
  assert (H0 : 0 ≤ 4) by lia.
  split; [exact H0|]. split; [exact sample_new_eq|].
  split; [exact sample_rng_in_range|]. split; [exact sample_board_eq|].
  split; [exact sample_game_eq|].
  exact (game_never_touches_mines 4 "easy" sample_new sample_rng sample_board
           16 [(3, 3)] sample_played sample_calls H0 sample_new_eq
           sample_rng_in_range sample_board_eq sample_game_eq).
Defined.

Lemma revealed_tiles_show_adjacent_mines_witness :
  0 ≤ 4
  ∧ new_board 4 "easy" = Some sample_new
  ∧ (∀ k, (k < 2 * Z.to_nat (n_total_mines sample_new))%nat →
          0 ≤ sample_rng k ≤ 4 - 1)
  ∧ populate_board_with_mines sample_rng sample_new = Some sample_board
  ∧ game_loop 16 sample_board [(3, 3)] = Some (sample_played, true, sample_calls)
  ∧ deref (board sample_played) (2, 2)%nat = Some (mkTile "empty" true 2 2 1)
  ∧ revealed (mkTile "empty" true 2 2 1) = true
  ∧ mine_neighbours sample_played (2, 2)%nat [(1, 1)%nat]
  ∧ n_adjacent_mines (mkTile "empty" true 2 2 1)
    = Z.of_nat (length [(1, 1)%nat])
  ∧ tile_type (mkTile "empty" true 2 2 1) = "empty"
  ∧ Tile_repr (mkTile "empty" true 2 2 1)
    = Some (if 0 <? Z.of_nat (length [(1, 1)%nat])
            then Py.str (Z.of_nat (length [(1, 1)%nat])) else " ").
Proof.
  assert (H0 : 0 ≤ 4) by lia.
  assert (Ht : deref (board sample_played) (2, 2)%nat
               = Some (mkTile "empty" true 2 2 1)) by reflexivity.
  assert (Hrev : revealed (mkTile "empty" true 2 2 1) = true) by reflexivity.
  assert (Hl : mine_neighbours sample_played (2, 2)%nat [(1, 1)%nat]).
  { split; [apply NoDup_singleton|]. intros q.
    rewrite list_elem_of_singleton. split.
    - intros ->. split; [|reflexivity]. split; [congruence|simpl; lia].
    - intros [_ Hq]. by apply sample_played_mine. }
  split; [exact H0|]. split; [exact sample_new_eq|].
  split; [exact sample_rng_in_range|]. split; [exact sample_board_eq|].
  split; [exact sample_game_eq|]. split; [exact Ht|]. split; [exact Hrev|].
  split; [exact Hl|].
  exact (revealed_tiles_show_adjacent_mines 4 "easy" sample_new sample_rng
           sample_board 16 [(3, 3)] sample_played sample_calls (2, 2)%nat
           (mkTile "empty" true 2 2 1) [(1, 1)%nat] H0 sample_new_eq
           sample_rng_in_range sample_board_eq sample_game_eq Ht Hrev Hl).
Defined.

Lemma small_board_settled : settled small_board.
Proof.
  apply (populated_settled 2 "easy" (mkBoard 2 "easy" (board_init 2) 0)
                           sample_rng small_board).
  - lia.
  - vm_compute. reflexivity.
  - intros k Hk. simpl in Hk. lia.
  - vm_compute. reflexivity.
Qed.

Lemma small_midfill_invoked :
  invoked_within (mutate_tile (set_revealed true) (0, 0)%nat small_board)
                 (0, 0)%nat small_midfill (1, 1)%nat.
Proof.
  apply (invoked_nested
           _ _ (mutate_tile (mark 0) (0, 0)%nat
                  (mutate_tile (set_revealed true) (0, 0)%nat small_board))
           (0, 1)%nat).
  - apply (invoked_by_loop
             0 (mutate_tile (set_revealed true) (0, 0)%nat small_board)
             (0, 0)%nat (mkTile "empty" true 0 0 0)
             [] (0, 1)%nat [(1, 0)%nat; (1, 1)%nat]
             (mutate_tile (mark 0) (0, 0)%nat
                (mutate_tile (set_revealed true) (0, 0)%nat small_board),
              [(0, 0)%nat])).
    + reflexivity.
    + vm_compute. congruence.
    + vm_compute. reflexivity.
    + apply recurses_nil.
  - apply (invoked_by_loop
             4 (mutate_tile (mark 0) (0, 0)%nat
                  (mutate_tile (set_revealed true) (0, 0)%nat small_board))
             (0, 1)%nat (mkTile "empty" false 0 1 0)
             [(1, 0)%nat] (1, 1)%nat []
             (small_midfill, [(0, 1)%nat; (1, 0)%nat; (1, 1)%nat])).
    + reflexivity.
    + vm_compute. congruence.
    + vm_compute. reflexivity.
    + eapply recurses_cons; [vm_compute; reflexivity|]. apply recurses_nil.
Qed.

Lemma repeated_invocations_are_harmless_witness :
  settled small_board
  ∧ get_tile small_board 0 0 = Some (0, 0)%nat
  ∧ is_revealed small_board (0, 0)%nat = false
  ∧ is_mine small_board (0, 0)%nat = false
  ∧ invoked_within (mutate_tile (set_revealed true) (0, 0)%nat small_board)
                   (0, 0)%nat small_midfill (1, 1)%nat
  ∧ is_revealed small_midfill (1, 1)%nat = true
  ∧ ∃ b' calls,
      evaluate_tile (Z.to_nat (size small_midfill * size small_midfill))
                    small_midfill (1, 1)%nat = Some (b', calls)
      ∧ (∀ r, is_revealed small_midfill r = true →
              deref (board b') r = deref (board small_midfill) r)
      ∧ (∀ r, is_mine b' r = is_mine small_midfill r)
      ∧ (¬ no_mine_around small_midfill (1, 1)%nat →
         b' = small_midfill ∧ calls = [(1, 1)%nat]).
Proof.
  assert (Hget : get_tile small_board 0 0 = Some (0, 0)%nat) by reflexivity.
  assert (Hhid : is_revealed small_board (0, 0)%nat = false) by reflexivity.
  assert (Hm : is_mine small_board (0, 0)%nat = false) by reflexivity.
  assert (Hrev : is_revealed small_midfill (1, 1)%nat = true) by reflexivity.
  split; [exact small_board_settled|]. split; [exact Hget|].
  split; [exact Hhid|]. split; [exact Hm|].
  split; [exact small_midfill_invoked|]. split; [exact Hrev|].
  exact (repeated_invocations_are_harmless small_board 0 0 (0, 0)%nat
           small_midfill (1, 1)%nat small_board_settled Hget Hhid Hm
           small_midfill_invoked Hrev).
Defined.

Lemma evaluate_tile_invocations_bounded_witness :
  wf sample_board
  ∧ on_board sample_board (3, 3)%nat
  ∧ ∃ b' calls,
      evaluate_tile (Z.to_nat (size sample_board * size sample_board))
                    sample_board (3, 3)%nat = Some (b', calls)
      ∧ (length calls + 8 * hidden b'
         ≤ 1 + 8 * hidden_besides sample_board (3, 3)%nat)%nat
      ∧ (length calls + 7
         ≤ 8 * Z.to_nat (size sample_board * size sample_board))%nat.
Proof.
  assert (Hon : on_board sample_board (3, 3)%nat) by (split; simpl; lia).
  split; [exact sample_board_wf|]. split; [exact Hon|].
  exact (evaluate_tile_invocations_bounded sample_board (3, 3)%nat
           sample_board_wf Hon).
Defined.

Lemma loss_display_shows_mines_witness :
  kinds_ok sample_board
  ∧ no_revealed_mine sample_board
  ∧ hidden_unnumbered sample_board
  ∧ deref (board sample_board) (1, 1)%nat = Some (mkTile "mine" false 1 1 0)
  ∧ tile_type (mkTile "mine" false 1 1 0) = "mine"
  ∧ ∃ b1 msg out,
      check_if_mine (mutate_tile (set_revealed true) (1, 1)%nat sample_board)
                    (1, 1)%nat
      = Some (b1, msg :: out, false)
      ∧ display_board b1 = Some out
      ∧ size b1 = size sample_board
      ∧ length (board b1) = length (board sample_board)
      ∧ (∀ r, deref (board b1) r
              = set_revealed true <$> deref (board sample_board) r)
      ∧ ∀ r t0, deref (board sample_board) r = Some t0 →
                ∃ t1, deref (board b1) r = Some t1
                      ∧ (is_mine sample_board r = true →
                         Tile_repr t1 = Some "!")
                      ∧ (is_mine sample_board r = false →
                         is_revealed sample_board r = false →
                         Tile_repr t1 = Some " ").
Proof.
  assert (Hk : kinds_ok sample_board) by apply sample_board_wf.
  assert (Hn : no_revealed_mine sample_board)
    by apply all_hidden_no_revealed_mine, sample_board_hidden.
  assert (Ht : deref (board sample_board) (1, 1)%nat
               = Some (mkTile "mine" false 1 1 0)) by reflexivity.
  assert (Hm : tile_type (mkTile "mine" false 1 1 0) = "mine") by reflexivity.
  split; [exact Hk|]. split; [exact Hn|].
  split; [exact sample_board_hidden_unnumbered|]. split; [exact Ht|].
  split; [exact Hm|].
  exact (loss_display_shows_mines sample_board (1, 1)%nat
           (mkTile "mine" false 1 1 0) Hk Hn sample_board_hidden_unnumbered
           Ht Hm).
Defined.

Lemma populate_order_independent_witness :
  shaped sample_new
  ∧ (1 ≤ size sample_new ∨ n_total_mines sample_new ≤ 0)
  ∧ [(1, 1)] ≡ₚ remove_dups
                  (samples sample_rng (Z.to_nat (n_total_mines sample_new)))
  ∧ Py.for_each plant [(1, 1)]
                (with_n_total_mines (Z.of_nat (length [(1, 1)])) sample_new)
    = populate_board_with_mines sample_rng sample_new.
Proof.
  assert (Hsh : shaped sample_new).
  { apply (new_board_wf 4 "easy"); [lia|apply sample_new_eq]. }
  assert (Hs : 1 ≤ size sample_new ∨ n_total_mines sample_new ≤ 0).
  { left. simpl. lia. }
  assert (Hp : [(1, 1)] ≡ₚ remove_dups
                 (samples sample_rng (Z.to_nat (n_total_mines sample_new)))).
  { vm_compute. reflexivity. }
  split; [exact Hsh|]. split; [exact Hs|]. split; [exact Hp|].
  exact (populate_order_independent sample_new sample_rng [(1, 1)] Hsh Hs Hp).
Defined.

Lemma planted_mines_are_counted_witness :
  0 ≤ 4
  ∧ new_board 4 "easy" = Some sample_new
  ∧ (∀ k, (k < 2 * Z.to_nat (n_total_mines sample_new))%nat →
          0 ≤ sample_rng k ≤ 4 - 1)
  ∧ populate_board_with_mines sample_rng sample_new = Some sample_board
  ∧ n_total_mines sample_board = Z.of_nat (length (mine_cells sample_board)).
Proof.
  assert (H0 : 0 ≤ 4) by lia.
  split; [exact H0|]. split; [exact sample_new_eq|].
  split; [exact sample_rng_in_range|]. split; [exact sample_board_eq|].
  exact (planted_mines_are_counted 4 "easy" sample_new sample_rng sample_board
           H0 sample_new_eq sample_rng_in_range sample_board_eq).
Defined.

Lemma target_is_a_count_witness :
  set_number_of_mines 4 "easy" = Some 1
  ∧ "easy" ∈ difficulties
  ∧ 0 ≤ 1
  ∧ 2 * 1 ≤ 4 * 4.
Proof.
  assert (Hn : set_number_of_mines 4 "easy" = Some 1)
    by (vm_compute; reflexivity).
  destruct (target_is_a_count 4 "easy" 1 Hn) as (Hd & Hge & Hle).
  split; [exact Hn|]. split; [exact Hd|]. split; [exact Hge|].
  apply Hle. lia.
Defined.

Lemma numbered_tile_reveals_alone_witness :
  in_play sample_board
  ∧ get_tile sample_board 0 0 = Some (0, 0)%nat
  ∧ is_revealed sample_board (0, 0)%nat = false
  ∧ is_mine sample_board (0, 0)%nat = false
  ∧ ¬ no_mine_around sample_board (0, 0)%nat
  ∧ ∃ b', turn 1 sample_board 0 0 = Some (b', true, [(0, 0)%nat])
          ∧ is_revealed b' (0, 0)%nat = true
          ∧ ∀ r, r ≠ (0, 0)%nat →
                 deref (board b') r = deref (board sample_board) r.
Proof.
  assert (Hplay : in_play sample_board) by apply sample_board_settled.
  assert (Hget : get_tile sample_board 0 0 = Some (0, 0)%nat) by reflexivity.
  assert (Hhid : is_revealed sample_board (0, 0)%nat = false) by reflexivity.
  assert (Hm : is_mine sample_board (0, 0)%nat = false) by reflexivity.
  assert (Hnz : ¬ no_mine_around sample_board (0, 0)%nat).
  { intros H. specialize (H (1, 1)%nat). vm_compute in H.
    assert (E : true = false); [|congruence].
    apply H. split; [congruence|lia]. }
  split; [exact Hplay|]. split; [exact Hget|]. split; [exact Hhid|].
  split; [exact Hm|]. split; [exact Hnz|].
  exact (numbered_tile_reveals_alone 0 sample_board 0 0 (0, 0)%nat
           Hplay Hget Hhid Hm Hnz).
Defined.

Lemma minesweeper_never_raises_witness :
  1 ≤ 4 ≤ 2000
  ∧ "easy" ∈ difficulties
  ∧ (∀ k : nat, 0 ≤ sample_rng k ≤ 4 - 1)
  ∧ Forall (λ c : Z * Z, 0 ≤ c.1 < 4 ∧ 0 ≤ c.2 < 4) [(3, 3); (1, 1)]
  ∧ is_Some (minesweeper (Z.to_nat (4 * 4)) 4 "easy" sample_rng
                         [(3, 3); (1, 1)]).
Proof.
  assert (Hs : 1 ≤ 4 ≤ 2000) by lia.
  assert (Hd : "easy" ∈ difficulties).
  { unfold difficulties, DIFFICULTY_MAPPING. simpl. rewrite !elem_of_cons.
    by left. }
  assert (Hr : ∀ k : nat, 0 ≤ sample_rng k ≤ 4 - 1).
  { intros k. unfold sample_rng. lia. }
  assert (Hi : Forall (λ c : Z * Z, 0 ≤ c.1 < 4 ∧ 0 ≤ c.2 < 4)
                      [(3, 3); (1, 1)]).
  { repeat constructor; simpl; lia. }
  split; [exact Hs|]. split; [exact Hd|]. split; [exact Hr|].
  split; [exact Hi|].
  exact (minesweeper_never_raises 4 "easy" sample_rng [(3, 3); (1, 1)]
           Hs Hd Hr Hi).
Defined.

(** ** How a game ends *)

Lemma check_if_mine_loss b tile b1 out :
  check_if_mine b tile = Some (b1, out, false) → all_revealed b1.
Proof.
  unfold check_if_mine.
  destruct (deref (board b) tile) as [t|]; [|done]. simpl.
  destruct (String.eqb _ _); [|done].
  destruct (display_board _); [|done]. simpl. intros [= <- _].
  apply (all_revealed_reveal_all (mutate_tile (set_revealed true) tile b)).
Qed.

Lemma turn_ends depth b cx cy b' calls :
  wf b → turn depth b cx cy = Some (b', false, calls) →
  (0 ≤ cx < size b ∧ 0 ≤ cy < size b)
  ∧ is_mine b (Z.to_nat cx, Z.to_nat cy) = true
  ∧ all_revealed b'.
Proof.
  intros Hwf. pose proof Hwf as (Hsh & _ & _). unfold turn.
  destruct (display_board b); [|done]. simpl.
  destruct (decide (0 ≤ cx < size b ∧ 0 ≤ cy < size b)) as [[Hx Hy]|Hout];
    [|by rewrite get_tile_outside].
  rewrite get_tile_inside by done.
  destruct (is_revealed b _); [done|].
  destruct (check_if_mine _ _) as [[[b1 out] ok]|] eqn:E1; [|done]. simpl.
  destruct (evaluate_tile depth b1 _) as [[b2 calls2]|] eqn:E2; [|done].
  simpl. intros [= <- -> _]. split; [done|].
  pose proof (check_if_mine_flag _ _ _ _ _ E1) as Hflag.
  rewrite is_mine_set_revealed in Hflag. split.
  { by destruct (is_mine b _). }
  apply check_if_mine_loss in E1.
  apply evaluate_tile_sound, Evaluates_marked_only in E2.
  intros r t' Ht'.
  destruct (marked_only_deref_inv E2 _ _ Ht') as (t & Ht & [->|[c ->]]);
    [by apply (E1 r)|done].
Qed.

(** X17: the loop has no way to end but a mine: when a game that was in
    play stops ([keep_playing] false), one of the selections typed was inside
    the board on a tile that is a mine in the starting board, the selections
    before it kept the game going, those after it are not read, and every
    tile of the final board is revealed.  Revealing every safe tile does not
    end the loop. *)
Theorem game_ends_only_on_a_mine depth inputs :
  ∀ b b' calls,
    in_play b → game_loop depth b inputs = Some (b', false, calls) →
    ∃ pre cx cy post bm callsm,
      inputs = (pre ++ (cx, cy) :: post)%list
      ∧ game_loop depth b pre = Some (bm, true, callsm)
      ∧ (0 ≤ cx < size b ∧ 0 ≤ cy < size b)
      ∧ is_mine b (Z.to_nat cx, Z.to_nat cy) = true
      ∧ game_loop depth b (pre ++ [(cx, cy)])%list = Some (b', false, calls)
      ∧ all_revealed b'.
Proof.
  induction inputs as [|[cx cy] inputs IH]; intros b b' calls Hplay; [done|].
  simpl. destruct (turn depth b cx cy) as [[[b1 keep] calls1]|] eqn:E1; [|done].
  simpl. destruct keep.
  - destruct (game_loop depth b1 inputs) as [[[b2 keep2] calls2]|] eqn:E2;
      [|done].
    simpl. intros [= <- -> <-].
    destruct (turn_in_play _ _ _ _ _ _ Hplay E1) as [Hplay1 Hm1].
    destruct (turn_wf _ _ _ _ _ _ _ (proj1 Hplay) E1) as [_ Hs1].
    destruct (IH _ _ _ Hplay1 E2)
      as (pre & cx' & cy' & post & bm & callsm & -> & Epre & Hin & Hm & Eend & Hall).
    exists ((cx, cy) :: pre), cx', cy', post, bm, (calls1 ++ callsm)%list.
    split; [done|]. split; [by simpl; rewrite E1; simpl; rewrite Epre|].
    split; [by rewrite <- Hs1|]. split; [by rewrite <- Hm1|].
    split; [|done]. simpl. rewrite E1. simpl. by rewrite Eend.
  - intros [= <- <-].
    destruct (turn_ends _ _ _ _ _ _ (proj1 Hplay) E1) as (Hin & Hm & Hall).
    exists [], cx, cy, inputs, b, []. split; [done|]. split; [done|].
    split; [done|]. split; [done|]. split; [|done].
    simpl. by rewrite E1.
Qed.

Lemma sample_lost_eq :
  game_loop 16 sample_board [(3, 3); (1, 1); (0, 0)]
  = Some (sample_lost.1, false, sample_lost.2).
Proof. vm_compute. reflexivity. Qed.

Lemma game_ends_only_on_a_mine_witness :
  in_play sample_board
  ∧ game_loop 16 sample_board [(3, 3); (1, 1); (0, 0)]
    = Some (sample_lost.1, false, sample_lost.2)
  ∧ ∃ pre cx cy post bm callsm,
      [(3, 3); (1, 1); (0, 0)] = (pre ++ (cx, cy) :: post)%list
      ∧ game_loop 16 sample_board pre = Some (bm, true, callsm)
      ∧ (0 ≤ cx < size sample_board ∧ 0 ≤ cy < size sample_board)
      ∧ is_mine sample_board (Z.to_nat cx, Z.to_nat cy) = true
      ∧ game_loop 16 sample_board (pre ++ [(cx, cy)])%list
        = Some (sample_lost.1, false, sample_lost.2)
      ∧ all_revealed sample_lost.1.
Proof.
  assert (Hplay : in_play sample_board) by apply sample_board_settled.
  split; [exact Hplay|]. split; [exact sample_lost_eq|].
  exact (game_ends_only_on_a_mine 16 [(3, 3); (1, 1); (0, 0)] sample_board
           sample_lost.1 sample_lost.2 Hplay sample_lost_eq).
Defined.
